(** * The AI quality gate of TrendRadar (trendradar/ai/quality_gate.py)

    A shallow embedding of [AIQualityGate]: the candidate collector, the
    batch judge, the decision merger and the structure rewriter, with the
    properties the design document states about them.

    Python strings are sequences of Unicode code points, so a [str] is a
    [list N] here; [len], slicing and [strip] then count what Python counts.
    Dictionaries of known shape are records whose optional keys are
    [option] fields; the decision map and the kept-id set are [gmap] and
    [gset]. *)

From Stdlib Require Import ZArith List Ascii String Decimal DecimalNat DecimalString.
From stdpp Require Import base option list gmap sets fin_maps.

Local Open Scope Z_scope.
Set Warnings "-clear-no-such-hyp,-register-all".

(** ** Python strings *)

Abbreviation pystr := (list N).

(** A literal: the code points of an ASCII string. *)
Definition py (s : string) : pystr := N_of_ascii <$> list_ascii_of_string s.

(** [str.isspace] for one character, the table of CPython's
    [_PyUnicode_IsWhitespace]. *)
Definition py_isspace (c : N) : bool :=
  ((9 <=? c) && (c <=? 13) || (28 <=? c) && (c <=? 32) || (c =? 133)
   || (c =? 160) || (c =? 5760) || (8192 <=? c) && (c <=? 8202)
   || (c =? 8232) || (c =? 8233) || (c =? 8239) || (c =? 8287)
   || (c =? 12288))%N.

Fixpoint lstrip_with (p : N → bool) (s : pystr) : pystr :=
  match s with
  | c :: s' => if p c then lstrip_with p s' else s
  | [] => []
  end.

Definition rstrip_with (p : N → bool) (s : pystr) : pystr :=
  reverse (lstrip_with p (reverse s)).

Definition strip_with (p : N → bool) (s : pystr) : pystr :=
  rstrip_with p (lstrip_with p s).

(** [s.strip()], [s.rstrip()] and [s.strip(chars)]. *)
Definition py_strip : pystr → pystr := strip_with py_isspace.
Definition py_rstrip : pystr → pystr := rstrip_with py_isspace.
Definition py_strip_chars (chars : pystr) : pystr → pystr :=
  strip_with (λ c, bool_decide (c ∈ chars)).

Fixpoint py_startswith (p s : pystr) : bool :=
  match p, s with
  | [], _ => true
  | a :: p', b :: s' => (a =? b)%N && py_startswith p' s'
  | _ :: _, [] => false
  end.

(** [s.replace(a, b)] for one-character [a] and [b]. *)
Definition py_replace1 (a b : N) (s : pystr) : pystr :=
  (λ c, if (c =? a)%N then b else c) <$> s.

(** [s.find(c)] and [s.rfind(c)] for a one-character [c]: the first and the
    last index of [c], or [-1]. *)
Fixpoint find_from (c : N) (s : pystr) (i : Z) : Z :=
  match s with
  | [] => -1
  | x :: s' => if (x =? c)%N then i else find_from c s' (i + 1)
  end.

Definition py_find (c : N) (s : pystr) : Z := find_from c s 0.

Fixpoint rfind_from (c : N) (s : pystr) (i : Z) (last : Z) : Z :=
  match s with
  | [] => last
  | x :: s' => rfind_from c s' (i + 1) (if (x =? c)%N then i else last)
  end.

Definition py_rfind (c : N) (s : pystr) : Z := rfind_from c s 0 (-1).

(** [s[l:r]] for [0 <= l], the only slices the gate takes. *)
Definition py_slice (s : pystr) (l r : Z) : pystr :=
  take (Z.to_nat (r - l)) (drop (Z.to_nat l) s).

(** The line boundaries of [str.splitlines]. *)
Definition is_linebreak (c : N) : bool :=
  ((10 <=? c) && (c <=? 13) || (28 <=? c) && (c <=? 30) || (c =? 133)
   || (c =? 8232) || (c =? 8233))%N.

(** [s.splitlines()]: [cur] is the line being read, reversed; a carriage
    return followed by a line feed is one boundary; no empty last line. *)
Fixpoint splitlines_go (cur : pystr) (s : pystr) : list pystr :=
  match s with
  | [] => match cur with [] => [] | _ => [reverse cur] end
  | c :: s' =>
      if is_linebreak c then
        match c, s' with
        | 13%N, 10%N :: s'' => reverse cur :: splitlines_go [] s''
        | _, _ => reverse cur :: splitlines_go [] s'
        end
      else splitlines_go (c :: cur) s'
  end.

Definition py_splitlines (s : pystr) : list pystr := splitlines_go [] s.

(** [sep.join(parts)]. *)
Fixpoint py_join (sep : pystr) (parts : list pystr) : pystr :=
  match parts with
  | [] => []
  | [p] => p
  | p :: rest => p ++ sep ++ py_join sep rest
  end.

(** [str(n)] for a non-negative integer, as an f-string formats an index. *)
Definition py_dec (n : nat) : pystr := py (NilEmpty.string_of_uint (Nat.to_uint n)).


(** ** Values parsed from the service's response *)

(** What [json.loads] returns. A number with a fraction or an exponent is
    kept as its literal; an object keeps one value per key. *)
Inductive json :=
| JNull
| JBool (b : bool)
| JInt (z : Z)
| JFloat (literal : pystr)
| JStr (s : pystr)
| JArr (elems : list json)
| JObj (fields : gmap pystr json).

(** An exception: [type(e).__name__] and [str(e)]. *)
Record exn := Exn { exn_type : pystr; exn_msg : pystr }.

Inductive result (A : Type) :=
| Ok (a : A)
| Raise (e : exn).
Arguments Ok {A} a.
Arguments Raise {A} e.

Definition is_raise {A} (r : result A) : bool :=
  match r with Raise _ => true | Ok _ => false end.

Definition ValueError (msg : pystr) : exn := Exn (py "ValueError") msg.

(** ** Collections handed to the gate *)

(** A title entry: the keys the gate reads or writes, and the rest of the
    dictionary. [None] is a key that is absent or holds [None]; [x.get(k) or
    ""] reads both as the empty string. *)
Record entry := Entry {
  e_title : option pystr;
  e_mobileUrl : option pystr;
  e_mobile_url : option pystr;
  e_url : option pystr;
  e_source_name : option pystr;
  e_brief : option pystr;
  e_rest : gmap pystr json;
}.

(** A group of any of the four collections (a keyword group of [stats] or
    of the RSS lists, a source of [new_titles]). *)
Record group := Group {
  g_word : option pystr;
  g_titles : option (list entry);
  g_count : option Z;
  g_rest : gmap pystr json;
}.

Record report := Report {
  r_stats : option (list group);
  r_new_titles : option (list group);
  r_total_new_count : option Z;
  r_rest : gmap pystr json;
}.

(** One flattened candidate, as [_collect_candidates] builds it. *)
Record candidate := Candidate {
  c_id : pystr;
  c_title : pystr;
  c_source_name : pystr;
  c_group : pystr;
  c_section : pystr;
  c_url : pystr;
}.

Record pointer := Pointer { p_section : pystr; p_gi : nat; p_ti : nat }.

(** What [_judge_batch] stores per id. *)
Record decision := Decision {
  d_keep : bool;
  d_score : Z;
  d_reason : pystr;
  d_brief : pystr;
}.

Record QualityGateStats := Stats {
  total_items : nat;
  evaluated_items : nat;
  kept_items : nat;
  dropped_items : nat;
  error : pystr;
}.

(** The fields of [AIQualityGate] that [filter_before_send] and the
    functions below it read, with the values [__init__] gave them. *)
Record AIQualityGate := Gate {
  enabled : bool;
  API_KEY : option pystr;
  min_score : Z;
  max_items : Z;
  batch_size : Z;
}.

(** ** What the gate calls and does not define

    [chat chunk mode] is the round trip of [_judge_batch] to the judgment
    service for one chunk: the optional content fetch (which never raises),
    the prompt built from the chunk and [AIClient.chat]. It returns the raw
    text or raises. The other fields are the library functions applied to
    the parsed response. *)
Class Runtime := {
  chat : list candidate → pystr → result pystr;
  json_loads : pystr → result json;
  py_lower : pystr → pystr;
  int_of_str : pystr → result Z;
  int_of_float : pystr → result Z;
  bool_of_float : pystr → bool;
  py_repr : json → pystr;
}.

(** ** Python's conversions on a parsed value *)

(** Truthiness: [bool(v)], and the test of [v or w]. *)
Definition py_truthy `{Runtime} (v : json) : bool :=
  match v with
  | JNull => false
  | JBool b => b
  | JInt z => negb (z =? 0)
  | JFloat f => bool_of_float f
  | JStr s => match s with [] => false | _ => true end
  | JArr l => match l with [] => false | _ => true end
  | JObj m => negb (bool_decide (m = ∅))
  end.

Definition py_or `{Runtime} (v w : json) : json := if py_truthy v then v else w.

Definition py_dec_Z (z : Z) : pystr :=
  if z <? 0 then py "-" ++ py_dec (Z.to_nat (- z)) else py_dec (Z.to_nat z).

(** [str(v)]. *)
Definition py_str `{Runtime} (v : json) : pystr :=
  match v with
  | JStr s => s
  | JNull => py "None"
  | JBool true => py "True"
  | JBool false => py "False"
  | JInt z => py_dec_Z z
  | _ => py_repr v
  end.

(** [int(v)]; [None], lists and dictionaries raise [TypeError]. *)
Definition py_int `{Runtime} (v : json) : result Z :=
  match v with
  | JInt z => Ok z
  | JBool b => Ok (if b then 1 else 0)
  | JStr s => int_of_str s
  | JFloat f => int_of_float f
  | _ => Raise (Exn (py "TypeError") (py "int() argument must be a string, a bytes-like object or a real number"))
  end.

(** [d.get(k, dflt)]. *)
Definition py_get (o : gmap pystr json) (k : pystr) (dflt : json) : json :=
  default dflt (o !! k).

(** [a or b] on an optional string field. *)
Definition str_or (a : option pystr) (b : pystr) : pystr :=
  match a with
  | Some (c :: s) => c :: s
  | _ => b
  end.

(** ** _safe_json_extract *)

Definition is_lang_tag (s : pystr) : bool :=
  bool_decide (s = py "json") || bool_decide (s = py "javascript").

Definition _safe_json_extract `{Runtime} (text : pystr) : option pystr :=
  match text with
  | [] => None
  | _ =>
    let s := py_strip text in
    let s :=
      if py_startswith (py "```") s then
        let s := py_strip (py_strip_chars (py "`") s) in
        let lines := py_splitlines s in
        match lines with
        | l0 :: rest =>
            if is_lang_tag (py_lower (py_strip l0))
            then py_strip (py_join [10%N] rest)
            else s
        | [] => s
        end
      else s in
    let l := py_find 91 s in
    let r := py_rfind 93 s in
    if negb (l =? -1) && negb (r =? -1) && (r >? l) then
      Some (py_strip (py_slice s l (r + 1)))
    else
      let l := py_find 123 s in
      let r := py_rfind 125 s in
      if negb (l =? -1) && negb (r =? -1) && (r >? l) then
        Some (py_strip (py_slice s l (r + 1)))
      else None
  end.

(** ** The judge's effects: raised exceptions and the calls issued

    A computation reads and extends the list of chunks sent to the service
    so far and either returns or raises. *)
Definition M (A : Type) : Type :=
  list (list candidate) → list (list candidate) * result A.

Definition ret {A} (a : A) : M A := λ log, (log, Ok a).
Definition raise {A} (e : exn) : M A := λ log, (log, Raise e).
Definition bind {A B} (k : A → M B) (m : M A) : M B :=
  λ log, match m log with
         | (log', Ok a) => k a log'
         | (log', Raise e) => (log', Raise e)
         end.
#[global] Instance M_ret : MRet M := @ret.
#[global] Instance M_bind : MBind M := @bind.
Definition lift {A} (r : result A) : M A := λ log, (log, r).

(** [try: m except Exception as e: ...]: the outcome as a value. *)
Definition try_ {A} (m : M A) : M (result A) :=
  λ log, let '(log', r) := m log in (log', Ok r).

(** One request to the service, recorded. *)
Definition call_chat `{Runtime} (chunk : list candidate) (mode : pystr) : M pystr :=
  λ log, (log ++ [chunk], chat chunk mode).

(** [for x in xs: s = body(s, x)], leaving at the first exception. *)
Fixpoint for_each {A S} (xs : list A) (s : S) (body : S → A → M S) : M S :=
  match xs with
  | [] => ret s
  | x :: xs' => s' ← body s x ; for_each xs' s' body
  end.

Fixpoint for_each_r {A S} (xs : list A) (s : S) (body : S → A → result S) : result S :=
  match xs with
  | [] => Ok s
  | x :: xs' =>
      match body s x with
      | Ok s' => for_each_r xs' s' body
      | Raise e => Raise e
      end
  end.

(** [enumerate(l)]. *)
Fixpoint enumerate_from {A} (i : nat) (l : list A) : list (nat * A) :=
  match l with
  | [] => []
  | x :: l' => (i, x) :: enumerate_from (S i) l'
  end.
Definition enumerate {A} (l : list A) : list (nat * A) := enumerate_from 0 l.

(** [range(start, stop, step)] for a positive step. *)
Fixpoint range_go (fuel start stop step : nat) : list nat :=
  match fuel with
  | O => []
  | S fuel' =>
      if (start <? stop)%nat then start :: range_go fuel' (start + step) stop step
      else []
  end.
Definition py_range (start stop step : nat) : list nat :=
  range_go stop start stop step.

(** [l[a:b]] for list indices [a <= b]. *)
Definition slice {A} (l : list A) (a b : nat) : list A := take (b - a) (drop a l).

(** ** _judge_batch *)

Definition msg_no_json : pystr :=
  [27169; 22411; 36755; 20986; 26410; 25214; 21040; 21487; 35299; 26512;
   30340; 32; 74; 83; 79; 78]%N.
Definition msg_not_array : pystr :=
  [27169; 22411; 36755; 20986; 32; 74; 83; 79; 78; 32; 19981; 26159; 25968;
   32452]%N.

(** The [brief] of a row, as stored. *)
Definition normalize_brief (raw : pystr) : pystr :=
  let brief := py_strip raw in
  match brief with
  | [] => brief
  | _ =>
      let brief := py_strip (py_replace1 13 32 (py_replace1 10 32 brief)) in
      if (80 <? length brief)%nat then py_rstrip (take 80 brief) else brief
  end.

(** The body of [for row in data]. *)
Definition judge_row `{Runtime} (decisions : gmap pystr decision) (row : json)
    : result (gmap pystr decision) :=
  match row with
  | JObj o =>
      let rid := py_strip (py_str (py_get o (py "id") (JStr []))) in
      match rid with
      | [] => Ok decisions
      | _ =>
          let brief := normalize_brief (py_str (py_get o (py "brief") (JStr []))) in
          let keep := py_truthy (py_get o (py "keep") (JBool false)) in
          match py_int (py_or (py_get o (py "score") (JInt 0)) (JInt 0)) with
          | Raise e => Raise e
          | Ok score =>
              let reason := py_strip (py_str (py_get o (py "reason") (JStr []))) in
              Ok (<[rid := Decision keep score reason brief]> decisions)
          end
      end
  | _ => Ok decisions
  end.

(** What [_judge_batch] does with the raw text of the service;
    [not extracted] holds of [None] and of the empty text. *)
Definition parse_response `{Runtime} (raw : pystr) : result (gmap pystr decision) :=
  match _safe_json_extract raw with
  | None | Some [] => Raise (ValueError msg_no_json)
  | Some extracted =>
      match json_loads extracted with
      | Raise e => Raise e
      | Ok (JArr data) => for_each_r data ∅ judge_row
      | Ok _ => Raise (ValueError msg_not_array)
      end
  end.

Definition _judge_batch `{Runtime} (items : list candidate) (mode : pystr)
    : M (gmap pystr decision) :=
  raw ← call_chat items mode ;
  lift (parse_response raw).

(** ** _judge_in_batches *)

Definition _judge_in_batches `{Runtime} (self : AIQualityGate)
    (items : list candidate) (mode : pystr) : M (gmap pystr decision) :=
  match items with
  | [] => ret ∅
  | _ =>
      let batch_size :=
        if negb (batch_size self =? 0) && (batch_size self >? 0)
        then Z.to_nat (batch_size self) else length items in
      for_each (py_range 0 (length items) batch_size) ∅
        (λ decisions start,
           let chunk := slice items start (start + batch_size) in
           chunk_decisions ← _judge_batch chunk mode ;
           ret (if bool_decide (chunk_decisions = ∅) then decisions
                else chunk_decisions ∪ decisions))
  end.

(** ** _collect_candidates *)

Definition hot_stats : pystr := py "hot_stats".
Definition hot_new : pystr := py "hot_new".
Definition rss_stats : pystr := py "rss_stats".
Definition rss_new : pystr := py "rss_new".

(** [f"{section}:{gi}:{ti}"]. *)
Definition mk_id (section : pystr) (gi ti : nat) : pystr :=
  section ++ py ":" ++ py_dec gi ++ py ":" ++ py_dec ti.

(** [g.get("titles", []) or []]. *)
Definition titles_of (g : group) : list entry := default [] (g_titles g).

(** The loop over the titles of one group, the same in the four sections. *)
Definition collect_titles (section grp : pystr) (gi : nat) (titles : list entry)
    (acc : list candidate * gmap pystr pointer) : list candidate * gmap pystr pointer :=
  foldl (λ '(items, pointers) '(ti, t),
    let tid := mk_id section gi ti in
    let title := py_strip (str_or (e_title t) []) in
    match title with
    | [] => (items, pointers)
    | _ =>
        let link_url :=
          py_strip (str_or (e_mobileUrl t) (str_or (e_mobile_url t) (str_or (e_url t) []))) in
        (items ++ [Candidate tid title (py_strip (str_or (e_source_name t) []))
                     grp section link_url],
         <[tid := Pointer section gi ti]> pointers)
    end) acc (enumerate titles).

(** The loop over the groups of one section; [named] tells whether the
    candidates carry the group's [word] ([new_titles] leaves it empty). *)
Definition collect_section (section : pystr) (named : bool) (groups : list group)
    (acc : list candidate * gmap pystr pointer) : list candidate * gmap pystr pointer :=
  foldl (λ acc '(gi, g),
    let grp := if named then py_strip (str_or (g_word g) []) else [] in
    collect_titles section grp gi (titles_of g) acc) acc (enumerate groups).

Definition _collect_candidates (report_data : report)
    (rss_items rss_new_items : option (list group))
    : list candidate * gmap pystr pointer :=
  let acc := ([], ∅) in
  let acc := collect_section hot_stats true (default [] (r_stats report_data)) acc in
  let acc := collect_section hot_new false (default [] (r_new_titles report_data)) acc in
  let acc := collect_section rss_stats true (default [] rss_items) acc in
  let acc := collect_section rss_new true (default [] rss_new_items) acc in
  acc.

(** ** _apply_kept_ids, on values

    The collections are values here, so [copy.deepcopy] is the identity
    and an assignment to a key builds the updated record. This is the
    rewriter on collections in which no dictionary or list object occurs at
    two places; the section on the object store below models the objects,
    and [apply_kept_ids_refines] relates the two. *)

Definition set_brief (t : entry) (b : pystr) : entry :=
  Entry (e_title t) (e_mobileUrl t) (e_mobile_url t) (e_url t) (e_source_name t)
        (Some b) (e_rest t).
Definition set_titles (g : group) (ts : list entry) : group :=
  Group (g_word g) (Some ts) (g_count g) (g_rest g).
Definition set_count (g : group) (n : Z) : group :=
  Group (g_word g) (g_titles g) (Some n) (g_rest g).

(** [d = decisions.get(tid) or {}; if d.get("brief"): t["brief"] = d["brief"]]. *)
Definition annotate (decisions : gmap pystr decision) (tid : pystr) (t : entry) : entry :=
  match decisions !! tid with
  | Some d => match d_brief d with [] => t | b => set_brief t b end
  | None => t
  end.

(** The inner loop: the kept titles of group [gi]. *)
Definition keep_titles (section : pystr) (keep_ids : gset pystr)
    (decisions : gmap pystr decision) (gi : nat) (titles : list entry) : list entry :=
  foldl (λ kept_titles '(ti, t),
    let tid := mk_id section gi ti in
    if bool_decide (tid ∈ keep_ids)
    then kept_titles ++ [annotate decisions tid t]
    else kept_titles) [] (enumerate titles).

(** The outer loop; [counted] tells whether the section writes
    [g["count"]] (all but [new_titles]). *)
Definition rewrite_groups (section : pystr) (counted : bool) (keep_ids : gset pystr)
    (decisions : gmap pystr decision) (groups : list group) : list group :=
  foldl (λ new_groups '(gi, g),
    let kept_titles := keep_titles section keep_ids decisions gi (titles_of g) in
    match kept_titles with
    | [] => new_groups
    | _ =>
        let g := set_titles g kept_titles in
        let g := if counted then set_count g (Z.of_nat (length kept_titles)) else g in
        new_groups ++ [g]
    end) [] (enumerate groups).

(** [sum(len(s.get("titles", []) or []) for s in new_sources)]. *)
Definition sum_titles (groups : list group) : Z :=
  foldl (λ acc s, acc + Z.of_nat (length (titles_of s))) 0 groups.

(** [copy.deepcopy(x) if x else None]. *)
Definition copy_if_any (x : option (list group)) : option (list group) :=
  match x with
  | Some (g :: l) => Some (g :: l)
  | _ => None
  end.

Definition _apply_kept_ids (report_data : report)
    (rss_items rss_new_items : option (list group)) (keep_ids : gset pystr)
    (pointers : gmap pystr pointer) (decisions : gmap pystr decision)
    : report * option (list group) * option (list group) :=
  let rss_items := copy_if_any rss_items in
  let rss_new_items := copy_if_any rss_new_items in
  let new_stats :=
    rewrite_groups hot_stats true keep_ids decisions (default [] (r_stats report_data)) in
  let new_sources :=
    rewrite_groups hot_new false keep_ids decisions (default [] (r_new_titles report_data)) in
  let report_data :=
    Report (Some new_stats) (Some new_sources) (Some (sum_titles new_sources))
           (r_rest report_data) in
  let rss_items := rewrite_groups rss_stats true keep_ids decisions <$> rss_items in
  let rss_new_items := rewrite_groups rss_new true keep_ids decisions <$> rss_new_items in
  (report_data, rss_items, rss_new_items).

(** ** filter_before_send *)

Definition msg_no_key : pystr :=
  [26410; 37197; 32622; 32; 65; 73; 95; 65; 80; 73; 95; 75; 69; 89; 65292;
   36339; 36807; 36136; 37327; 22797; 31579]%N.

Definition stats0 : QualityGateStats := Stats 0 0 0 0 [].
Definition set_error (s : QualityGateStats) (e : pystr) : QualityGateStats :=
  Stats (total_items s) (evaluated_items s) (kept_items s) (dropped_items s) e.
Definition set_total (s : QualityGateStats) (n : nat) : QualityGateStats :=
  Stats n (evaluated_items s) (kept_items s) (dropped_items s) (error s).
Definition set_evaluated (s : QualityGateStats) (n : nat) : QualityGateStats :=
  Stats (total_items s) n (kept_items s) (dropped_items s) (error s).
Definition set_kept (s : QualityGateStats) (n : nat) : QualityGateStats :=
  Stats (total_items s) (evaluated_items s) n
        (Z.to_nat (Z.max 0 (Z.of_nat (total_items s) - Z.of_nat n))) (error s).

(** The merger: the loop that builds [keep_ids]. *)
Definition merge_decisions (self : AIQualityGate) (items : list candidate)
    (decisions : gmap pystr decision) : gset pystr :=
  foldl (λ keep_ids it,
    let it_id := c_id it in
    match decisions !! it_id with
    | None => {[it_id]} ∪ keep_ids
    | Some d =>
        if d_keep d && (d_score d >=? min_score self)
        then {[it_id]} ∪ keep_ids else keep_ids
    end) ∅ items.

(** [items[: self.max_items] if self.max_items > 0 else items]. *)
Definition eval_items_of (self : AIQualityGate) (items : list candidate) : list candidate :=
  if max_items self >? 0 then take (Z.to_nat (max_items self)) items else items.

Definition output : Type :=
  report * option (list group) * option (list group) * QualityGateStats.

Definition filter_before_send `{Runtime} (self : AIQualityGate) (report_data : report)
    (mode : pystr) (rss_items rss_new_items : option (list group)) : M output :=
  let stats := stats0 in
  if negb (enabled self) then mret (report_data, rss_items, rss_new_items, stats) else
  let api_key := py_strip (str_or (API_KEY self) []) in
  let env_key : pystr := [] in
  if bool_decide (api_key = []) && bool_decide (env_key = []) then
    mret (report_data, rss_items, rss_new_items, set_error stats msg_no_key)
  else
  let '(items, pointers) := _collect_candidates report_data rss_items rss_new_items in
  let stats := set_total stats (length items) in
  match items with
  | [] => mret (report_data, rss_items, rss_new_items, stats)
  | _ =>
    let eval_items := eval_items_of self items in
    let stats := set_evaluated stats (length eval_items) in
    outcome ← try_ (_judge_in_batches self eval_items mode);
    match outcome with
    | Raise e =>
        mret (report_data, rss_items, rss_new_items,
              set_error stats (exn_type e ++ py ": " ++ exn_msg e))
    | Ok decisions =>
        let keep_ids := merge_decisions self items decisions in
        let '(filtered_report_data, filtered_rss_items, filtered_rss_new_items) :=
          _apply_kept_ids report_data rss_items rss_new_items keep_ids pointers decisions in
        mret (filtered_report_data, filtered_rss_items, filtered_rss_new_items,
              set_kept stats (size keep_ids))
    end
  end.

(** * The rewriter on the object store

    [_apply_kept_ids] writes into dictionaries and lists. To see which
    objects it writes into, the collections are here objects of a store:
    a dictionary or a list is a location, and a key that holds a
    dictionary or a list holds its location. Two places may hold the same
    location. A read that does not find the kind of object the type
    annotations promise reads an empty one. *)

Module Store.

Abbreviation loc := nat.

Inductive obj :=
| OEntry (e : entry)
| OGroup (word : option pystr) (titles : option loc) (count : option Z)
         (rest : gmap pystr json)
| OList (refs : list loc)
| OReport (stats new_titles : option loc) (total_new_count : option Z)
          (rest : gmap pystr json).

Abbreviation heap := (gmap loc obj).

(** The locations an object holds. *)
Definition refs (o : obj) : list loc :=
  match o with
  | OEntry _ => []
  | OGroup _ titles _ _ => option_list titles
  | OList rs => rs
  | OReport stats new_titles _ _ => option_list stats ++ option_list new_titles
  end.

(** A new object. *)
Definition alloc (o : obj) (h : heap) : loc * heap :=
  let l := fresh (dom h) in (l, <[l := o]> h).

(** *** Reads *)

Definition empty_entry : entry := Entry None None None None None None ∅.

Definition entry_at (h : heap) (l : loc) : entry :=
  match h !! l with Some (OEntry e) => e | _ => empty_entry end.

(** [x.get(k, []) or []] for a key that holds a list. *)
Definition list_at (h : heap) (ol : option loc) : list loc :=
  match ol with
  | Some l => match h !! l with Some (OList rs) => rs | _ => [] end
  | None => []
  end.

Definition group_titles (h : heap) (g : loc) : option loc :=
  match h !! g with Some (OGroup _ titles _ _) => titles | _ => None end.

Definition report_stats (h : heap) (r : loc) : option loc :=
  match h !! r with Some (OReport stats _ _ _) => stats | _ => None end.

Definition report_new_titles (h : heap) (r : loc) : option loc :=
  match h !! r with Some (OReport _ new_titles _ _) => new_titles | _ => None end.

(** *** The values the objects stand for *)

Definition group_value (h : heap) (g : loc) : group :=
  match h !! g with
  | Some (OGroup word titles count rest) =>
      Group word ((λ t, entry_at h <$> list_at h (Some t)) <$> titles) count rest
  | _ => Group None None None ∅
  end.

Definition collection_value (h : heap) (ol : option loc) : option (list group) :=
  (λ l, group_value h <$> list_at h (Some l)) <$> ol.

Definition report_value (h : heap) (r : loc) : report :=
  match h !! r with
  | Some (OReport stats new_titles total rest) =>
      Report (collection_value h stats) (collection_value h new_titles) total rest
  | _ => Report None None None ∅
  end.

(** *** copy.deepcopy

    The state of one [deepcopy] call: the store and the memo from the
    objects already copied to their copies. *)
Definition state : Type := heap * gmap loc loc.

Definition copy_entry (l : loc) (st : state) : loc * state :=
  match st.2 !! l with
  | Some l' => (l', st)
  | None =>
      let '(l', h) := alloc (OEntry (entry_at st.1 l)) st.1 in
      (l', (h, <[l := l']> st.2))
  end.

(** The copies of the elements of a list, in order. *)
Definition copy_all (copy_one : loc → state → loc * state) (ls : list loc)
    (st : state) : list loc * state :=
  foldl (λ acc l, let '(l', st) := copy_one l acc.2 in (acc.1 ++ [l'], st))
        ([], st) ls.

(** The copy of a list: the empty copy is entered in the memo, then
    filled with the copies of the elements. *)
Definition copy_list (copy_one : loc → state → loc * state) (l : loc)
    (st : state) : loc * state :=
  match st.2 !! l with
  | Some l' => (l', st)
  | None =>
      let rs := list_at st.1 (Some l) in
      let '(l', h) := alloc (OList []) st.1 in
      let '(rs', st) := copy_all copy_one rs (h, <[l := l']> st.2) in
      (l', (<[l' := OList rs']> st.1, st.2))
  end.

Definition copy_opt (copy_one : loc → state → loc * state) (ol : option loc)
    (st : state) : option loc * state :=
  match ol with
  | Some l => let '(l', st) := copy_one l st in (Some l', st)
  | None => (None, st)
  end.

Definition copy_group (g : loc) (st : state) : loc * state :=
  match st.2 !! g with
  | Some g' => (g', st)
  | None =>
      match st.1 !! g with
      | Some (OGroup word titles count rest) =>
          let '(g', h) := alloc (OGroup word None count rest) st.1 in
          let '(titles', st) :=
            copy_opt (copy_list copy_entry) titles (h, <[g := g']> st.2) in
          (g', (<[g' := OGroup word titles' count rest]> st.1, st.2))
      | _ =>
          let '(g', h) := alloc (OGroup None None None ∅) st.1 in
          (g', (h, <[g := g']> st.2))
      end
  end.

Definition copy_report (r : loc) (st : state) : loc * state :=
  match st.2 !! r with
  | Some r' => (r', st)
  | None =>
      match st.1 !! r with
      | Some (OReport stats new_titles total rest) =>
          let '(r', h) := alloc (OReport None None total rest) st.1 in
          let '(stats', st) :=
            copy_opt (copy_list copy_group) stats (h, <[r := r']> st.2) in
          let '(new_titles', st) := copy_opt (copy_list copy_group) new_titles st in
          (r', (<[r' := OReport stats' new_titles' total rest]> st.1, st.2))
      | _ =>
          let '(r', h) := alloc (OReport None None None ∅) st.1 in
          (r', (h, <[r := r']> st.2))
      end
  end.

(** [copy.deepcopy(x)], each call with a memo of its own. *)
Definition deepcopy (copy_one : loc → state → loc * state) (l : loc) (h : heap)
    : loc * heap :=
  let '(l', st) := copy_one l (h, ∅) in (l', st.1).

(** *** Writes *)

(** [t["brief"] = b]. *)
Definition set_brief_at (t : loc) (b : pystr) (h : heap) : heap :=
  match h !! t with
  | Some (OEntry e) => <[t := OEntry (set_brief e b)]> h
  | _ => h
  end.

(** [lst.append(x)]. *)
Definition append_at (lst x : loc) (h : heap) : heap :=
  match h !! lst with
  | Some (OList rs) => <[lst := OList (rs ++ [x])]> h
  | _ => h
  end.

(** [g["titles"] = titles] and [g["count"] = n]. *)
Definition set_titles_at (g titles : loc) (h : heap) : heap :=
  match h !! g with
  | Some (OGroup word _ count rest) => <[g := OGroup word (Some titles) count rest]> h
  | _ => h
  end.

Definition set_count_at (g : loc) (n : Z) (h : heap) : heap :=
  match h !! g with
  | Some (OGroup word titles _ rest) => <[g := OGroup word titles (Some n) rest]> h
  | _ => h
  end.

(** [report_data["stats"] = l], [report_data["new_titles"] = l] and
    [report_data["total_new_count"] = n]. *)
Definition set_stats_at (r l : loc) (h : heap) : heap :=
  match h !! r with
  | Some (OReport _ new_titles total rest) =>
      <[r := OReport (Some l) new_titles total rest]> h
  | _ => h
  end.

Definition set_new_titles_at (r l : loc) (h : heap) : heap :=
  match h !! r with
  | Some (OReport stats _ total rest) => <[r := OReport stats (Some l) total rest]> h
  | _ => h
  end.

Definition set_total_at (r : loc) (n : Z) (h : heap) : heap :=
  match h !! r with
  | Some (OReport stats new_titles _ rest) =>
      <[r := OReport stats new_titles (Some n) rest]> h
  | _ => h
  end.

(** *** _apply_kept_ids *)

(** The inner loop: [kept_titles = []], then an append per kept title. *)
Definition keep_titles (section : pystr) (keep_ids : gset pystr)
    (decisions : gmap pystr decision) (gi : nat) (titles : list loc) (h : heap)
    : loc * heap :=
  let '(kept_titles, h) := alloc (OList []) h in
  (kept_titles,
   foldl (λ h '(ti, t),
     let tid := mk_id section gi ti in
     if bool_decide (tid ∈ keep_ids) then
       let h :=
         match decisions !! tid with
         | Some d => match d_brief d with [] => h | b => set_brief_at t b h end
         | None => h
         end in
       append_at kept_titles t h
     else h) h (enumerate titles)).

(** The outer loop: [new_groups = []], then an append per group that
    keeps a title. *)
Definition rewrite_groups (section : pystr) (counted : bool) (keep_ids : gset pystr)
    (decisions : gmap pystr decision) (groups : list loc) (h : heap) : loc * heap :=
  let '(new_groups, h) := alloc (OList []) h in
  (new_groups,
   foldl (λ h '(gi, g),
     let titles := list_at h (group_titles h g) in
     let '(kept_titles, h) := keep_titles section keep_ids decisions gi titles h in
     match list_at h (Some kept_titles) with
     | [] => h
     | kept =>
         let h := set_titles_at g kept_titles h in
         let h := if counted then set_count_at g (Z.of_nat (length kept)) h else h in
         append_at new_groups g h
     end) h (enumerate groups)).

(** [sum(len(s.get("titles", []) or []) for s in new_sources)]. *)
Definition sum_titles (h : heap) (groups : list loc) : Z :=
  foldl (λ acc s, acc + Z.of_nat (length (list_at h (group_titles h s)))) 0 groups.

(** [copy.deepcopy(x) if x else None]. *)
Definition copy_if_any (x : option loc) (h : heap) : option loc * heap :=
  match x with
  | Some l =>
      match list_at h (Some l) with
      | [] => (None, h)
      | _ => let '(l', h) := deepcopy (copy_list copy_group) l h in (Some l', h)
      end
  | None => (None, h)
  end.

(** The rewriting of an optional RSS list. *)
Definition rewrite_opt (section : pystr) (keep_ids : gset pystr)
    (decisions : gmap pystr decision) (x : option loc) (h : heap) : option loc * heap :=
  match x with
  | Some l =>
      let '(l', h) :=
        rewrite_groups section true keep_ids decisions (list_at h (Some l)) h in
      (Some l', h)
  | None => (None, h)
  end.

Definition _apply_kept_ids (report_data : loc) (rss_items rss_new_items : option loc)
    (keep_ids : gset pystr) (pointers : gmap pystr pointer)
    (decisions : gmap pystr decision) (h : heap)
    : (loc * option loc * option loc) * heap :=
  let '(report_data, h) := deepcopy copy_report report_data h in
  let '(rss_items, h) := copy_if_any rss_items h in
  let '(rss_new_items, h) := copy_if_any rss_new_items h in
  let '(new_stats, h) :=
    rewrite_groups hot_stats true keep_ids decisions
      (list_at h (report_stats h report_data)) h in
  let h := set_stats_at report_data new_stats h in
  let '(new_sources, h) :=
    rewrite_groups hot_new false keep_ids decisions
      (list_at h (report_new_titles h report_data)) h in
  let h := set_new_titles_at report_data new_sources h in
  let h := set_total_at report_data (sum_titles h (list_at h (Some new_sources))) h in
  let '(rss_items, h) := rewrite_opt rss_stats keep_ids decisions rss_items h in
  let '(rss_new_items, h) := rewrite_opt rss_new keep_ids decisions rss_new_items h in
  ((report_data, rss_items, rss_new_items), h).

(** *** filter_before_send

    The collector and the judge only read: they see the values the
    caller's objects stand for. The result names the returned objects,
    in the store the call leaves. *)
Definition output : Type :=
  (loc * option loc * option loc * QualityGateStats) * heap.

Definition filter_before_send `{Runtime} (self : AIQualityGate) (report_data : loc)
    (mode : pystr) (rss_items rss_new_items : option loc) (h : heap) : M output :=
  let stats := stats0 in
  if negb (enabled self) then mret (report_data, rss_items, rss_new_items, stats, h) else
  let api_key := py_strip (str_or (API_KEY self) []) in
  let env_key : pystr := [] in
  if bool_decide (api_key = []) && bool_decide (env_key = []) then
    mret (report_data, rss_items, rss_new_items, set_error stats msg_no_key, h)
  else
  let '(items, pointers) :=
    _collect_candidates (report_value h report_data) (collection_value h rss_items)
      (collection_value h rss_new_items) in
  let stats := set_total stats (length items) in
  match items with
  | [] => mret (report_data, rss_items, rss_new_items, stats, h)
  | _ =>
    let eval_items := eval_items_of self items in
    let stats := set_evaluated stats (length eval_items) in
    outcome ← try_ (_judge_in_batches self eval_items mode);
    match outcome with
    | Raise e =>
        mret (report_data, rss_items, rss_new_items,
              set_error stats (exn_type e ++ py ": " ++ exn_msg e), h)
    | Ok decisions =>
        let keep_ids := merge_decisions self items decisions in
        let '(filtered, h) :=
          _apply_kept_ids report_data rss_items rss_new_items keep_ids pointers
            decisions h in
        mret (filtered, set_kept stats (size keep_ids), h)
    end
  end.

(** *** What the frame property speaks about *)

(** [h] extends the caller's store [h0]: every object of [h0] is in [h]
    as it was, and an object of [h] that is not one of [h0] holds no
    location of [h0]. *)
Definition extends (h0 h : heap) : Prop :=
  h0 ⊆ h
  ∧ ∀ l o, h !! l = Some o → l ∉ dom h0 → Forall (λ r, r ∉ dom h0) (refs o).

(** The copies a memo holds are not objects of the caller. *)
Definition memo_new (h0 : heap) (memo : gmap loc loc) : Prop :=
  ∀ l l', memo !! l = Some l' → l' ∉ dom h0.

(** A copier returns a new object and leaves the caller's alone. *)
Definition copier_ok (copy_one : loc → state → loc * state) : Prop :=
  ∀ h0 l st, extends h0 st.1 → memo_new h0 st.2 →
    extends h0 (copy_one l st).2.1
    ∧ memo_new h0 (copy_one l st).2.2
    ∧ (copy_one l st).1 ∉ dom h0.

(** A store without dangling locations. *)
Definition closed (h : heap) : Prop :=
  map_Forall (λ _ o, Forall (λ r, r ∈ dom h) (refs o)) h.

(** *** Collections in which no object occurs twice

    The footprint of a collection is the list of the objects a traversal
    from its root meets, each as often as it is met: the root, then the
    footprints of what it holds, in order. A collection is of the
    annotated shape when every object met is of the kind the type
    annotations promise (an entry in a list of titles, a group in a list
    of groups, a list under [titles], [stats] and [new_titles]). *)

(** The footprints: of what an optional key holds, of a list whose
    elements have the footprint [fp1], of an entry, of a group and of a
    report. *)
Definition opt_fp (fp1 : heap → loc → list loc) (h : heap) (ol : option loc) : list loc :=
  match ol with Some l => fp1 h l | None => [] end.

Definition list_fp (fp1 : heap → loc → list loc) (h : heap) (l : loc) : list loc :=
  l :: (list_at h (Some l) ≫= fp1 h).

Definition entry_fp (h : heap) (t : loc) : list loc := [t].

Definition group_fp (h : heap) (g : loc) : list loc :=
  g :: opt_fp (list_fp entry_fp) h (group_titles h g).

Definition report_fp (h : heap) (r : loc) : list loc :=
  r :: opt_fp (list_fp group_fp) h (report_stats h r)
    ++ opt_fp (list_fp group_fp) h (report_new_titles h r).

(** The annotated shape, along the same traversal. A key may be absent;
    where it is present it holds a list. *)
Definition opt_typed (typed1 : heap → loc → Prop) (h : heap) (ol : option loc) : Prop :=
  match ol with Some l => typed1 h l | None => True end.

Definition list_typed (typed1 : heap → loc → Prop) (h : heap) (l : loc) : Prop :=
  (∃ rs, h !! l = Some (OList rs)) ∧ Forall (typed1 h) (list_at h (Some l)).

Definition entry_typed (h : heap) (t : loc) : Prop := ∃ e, h !! t = Some (OEntry e).

Definition group_typed (h : heap) (g : loc) : Prop :=
  (∃ word titles count rest, h !! g = Some (OGroup word titles count rest))
  ∧ opt_typed (list_typed entry_typed) h (group_titles h g).

Definition report_typed (h : heap) (r : loc) : Prop :=
  (∃ stats new_titles total rest, h !! r = Some (OReport stats new_titles total rest))
  ∧ opt_typed (list_typed group_typed) h (report_stats h r)
  ∧ opt_typed (list_typed group_typed) h (report_new_titles h r).

(** The three arguments of [_apply_kept_ids] are of the annotated shape
    and none of them holds an object at two places. An object may still
    occur in two of the three: each is copied by a [deepcopy] of its own. *)
Definition unshared (h : heap) (report_data : loc) (rss_items rss_new_items : option loc)
    : Prop :=
  (report_typed h report_data ∧ NoDup (report_fp h report_data))
  ∧ (opt_typed (list_typed group_typed) h rss_items
     ∧ NoDup (opt_fp (list_fp group_fp) h rss_items))
  ∧ (opt_typed (list_typed group_typed) h rss_new_items
     ∧ NoDup (opt_fp (list_fp group_fp) h rss_new_items)).

(** Whether a store is of that kind can be computed. *)
#[global] Instance entry_typed_dec h t : base.Decision (entry_typed h t).
Proof.
  unfold entry_typed.
  destruct (h !! t) as [[e| | |]|]; [left; eauto | right; intros [? ?]; done..].
Defined.

#[global] Instance opt_typed_dec typed1 h ol :
  (∀ l, base.Decision (typed1 h l)) → base.Decision (opt_typed typed1 h ol).
Proof. intros Hdec. destruct ol as [l|]; [apply Hdec | left; exact I]. Defined.

#[global] Instance list_typed_dec typed1 h l :
  (∀ l, base.Decision (typed1 h l)) → base.Decision (list_typed typed1 h l).
Proof.
  intros Hdec. unfold list_typed. apply and_dec; [|apply Forall_dec, Hdec].
  destruct (h !! l) as [[| |rs|]|]; [|right; intros [? ?]; done|left; eauto|..];
    right; intros [? ?]; done.
Defined.

#[global] Instance group_typed_dec h g : base.Decision (group_typed h g).
Proof.
  unfold group_typed. apply and_dec; [|apply _].
  destruct (h !! g) as [[|w t c r| |]|]; [|left; eauto 10|..];
    right; intros (? & ? & ? & ? & ?); done.
Defined.

#[global] Instance report_typed_dec h r : base.Decision (report_typed h r).
Proof.
  unfold report_typed. apply and_dec; [|apply _].
  destruct (h !! r) as [[| | |st nt c rest]|]; [| | |left; eauto 10|];
    right; intros (? & ? & ? & ? & ?); done.
Defined.

#[global] Instance unshared_dec h report_data rss_items rss_new_items :
  base.Decision (unshared h report_data rss_items rss_new_items).
Proof. unfold unshared. apply _. Defined.

(** A kind of collection: its footprint, its shape and the value it
    stands for, from a root of type [R]. *)
Record shape (R V : Type) := Shape {
  fp : heap → R → list loc;
  typed : heap → R → Prop;
  value : heap → R → V }.
Arguments Shape {R V} _ _ _.
Arguments fp {R V} _ _ _.
Arguments typed {R V} _ _ _.
Arguments value {R V} _ _ _.

Definition entry_shape : shape loc entry := Shape entry_fp entry_typed entry_at.
Definition list_shape {V} (s : shape loc V) : shape loc (list V) :=
  Shape (list_fp (fp s)) (list_typed (typed s)) (λ h l, value s h <$> list_at h (Some l)).
Definition opt_shape {V} (s : shape loc V) : shape (option loc) (option V) :=
  Shape (opt_fp (fp s)) (opt_typed (typed s)) (λ h ol, value s h <$> ol).
Definition group_shape : shape loc group := Shape group_fp group_typed group_value.
Definition groups_shape : shape (option loc) (option (list group)) :=
  opt_shape (list_shape group_shape).
Definition report_shape : shape loc report := Shape report_fp report_typed report_value.

(** A shape reads the objects of its footprint only, and these exist. *)
Definition shape_ok {R V} (s : shape R V) : Prop :=
  (∀ h x l, typed s h x → l ∈ fp s h x → l ∈ dom h)
  ∧ ∀ h h' x, (∀ l, l ∈ fp s h x → h' !! l = h !! l) →
      fp s h' x = fp s h x ∧ value s h' x = value s h x ∧ (typed s h x → typed s h' x).

(** A copier of a shape: a collection none of whose objects is in the
    memo is copied to new objects that stand for the same value and
    share nothing; the memo changes at the objects copied only. *)
Definition copies {R V} (s : shape R V) (copy_one : R → state → R * state) : Prop :=
  ∀ x h m,
    typed s h x → NoDup (fp s h x) → (∀ l, l ∈ fp s h x → m !! l = None) →
    ∃ x' h' m',
      copy_one x (h, m) = (x', (h', m'))
      ∧ h ⊆ h' ∧ typed s h' x' ∧ NoDup (fp s h' x')
      ∧ (∀ l, l ∈ fp s h' x' → l ∉ dom h)
      ∧ value s h' x' = value s h x
      ∧ ∀ l, l ∉ fp s h x → m' !! l = m !! l.

(** From [h] to [h'] only objects of [S] and new objects were written. *)
Definition changes_within (h h' : heap) (S : list loc) : Prop :=
  dom h ⊆ dom h' ∧ ∀ l, l ∈ dom h → l ∉ S → h' !! l = h !! l.

End Store.

(** ** A scripted runtime for the worked examples

    The service answers every chunk with [reply]; [json.loads] is the
    table [parses] (any other text is a decode error); the conversions
    agree with Python on the ASCII texts the examples use. *)

Definition ascii_lower (s : pystr) : pystr :=
  (λ c, if (65 <=? c) && (c <=? 90) then c + 32 else c)%N <$> s.

Fixpoint table_lookup {A} (t : list (pystr * A)) (k : pystr) : option A :=
  match t with
  | [] => None
  | (k', v) :: t' => if bool_decide (k' = k) then Some v else table_lookup t' k
  end.

Definition JSONDecodeError : exn := Exn (py "JSONDecodeError") (py "Expecting value").

Definition scripted (reply : list candidate → result pystr)
    (parses : list (pystr * json)) : Runtime := {|
  chat := λ chunk _, reply chunk;
  json_loads := λ s, match table_lookup parses s with
                     | Some v => Ok v
                     | None => Raise JSONDecodeError
                     end;
  py_lower := ascii_lower;
  int_of_str := λ _, Raise (ValueError (py "invalid literal for int() with base 10"));
  int_of_float := λ _, Raise (ValueError (py "cannot convert float NaN to integer"));
  bool_of_float := λ _, true;
  py_repr := λ _, py "[]";
|}.

Definition obj (kvs : list (pystr * json)) : json := JObj (list_to_map kvs).
Definition titled (s : string) : entry :=
  Entry (Some (py s)) None None None None None ∅.
Definition report_of (stats : list group) : report := Report (Some stats) None None ∅.

(** ** The data of the worked examples *)

(** A JSON text, written with ['] for the double quote. *)
Definition json_text (s : string) : pystr := py_replace1 39 34 (py s).

Definition daily : pystr := py "daily".
Definition gate_on : AIQualityGate := Gate true (Some (py "sk-test")) 60 30 40.
Definition gate_off : AIQualityGate := Gate false None 60 30 40.
Definition gate_one_by_one : AIQualityGate := Gate true (Some (py "sk-test")) 60 30 1.
Definition gate_by_two : AIQualityGate := Gate true (Some (py "sk-test")) 60 30 2.
Definition gate_cap_1 : AIQualityGate := Gate true (Some (py "sk-test")) 60 1 40.

(** One keyword group with the titles "A" and "B"; the same with a third
    title "C"; and with a blank title between "A" and "B". *)
Definition two_titles : report :=
  report_of [Group (Some (py "AI")) (Some [titled "A"; titled "B"]) (Some 2) ∅].
Definition three_titles : report :=
  report_of [Group (Some (py "AI")) (Some [titled "A"; titled "B"; titled "C"]) (Some 3) ∅].
Definition with_blank : report :=
  report_of [Group (Some (py "AI"))
               (Some [titled "A";
                      Entry (Some (py "  ")) None None None None None ∅;
                      titled "B"]) (Some 3) ∅].


(** The service keeps "A" with a brief and drops "B". *)
Definition answer_AB : pystr :=
  json_text "[{'id':'hot_stats:0:0','keep':true,'score':80,'brief':'X'},{'id':'hot_stats:0:1','keep':false,'score':30}]".
Definition parsed_AB : json :=
  JArr [obj [(py "id", JStr (py "hot_stats:0:0")); (py "keep", JBool true);
             (py "score", JInt 80); (py "brief", JStr (py "X"))];
        obj [(py "id", JStr (py "hot_stats:0:1")); (py "keep", JBool false);
             (py "score", JInt 30)]].
Definition service_AB : Runtime := scripted (λ _, Ok answer_AB) [(answer_AB, parsed_AB)].

(** The decisions of that answer, as the merger reads them. *)
Definition decisions_AB : gmap pystr decision :=
  <[py "hot_stats:0:1" := Decision false 30 [] []]>
    (<[py "hot_stats:0:0" := Decision true 80 [] (py "X")]> ∅).

(** A service that answers the chunk starting with "A" and times out on
    any other. *)
Definition service_timeout : Runtime :=
  scripted (λ chunk, match chunk with
                     | c :: _ => if bool_decide (c_id c = py "hot_stats:0:0")
                                 then Ok answer_AB
                                 else Raise (Exn (py "TimeoutError") (py "timed out"))
                     | [] => Ok answer_AB
                     end)
           [(answer_AB, parsed_AB)].

(** A service that answers about [hot_stats:0:1], whatever it was sent. *)
Definition answer_beyond : pystr :=
  json_text "[{'id':'hot_stats:0:1','keep':false,'score':0}]".
Definition service_beyond : Runtime :=
  scripted (λ _, Ok answer_beyond)
    [(answer_beyond,
      JArr [obj [(py "id", JStr (py "hot_stats:0:1")); (py "keep", JBool false);
                 (py "score", JInt 0)]])].

(** A service that drops the second title of the first source. *)
Definition answer_new : pystr :=
  json_text "[{'id':'hot_new:0:1','keep':false,'score':0}]".
Definition service_new : Runtime :=
  scripted (λ _, Ok answer_new)
    [(answer_new,
      JArr [obj [(py "id", JStr (py "hot_new:0:1")); (py "keep", JBool false);
                 (py "score", JInt 0)]])].

(** A service that answers with an array of numbers. *)
Definition answer_numbers : pystr := py "[1, 2]".
Definition service_numbers : Runtime :=
  scripted (λ _, Ok answer_numbers) [(answer_numbers, JArr [JInt 1; JInt 2])].

(** A brief of 95 characters with a line feed and a carriage return in
    it, and the answer that carries it (escaped, as JSON writes it). *)
Definition long_brief : pystr :=
  replicate 30 97%N ++ [10%N] ++ replicate 30 98%N ++ [13%N] ++ replicate 33 99%N.
Definition answer_long : pystr :=
  json_text "[{'id':'hot_stats:0:0','keep':true,'score':80,'brief':'"
  ++ replicate 30 97%N ++ py "\n" ++ replicate 30 98%N ++ py "\r" ++ replicate 33 99%N
  ++ json_text "'}]".
Definition service_long : Runtime :=
  scripted (λ _, Ok answer_long)
    [(answer_long,
      JArr [obj [(py "id", JStr (py "hot_stats:0:0")); (py "keep", JBool true);
                 (py "score", JInt 80); (py "brief", JStr long_brief)]])].

(** A service that answers every chunk with the empty array. *)
Definition answer_empty : pystr := py "[]".
Definition service_empty : Runtime := scripted (λ _, Ok answer_empty) [(answer_empty, JArr [])].

(** The gate of the examples with the threshold raised to 90. *)
Definition gate_strict : AIQualityGate := Gate true (Some (py "sk-test")) 90 30 40.

(** The store of [two_titles]: the entries at 1 and 2, their list at 3, the
    group at 4, the list of groups at 5 and the report at 6. *)
Definition store_two_titles : gmap nat Store.obj :=
  list_to_map
    [(1%nat, Store.OEntry (titled "A")); (2%nat, Store.OEntry (titled "B"));
     (3%nat, Store.OList [1%nat; 2%nat]);
     (4%nat, Store.OGroup (Some (py "AI")) (Some 3%nat) (Some 2) ∅);
     (5%nat, Store.OList [4%nat]);
     (6%nat, Store.OReport (Some 5%nat) None None ∅)].

(** The store of [two_titles] with the group at 4 twice in the list of
    groups: one dictionary at two places. *)
Definition store_shared_group : gmap nat Store.obj :=
  <[5%nat := Store.OList [4%nat; 4%nat]]> store_two_titles.

(** The ids kept on it when the service keeps "A" of the first group,
    drops "B" of the first group and says nothing of the second group. *)
Definition keep_shared_group : gset pystr :=
  list_to_set [mk_id hot_stats 0 0; mk_id hot_stats 1 0; mk_id hot_stats 1 1].

(** The store of [two_titles] with the group at 4 also the one source of
    [new_titles], in a list at 7. *)
Definition store_shared_sections : gmap nat Store.obj :=
  <[7%nat := Store.OList [4%nat]]>
    (<[6%nat := Store.OReport (Some 5%nat) (Some 7%nat) None ∅]> store_two_titles).

(** ** What the properties below speak about *)

(** The entries of group [gi] whose positional id is kept, with their
    indices, in the order of the group. *)
Definition surviving (section : pystr) (keep_ids : gset pystr) (gi : nat) (g : group)
    : list (nat * entry) :=
  filter (λ p, mk_id section gi p.1 ∈ keep_ids) (enumerate (titles_of g)).

(** [output] is [input] rewritten: its groups are, in order, the groups of
    [input] with a surviving entry, each holding exactly its surviving
    entries (annotated) in their original order. *)
Definition rewritten (section : pystr) (keep_ids : gset pystr)
    (decisions : gmap pystr decision) (input output : list group) : Prop :=
  Forall2
    (λ g' p,
       titles_of g' =
         (λ q, annotate decisions (mk_id section p.1 q.1) q.2)
           <$> surviving section keep_ids p.1 p.2
       ∧ g_word g' = g_word p.2 ∧ g_rest g' = g_rest p.2)
    output
    (filter (λ p, surviving section keep_ids p.1 p.2 ≠ []) (enumerate input)).

(** The title an entry is collected under; blank when this is empty. *)
Definition stripped_title (t : entry) : pystr := py_strip (str_or (e_title t) []).

(** The chunks the loop of [_judge_in_batches] forms for batch size [B]. *)
Definition batches (B : nat) (items : list candidate) : list (list candidate) :=
  (λ start, slice items start (start + B)) <$> py_range 0 (length items) B.

(** What one call of [_judge_batch] on [chunk] returns or raises. *)
Definition batch_outcome `{Runtime} (chunk : list candidate) (mode : pystr)
    : result (gmap pystr decision) :=
  (_judge_batch chunk mode []).2.

(** The decision map of a chunk whose call returned. *)
Definition chunk_map `{Runtime} (mode : pystr) (chunk : list candidate)
    : gmap pystr decision :=
  match batch_outcome chunk mode with
  | Ok m => m
  | Raise _ => ∅
  end.

(** [decisions.update(m)] for each map of [maps] in turn: a later map
    overrides an earlier one on a shared id. *)
Definition update_all (maps : list (gmap pystr decision)) : gmap pystr decision :=
  ⋃ reverse maps.


(** What a row of the response array contributes: nothing when it is not
    an object or its id is missing or blank after trimming; otherwise its id
    and its decision, or the exception its score raises. *)
Definition row_entry `{Runtime} (row : json) : option (pystr * result decision) :=
  match row with
  | JObj o =>
      match py_strip (py_str (py_get o (py "id") (JStr []))) with
      | [] => None
      | rid =>
          Some (rid,
                match py_int (py_or (py_get o (py "score") (JInt 0)) (JInt 0)) with
                | Raise e => Raise e
                | Ok score =>
                    Ok (Decision (py_truthy (py_get o (py "keep") (JBool false))) score
                          (py_strip (py_str (py_get o (py "reason") (JStr []))))
                          (normalize_brief (py_str (py_get o (py "brief") (JStr [])))))
                end)
      end
  | _ => None
  end.

(** A stored [brief] is clean: no line feed, no carriage return, at most
    80 characters. *)
Definition brief_ok (b : pystr) : Prop :=
  (10%N ∉ b) ∧ (13%N ∉ b) ∧ (length b ≤ 80)%nat.

(** A text that runs from an opening to a closing bracket. *)
Definition bracketed (s : pystr) : Prop :=
  (∃ body, s = 91%N :: body ++ [93%N]) ∨ (∃ body, s = 123%N :: body ++ [125%N]).

(** The text [_safe_json_extract] searches for brackets: the response
    trimmed and, when it then starts with a code fence, without the
    backticks at its two ends, trimmed again, and without its first line
    when this is a language tag. *)
Definition unfenced `{Runtime} (text : pystr) : pystr :=
  let s := py_strip text in
  if py_startswith (py "```") s then
    let s := py_strip (py_strip_chars (py "`") s) in
    match py_splitlines s with
    | l0 :: rest =>
        if is_lang_tag (py_lower (py_strip l0))
        then py_strip (py_join [10%N] rest)
        else s
    | [] => s
    end
  else s.

(** [e] is what runs in [s] from the first [opening] to the last
    [closing]: before it there is no [opening], after it no [closing]. *)
Definition cut_of (opening closing : N) (s e : pystr) : Prop :=
  ∃ pre body post,
    s = pre ++ e ++ post ∧ e = opening :: body ++ [closing]
    ∧ (opening ∉ pre) ∧ (closing ∉ post).

(** What is extracted from the searched text [s]: what runs from the
    first [[] to the last []]; when no [[] stands before a []], what runs
    from the first [{] to the last [}]; nothing when no [{] stands before
    a [}] either. *)
Definition extraction_of (s : pystr) (answer : option pystr) : Prop :=
  match answer with
  | Some e =>
      cut_of 91 93 s e ∨ ((∀ e', ¬ cut_of 91 93 s e') ∧ cut_of 123 125 s e)
  | None => (∀ e, ¬ cut_of 91 93 s e) ∧ (∀ e, ¬ cut_of 123 125 s e)
  end.

(** The four prefixes under which ids are made. *)
Definition is_section (s : pystr) : Prop :=
  s = hot_stats ∨ s = hot_new ∨ s = rss_stats ∨ s = rss_new.

(** One step of the rewriter's outer loop, as a partial function. *)
Definition rewrite_group (section : pystr) (counted : bool) (keep_ids : gset pystr)
    (decisions : gmap pystr decision) (p : nat * group) : option group :=
  match keep_titles section keep_ids decisions p.1 (titles_of p.2) with
  | [] => None
  | kept_titles =>
      let g := set_titles p.2 kept_titles in
      Some (if counted then set_count g (Z.of_nat (length kept_titles)) else g)
  end.

(** Whether the merger keeps an id, given what the decision map holds. *)
Definition passes (self : AIQualityGate) (od : option decision) : Prop :=
  match od with
  | None => True
  | Some d => d_keep d = true ∧ min_score self ≤ d_score d
  end.

(** The candidate an entry is collected as, if its title is not blank. *)
Definition candidate_at (section grp : pystr) (gi : nat) (p : nat * entry)
    : option candidate :=
  match stripped_title p.2 with
  | [] => None
  | title =>
      Some (Candidate (mk_id section gi p.1) title
              (py_strip (str_or (e_source_name p.2) [])) grp section
              (py_strip (str_or (e_mobileUrl p.2)
                           (str_or (e_mobile_url p.2) (str_or (e_url p.2) [])))))
  end.

Definition group_name (named : bool) (g : group) : pystr :=
  if named then py_strip (str_or (g_word g) []) else [].

(** The four collections with the prefix of their ids. *)
Definition sections (report_data : report) (rss_items rss_new_items : option (list group))
    : list (pystr * bool * list group) :=
  [(hot_stats, true, default [] (r_stats report_data));
   (hot_new, false, default [] (r_new_titles report_data));
   (rss_stats, true, default [] rss_items);
   (rss_new, true, default [] rss_new_items)].

(** What the collector keeps true of the candidates and pointers built
    so far: every candidate has a pointer, and every pointer is that of a
    candidate and holds what its id is made of. *)
Definition pointers_cover (acc : list candidate * gmap pystr pointer) : Prop :=
  (∀ c, c ∈ acc.1 → is_Some (acc.2 !! c_id c))
  ∧ ∀ id p, acc.2 !! id = Some p →
      id = mk_id (p_section p) (p_gi p) (p_ti p)
      ∧ is_section (p_section p) ∧ id ∈ c_id <$> acc.1.

(** The batch size the loop of [_judge_in_batches] runs with. *)
Definition effective_batch_size (self : AIQualityGate) (items : list candidate) : nat :=
  if negb (batch_size self =? 0) && (batch_size self >? 0)
  then Z.to_nat (batch_size self) else length items.

(** * The settings of the gate

    [trendradar/core/loader.py] reads the settings of the gate from the
    environment and from the parsed configuration file, and
    [AIQualityGate.__init__] turns them into the attributes the gate runs
    with. [os.environ] is a map from names to texts; a parsed YAML value
    is a [json]. *)

#[global] Instance result_ret : MRet result := @Ok.
#[global] Instance result_bind : MBind result :=
  λ A B k r, match r with Ok a => k a | Raise e => Raise e end.

(** The text of a variable, trimmed; empty when the variable is not
    set. *)
Definition env_text (environ : gmap pystr pystr) (key : pystr) : pystr :=
  py_strip (default [] (environ !! key)).

Definition _get_env_bool `{Runtime} (environ : gmap pystr pystr) (key : pystr)
    : option bool :=
  let value := py_lower (env_text environ key) in
  match value with
  | [] => None
  | _ => Some (bool_decide (value = py "true") || bool_decide (value = py "1"))
  end.

Definition _get_env_int `{Runtime} (environ : gmap pystr pystr) (key : pystr)
    (default : Z) : result Z :=
  let value := env_text environ key in
  match value with
  | [] => Ok default
  | _ =>
      match int_of_str value with
      | Ok z => Ok z
      | Raise e =>
          (* except ValueError *)
          if bool_decide (exn_type e = py "ValueError") then Ok default else Raise e
      end
  end.

Definition _get_env_str (environ : gmap pystr pystr) (key : pystr) (default : pystr)
    : pystr :=
  match env_text environ key with
  | [] => default
  | value => value
  end.

(** [d.get(key, dflt)] on a parsed value: only a mapping has [get]. *)
Definition AttributeError (attr : string) : exn :=
  Exn (py "AttributeError") (py "object has no attribute " ++ py attr).

Definition dict_get (d : json) (key : string) (dflt : json) : result json :=
  match d with
  | JObj o => Ok (py_get o (py key) dflt)
  | _ => Raise (AttributeError "get")
  end.

(** The three shapes of an entry of the dictionary
    [_load_quality_gate_config] returns:
    [env if env is not None else gate_config.get(key, dflt)],
    [_get_env_str(name) or gate_config.get(key, dflt)] and
    [_get_env_int(name) or gate_config.get(key, dflt)]. The configuration
    file is read only when the environment does not decide. *)
Definition bool_entry `{Runtime} (environ : gmap pystr pystr) (name : string)
    (gate_config : json) (key : string) (dflt : bool) : result json :=
  match _get_env_bool environ (py name) with
  | Some b => Ok (JBool b)
  | None => dict_get gate_config key (JBool dflt)
  end.

Definition str_entry (environ : gmap pystr pystr) (name : string)
    (gate_config : json) (key : string) (dflt : string) : result json :=
  match _get_env_str environ (py name) [] with
  | [] => dict_get gate_config key (JStr (py dflt))
  | value => Ok (JStr value)
  end.

Definition int_entry `{Runtime} (environ : gmap pystr pystr) (name : string)
    (gate_config : json) (key : string) (dflt : Z) : result json :=
  z ← _get_env_int environ (py name) 0;
  if z =? 0 then dict_get gate_config key (JInt dflt) else Ok (JInt z).

Definition _load_quality_gate_config `{Runtime} (environ : gmap pystr pystr)
    (config_data : gmap pystr json) : result (gmap pystr json) :=
  let gate_config := py_get config_data (py "quality_gate") (JObj ∅) in
  ENABLED ← bool_entry environ "QUALITY_GATE_ENABLED" gate_config "enabled" false;
  MODEL ← str_entry environ "QUALITY_GATE_MODEL" gate_config "model"
            "gemini-3-flash-preview";
  MIN_SCORE ← int_entry environ "QUALITY_GATE_MIN_SCORE" gate_config "min_score" 60;
  MAX_ITEMS ← int_entry environ "QUALITY_GATE_MAX_ITEMS" gate_config "max_items" 30;
  BATCH_SIZE ← int_entry environ "QUALITY_GATE_BATCH_SIZE" gate_config "batch_size" 40;
  TIMEOUT ← int_entry environ "QUALITY_GATE_TIMEOUT" gate_config "timeout" 30;
  MAX_TOKENS ← int_entry environ "QUALITY_GATE_MAX_TOKENS" gate_config "max_tokens" 900;
  REASONING_EFFORT ← str_entry environ "QUALITY_GATE_REASONING_EFFORT" gate_config
                       "reasoning_effort" "low";
  USE_CONTENT ← bool_entry environ "QUALITY_GATE_USE_CONTENT" gate_config
                  "use_content" false;
  CONTENT_FETCH_TIMEOUT ← int_entry environ "QUALITY_GATE_CONTENT_FETCH_TIMEOUT"
                            gate_config "content_fetch_timeout" 10;
  CONTENT_FETCH_CONCURRENCY ← int_entry environ "QUALITY_GATE_CONTENT_FETCH_CONCURRENCY"
                                gate_config "content_fetch_concurrency" 6;
  MAX_CONTENT_CHARS ← int_entry environ "QUALITY_GATE_MAX_CONTENT_CHARS" gate_config
                        "max_content_chars" 4000;
  BRIEF_PROMPT_FILE ← str_entry environ "QUALITY_GATE_BRIEF_PROMPT_FILE" gate_config
                        "brief_prompt_file" "quality_gate_brief_prompt.txt";
  DEBUG ← bool_entry environ "QUALITY_GATE_DEBUG" gate_config "debug" false;
  Ok (list_to_map
        [(py "ENABLED", ENABLED); (py "MODEL", MODEL); (py "MIN_SCORE", MIN_SCORE);
         (py "MAX_ITEMS", MAX_ITEMS); (py "BATCH_SIZE", BATCH_SIZE);
         (py "TIMEOUT", TIMEOUT); (py "MAX_TOKENS", MAX_TOKENS);
         (py "REASONING_EFFORT", REASONING_EFFORT); (py "USE_CONTENT", USE_CONTENT);
         (py "CONTENT_FETCH_TIMEOUT", CONTENT_FETCH_TIMEOUT);
         (py "CONTENT_FETCH_CONCURRENCY", CONTENT_FETCH_CONCURRENCY);
         (py "MAX_CONTENT_CHARS", MAX_CONTENT_CHARS);
         (py "BRIEF_PROMPT_FILE", BRIEF_PROMPT_FILE); (py "DEBUG", DEBUG)]).

(** [int(self.gate_config.get(key, dflt) or dflt)]. *)
Definition int_setting `{Runtime} (gate_config : gmap pystr json) (key : string)
    (dflt : Z) : result Z :=
  py_int (py_or (py_get gate_config (py key) (JInt dflt)) (JInt dflt)).

(** [(self.gate_config.get(key) or dflt).strip()]. *)
Definition str_setting `{Runtime} (gate_config : gmap pystr json) (key : string)
    (dflt : string) : result pystr :=
  match py_or (py_get gate_config (py key) JNull) (JStr (py dflt)) with
  | JStr s => Ok (py_strip s)
  | _ => Raise (AttributeError "strip")
  end.

(** [AIQualityGate.__init__]. Of [ai_config] the gate reads the key
    [API_KEY] only. The attributes that only shape the request to the
    service are computed, since a setting that does not convert makes
    the constructor raise, and are not kept; [_load_brief_prompt] reads a
    file and catches every exception. *)
Definition __init__ `{Runtime} (ai_config_API_KEY : option pystr)
    (gate_config : option (gmap pystr json)) : result AIQualityGate :=
  let gate_config := default ∅ gate_config in
  let enabled := py_truthy (py_get gate_config (py "ENABLED") (JBool false)) in
  model ← str_setting gate_config "MODEL" "gemini-3-flash-preview";
  min_score ← int_setting gate_config "MIN_SCORE" 60;
  max_items ← int_setting gate_config "MAX_ITEMS" 30;
  batch_size ← int_setting gate_config "BATCH_SIZE" 40;
  timeout ← int_setting gate_config "TIMEOUT" 30;
  max_tokens ← int_setting gate_config "MAX_TOKENS" 900;
  reasoning_effort ← str_setting gate_config "REASONING_EFFORT" "low";
  content_fetch_timeout ← int_setting gate_config "CONTENT_FETCH_TIMEOUT" 10;
  content_fetch_concurrency ← int_setting gate_config "CONTENT_FETCH_CONCURRENCY" 6;
  max_content_chars ← int_setting gate_config "MAX_CONTENT_CHARS" 4000;
  brief_prompt_file ← str_setting gate_config "BRIEF_PROMPT_FILE"
                        "quality_gate_brief_prompt.txt";
  Ok (Gate enabled ai_config_API_KEY min_score max_items batch_size).

(** A setting written as an integer, a truth value or nothing. *)
Definition plain_setting (v : option json) : Prop :=
  match v with
  | None | Some JNull | Some (JInt _) | Some (JBool _) => True
  | Some _ => False
  end.

(** * Fetching the text of a page

    [fetch_url_text] of [trendradar/utils/content_fetch.py], which
    [_judge_batch] calls for each candidate when [USE_CONTENT] is set.
    The request and the regular expressions of [_strip_html] are not
    modelled: [requests_get url timeout] is the status code and the text
    of the response, or the exception [requests.get] raised, and
    [_strip_html] is the text left of a page. *)
Class Web := {
  requests_get : pystr → Z → result (Z * pystr);
  _strip_html : pystr → pystr;
}.

Definition fetch_url_text `{Web} (url : pystr) (timeout max_chars : Z) : option pystr :=
  match url with
  | [] => None
  | _ =>
      match requests_get url timeout with
      | Raise _ => None
      | Ok (status_code, text) =>
          if status_code >=? 400 then None else
          let cleaned := _strip_html text in
          match cleaned with
          | [] => None
          | _ =>
              if (length cleaned <? 200)%nat then None else
              Some (if negb (max_chars =? 0) && (max_chars >? 0)
                    then take (Z.to_nat max_chars) cleaned
                    else cleaned)
          end
      end
  end.

(** ** What the further properties speak about *)

(** The test [l != -1 and r != -1 and r > l] of [_safe_json_extract] for
    an opening and a closing bracket. *)
Definition cut_found (opening closing : N) (s : pystr) : bool :=
  let l := py_find opening s in
  let r := py_rfind closing s in
  negb (l =? -1) && negb (r =? -1) && (r >? l).

(** ** The data of the further examples *)

(** An answer wrapped in a code fence. *)
Definition answer_fenced : pystr :=
  py "```json" ++ [10%N] ++ answer_numbers ++ [10%N] ++ py "```".

(** A runtime whose [int] reads the text 5, and an environment that
    enables the gate and caps it at 5 items, over a configuration file
    that disables it and caps it at 0. *)
Definition runtime_five : Runtime := {|
  chat := λ _ _, Ok answer_empty;
  json_loads := λ _, Raise JSONDecodeError;
  py_lower := ascii_lower;
  int_of_str := λ s, if bool_decide (s = py "5") then Ok 5
                     else Raise (ValueError (py "invalid literal for int() with base 10"));
  int_of_float := λ _, Raise (ValueError (py "cannot convert float NaN to integer"));
  bool_of_float := λ _, true;
  py_repr := λ _, py "[]";
|}.
Definition environ_five : gmap pystr pystr :=
  <[py "QUALITY_GATE_ENABLED" := py " TRUE "]>
    (<[py "QUALITY_GATE_MAX_ITEMS" := py "5"]> ∅).
Definition gate_yaml : gmap pystr json :=
  <[py "enabled" := JBool false]> (<[py "max_items" := JInt 0]> ∅).
Definition config_five : gmap pystr json := <[py "quality_gate" := JObj gate_yaml]> ∅.

(** What the loader makes of them, and the gate built from that. *)
Definition loaded_five : gmap pystr json :=
  list_to_map
    [(py "ENABLED", JBool true); (py "MODEL", JStr (py "gemini-3-flash-preview"));
     (py "MIN_SCORE", JInt 60); (py "MAX_ITEMS", JInt 5); (py "BATCH_SIZE", JInt 40);
     (py "TIMEOUT", JInt 30); (py "MAX_TOKENS", JInt 900);
     (py "REASONING_EFFORT", JStr (py "low")); (py "USE_CONTENT", JBool false);
     (py "CONTENT_FETCH_TIMEOUT", JInt 10); (py "CONTENT_FETCH_CONCURRENCY", JInt 6);
     (py "MAX_CONTENT_CHARS", JInt 4000);
     (py "BRIEF_PROMPT_FILE", JStr (py "quality_gate_brief_prompt.txt"));
     (py "DEBUG", JBool false)].
Definition gate_five : AIQualityGate := Gate true (Some (py "sk-test")) 60 5 40.

(** A dictionary of settings with [MAX_ITEMS] at 0. *)
Definition settings_zero : gmap pystr json :=
  <[py "ENABLED" := JBool true]> (<[py "MAX_ITEMS" := JInt 0]> ∅).

(** A page of 300 characters. *)
Definition web_page : Web := {|
  requests_get := λ _ _, Ok (200, replicate 300 97%N);
  _strip_html := λ html, html;
|}.

(** * Properties *)

(** ** Strings and ids *)

Lemma py_inj (s1 s2 : string) : py s1 = py s2 → s1 = s2.
Proof.
  unfold py. intros Heq.
  rewrite <- (string_of_list_ascii_of_string s1), <- (string_of_list_ascii_of_string s2).
  f_equal. revert Heq. generalize (list_ascii_of_string s2).
  induction (list_ascii_of_string s1) as [|a l IH]; intros [|b k]; simpl; try done.
  intros [= Hab Hlk]. f_equal; [|by apply IH].
  by rewrite <- (ascii_N_embedding a), <- (ascii_N_embedding b), Hab.
Qed.

Lemma py_dec_inj (n m : nat) : py_dec n = py_dec m → n = m.
Proof.
  unfold py_dec. intros Heq. apply py_inj in Heq.
  assert (Hu : Nat.to_uint n = Nat.to_uint m).
  { apply (inj Some). by rewrite <- !NilEmpty.usu, Heq. }
  by rewrite <- (Unsigned.of_to n), <- (Unsigned.of_to m), Hu.
Qed.

Lemma py_dec_digits (n : nat) : Forall (λ c, (48 ≤ c ≤ 57)%N) (py_dec n).
Proof.
  unfold py_dec. induction (Nat.to_uint n) as [|d IH|d IH|d IH|d IH|d IH|d IH|d IH|d IH|d IH|d IH];
    simpl; [constructor|..]; (constructor; [simpl; lia | exact IH]).
Qed.

Lemma py_dec_no_colon (n : nat) : 58%N ∉ py_dec n.
Proof.
  intros Hin. pose proof (py_dec_digits n) as Hd.
  rewrite Forall_forall in Hd. apply Hd in Hin. lia.
Qed.

(** Two texts cut at their first colon agree on both sides of it. *)
Lemma cut_at_colon (a a' b b' : pystr) :
  58%N ∉ a → 58%N ∉ a' → a ++ 58%N :: b = a' ++ 58%N :: b' → a = a' ∧ b = b'.
Proof.
  revert a'. induction a as [|x a IH]; intros [|x' a'] Ha Ha'; simpl.
  - intros [= ->]. done.
  - intros [= <- _]. exfalso. apply Ha'. left.
  - intros [= -> _]. exfalso. apply Ha. left.
  - intros [= -> Heq]. apply IH in Heq as [-> ->]; [done| |].
    + intros ?. apply Ha. by right.
    + intros ?. apply Ha'. by right.
Qed.

Lemma section_no_colon (s : pystr) : is_section s → 58%N ∉ s.
Proof.
  intros [-> | [-> | [-> | ->]]]; vm_compute; intros Hin;
    repeat (apply elem_of_cons in Hin as [Hin|Hin]; [done|]);
    by apply elem_of_nil in Hin.
Qed.

(** Ids never collide, within a section or across sections. *)
Lemma mk_id_inj (s s' : pystr) (gi gi' ti ti' : nat) :
  is_section s → is_section s' →
  mk_id s gi ti = mk_id s' gi' ti' → s = s' ∧ gi = gi' ∧ ti = ti'.
Proof.
  intros Hs Hs'. unfold mk_id. change (py ":") with [58%N]. simpl.
  intros Heq. apply cut_at_colon in Heq as [-> Heq]; try by apply section_no_colon.
  apply cut_at_colon in Heq as [Hg Ht]; try apply py_dec_no_colon.
  apply py_dec_inj in Hg, Ht. done.
Qed.

Lemma lstrip_with_suffix p s : lstrip_with p s `suffix_of` s.
Proof.
  induction s as [|c s IH]; simpl; [done|].
  destruct (p c); [by apply suffix_cons_r | done].
Qed.

Lemma lstrip_with_length p s : (length (lstrip_with p s) ≤ length s)%nat.
Proof. apply suffix_length, lstrip_with_suffix. Qed.

Lemma lstrip_with_Forall (P : N → Prop) p s : Forall P s → Forall P (lstrip_with p s).
Proof.
  intros Hs. destruct (lstrip_with_suffix p s) as [k Hk].
  rewrite Hk in Hs. by apply Forall_app in Hs as [_ ?].
Qed.

Lemma rstrip_with_length p s : (length (rstrip_with p s) ≤ length s)%nat.
Proof.
  unfold rstrip_with. rewrite length_reverse.
  etrans; [apply lstrip_with_length|]. by rewrite length_reverse.
Qed.

Lemma rstrip_with_Forall (P : N → Prop) p s : Forall P s → Forall P (rstrip_with p s).
Proof.
  intros Hs. unfold rstrip_with.
  apply Forall_reverse, lstrip_with_Forall, Forall_reverse. done.
Qed.

Lemma strip_with_length p s : (length (strip_with p s) ≤ length s)%nat.
Proof.
  unfold strip_with. etrans; [apply rstrip_with_length | apply lstrip_with_length].
Qed.

Lemma strip_with_Forall (P : N → Prop) p s : Forall P s → Forall P (strip_with p s).
Proof. intros Hs. by apply rstrip_with_Forall, lstrip_with_Forall. Qed.

Lemma lstrip_with_head p s c s' : lstrip_with p s = c :: s' → p c = false.
Proof.
  induction s as [|x s IH]; simpl; [done|].
  destruct (p x) eqn:Hx; [done|]. by intros [= <- _].
Qed.

(** ** Loops over [enumerate] *)

Lemma enumerate_from_lookup {A} (l : list A) i k x :
  enumerate_from i l !! k = Some x ↔ x.1 = (i + k)%nat ∧ l !! k = Some x.2.
Proof.
  revert i k. induction l as [|a l IH]; intros i k; simpl.
  - rewrite lookup_nil. split; [done | by intros [_ ?]].
  - destruct k as [|k]; simpl.
    + destruct x as [j y]; simpl. rewrite Nat.add_0_r.
      split; [intros [= <- <-]; done | intros [-> [= ->]]; done].
    + rewrite IH. replace (S i + k)%nat with (i + S k)%nat by lia. done.
Qed.

Lemma enumerate_lookup {A} (l : list A) k x :
  enumerate l !! k = Some x ↔ x.1 = k ∧ l !! k = Some x.2.
Proof. unfold enumerate. by rewrite enumerate_from_lookup. Qed.

Lemma elem_of_enumerate {A} (l : list A) i x :
  (i, x) ∈ enumerate l ↔ l !! i = Some x.
Proof.
  rewrite list_elem_of_lookup. split.
  - intros [k Hk]. apply enumerate_lookup in Hk as [<- ?]. done.
  - intros Hi. exists i. by apply enumerate_lookup.
Qed.

Lemma elem_of_concat {A} (x : A) (ls : list (list A)) :
  x ∈ concat ls ↔ ∃ l, x ∈ l ∧ l ∈ ls.
Proof.
  induction ls as [|l ls IH]; simpl.
  - split; [by intros ?%elem_of_nil | by intros (? & _ & ?%elem_of_nil)].
  - rewrite elem_of_app, IH. split.
    + intros [?|(l' & ? & ?)]; [exists l | exists l']; split; try done; by constructor.
    + intros (l' & Hx & [->|?]%elem_of_cons); [by left | right; eauto].
Qed.

Lemma enumerate_from_snd {A} (l : list A) i : (enumerate_from i l).*2 = l.
Proof. revert i. induction l as [|a l IH]; intros i; simpl; [done | by rewrite IH]. Qed.

Lemma keep_titles_filter section keep_ids decisions gi titles :
  keep_titles section keep_ids decisions gi titles =
    (λ q, annotate decisions (mk_id section gi q.1) q.2)
      <$> filter (λ p, mk_id section gi p.1 ∈ keep_ids) (enumerate titles).
Proof.
  unfold keep_titles, enumerate.
  enough (∀ i acc,
    foldl (λ kept_titles '(ti, t),
             if bool_decide (mk_id section gi ti ∈ keep_ids)
             then kept_titles ++ [annotate decisions (mk_id section gi ti) t]
             else kept_titles) acc (enumerate_from i titles)
    = acc ++ ((λ q, annotate decisions (mk_id section gi q.1) q.2)
                <$> filter (λ p, mk_id section gi p.1 ∈ keep_ids) (enumerate_from i titles)))
    as Hgen by apply (Hgen 0%nat []).
  induction titles as [|t titles IH]; intros i acc; simpl.
  - by rewrite app_nil_r.
  - rewrite IH, filter_cons. simpl. case_bool_decide as Hin.
    + rewrite decide_True by done. simpl. by rewrite <- app_assoc.
    + by rewrite decide_False by done.
Qed.

Lemma rewrite_groups_omap section counted keep_ids decisions groups :
  rewrite_groups section counted keep_ids decisions groups =
    omap (rewrite_group section counted keep_ids decisions) (enumerate groups).
Proof.
  unfold rewrite_groups, enumerate.
  enough (∀ i acc,
    foldl (λ new_groups '(gi, g),
      match keep_titles section keep_ids decisions gi (titles_of g) with
      | [] => new_groups
      | _ :: _ =>
          new_groups ++
            [if counted
             then set_count (set_titles g (keep_titles section keep_ids decisions gi (titles_of g)))
                    (Z.of_nat (length (keep_titles section keep_ids decisions gi (titles_of g))))
             else set_titles g (keep_titles section keep_ids decisions gi (titles_of g))]
      end) acc (enumerate_from i groups)
    = acc ++ omap (rewrite_group section counted keep_ids decisions) (enumerate_from i groups))
    as Hgen by apply (Hgen 0%nat []).
  induction groups as [|g groups IH]; intros i acc; simpl.
  - by rewrite app_nil_r.
  - rewrite IH. unfold rewrite_group at 2. simpl.
    destruct (keep_titles section keep_ids decisions i (titles_of g)); simpl; [done|].
    by rewrite <- app_assoc.
Qed.

Lemma rewrite_group_titles section counted keep_ids decisions p g' :
  rewrite_group section counted keep_ids decisions p = Some g' →
  titles_of g' = keep_titles section keep_ids decisions p.1 (titles_of p.2)
  ∧ titles_of g' ≠ []
  ∧ g_word g' = g_word p.2 ∧ g_rest g' = g_rest p.2
  ∧ (counted = true → g_count g' = Some (Z.of_nat (length (titles_of g'))))
  ∧ (counted = false → g_count g' = g_count p.2).
Proof.
  unfold rewrite_group.
  destruct (keep_titles section keep_ids decisions p.1 (titles_of p.2)) as [|t ts] eqn:Hk;
    [done|].
  intros [= <-]. destruct counted; simpl; repeat split; done.
Qed.

Lemma rewrite_group_None section counted keep_ids decisions p :
  rewrite_group section counted keep_ids decisions p = None ↔
  surviving section keep_ids p.1 p.2 = [].
Proof.
  unfold rewrite_group, surviving. rewrite keep_titles_filter.
  destruct (filter _ _) as [|q l]; simpl; [done|]. split; done.
Qed.

Lemma rewrite_groups_rewritten section counted keep_ids decisions groups :
  rewritten section keep_ids decisions groups
    (rewrite_groups section counted keep_ids decisions groups).
Proof.
  unfold rewritten. rewrite rewrite_groups_omap.
  induction (enumerate groups) as [|p l IH]; simpl.
  - rewrite filter_nil. constructor.
  - rewrite filter_cons.
    destruct (rewrite_group section counted keep_ids decisions p) as [g'|] eqn:Hp.
    + rewrite decide_True.
      2:{ intros Hs. apply (rewrite_group_None section counted keep_ids decisions) in Hs.
          congruence. }
      constructor; [|done].
      apply rewrite_group_titles in Hp as (Ht & _ & Hw & Hr & _).
      rewrite Ht, keep_titles_filter. done.
    + rewrite decide_False; [done|].
      apply rewrite_group_None in Hp. by intros [].
Qed.

Lemma rewrite_groups_Forall section counted keep_ids decisions groups (P : group → Prop) :
  (∀ p g', rewrite_group section counted keep_ids decisions p = Some g' → P g') →
  Forall P (rewrite_groups section counted keep_ids decisions groups).
Proof.
  intros HP. rewrite rewrite_groups_omap, Forall_forall. intros g' Hg'.
  apply list_elem_of_omap in Hg' as (p & _ & Hp). eauto.
Qed.

(** ** The merger *)

Lemma merge_decisions_elem self items decisions id :
  id ∈ merge_decisions self items decisions ↔
  id ∈ c_id <$> items ∧ passes self (decisions !! id).
Proof.
  unfold merge_decisions.
  enough (∀ acc : gset pystr,
    id ∈ foldl (λ keep_ids it,
      match decisions !! c_id it with
      | None => {[c_id it]} ∪ keep_ids
      | Some d =>
          if d_keep d && (d_score d >=? min_score self)
          then {[c_id it]} ∪ keep_ids else keep_ids
      end) acc items
    ↔ id ∈ acc ∨ (id ∈ c_id <$> items ∧ passes self (decisions !! id))) as Hgen.
  { rewrite Hgen. set_solver. }
  induction items as [|it items IH]; intros acc; simpl.
  - set_solver.
  - rewrite IH. rewrite elem_of_cons.
    destruct (decide (id = c_id it)) as [->|Hne].
    + destruct (decisions !! c_id it) as [d|] eqn:Hd; simpl.
      * destruct (d_keep d) eqn:Hk; simpl.
        -- rewrite Z.geb_leb. destruct (Z.leb_spec (min_score self) (d_score d)).
           ++ set_solver.
           ++ split; intros [?|(? & ? & ?)]; (tauto || lia).
        -- split; intros [?|(? & ? & ?)]; (tauto || done).
      * set_solver.
    + destruct (decisions !! c_id it) as [d|]; [destruct (_ && _)|]; set_solver.
Qed.

(** C2. Merger keep law: a candidate id with a decision is kept exactly
    when the decision says keep and its score reaches [min_score]; a
    candidate id the service returned no decision for is always kept. *)
Theorem merger_keep_law (self : AIQualityGate) (items : list candidate)
    (decisions : gmap pystr decision) (id : pystr) :
  id ∈ c_id <$> items →
  (∀ d, decisions !! id = Some d →
        (id ∈ merge_decisions self items decisions
         ↔ d_keep d = true ∧ min_score self ≤ d_score d))
  ∧ (decisions !! id = None → id ∈ merge_decisions self items decisions).
Proof.
  intros Hid. split.
  - intros d Hd. rewrite merge_decisions_elem, Hd. simpl. tauto.
  - intros Hd. rewrite merge_decisions_elem, Hd. simpl. tauto.
Qed.

Lemma merge_decisions_subset self items decisions id :
  id ∈ merge_decisions self items decisions → id ∈ c_id <$> items.
Proof. rewrite merge_decisions_elem. tauto. Qed.

(** ** Chunks *)

Lemma slice_from {A} (l : list A) (a B : nat) :
  slice l a (a + B) = take B (drop a l).
Proof. unfold slice. f_equal. lia. Qed.

Lemma range_go_concat {A} (items : list A) (B fuel start : nat) :
  (0 < B)%nat → (length items - start ≤ fuel)%nat →
  concat ((λ s, slice items s (s + B)) <$> range_go fuel start (length items) B)
  = drop start items.
Proof.
  intros HB. revert start. induction fuel as [|fuel IH]; intros start Hfuel; simpl.
  - rewrite drop_ge by lia. done.
  - destruct (Nat.ltb_spec start (length items)) as [Hlt|Hge]; simpl.
    + rewrite IH by lia. rewrite slice_from.
      rewrite <- (take_drop B (drop start items)) at 2.
      rewrite drop_drop. done.
    + rewrite drop_ge by lia. done.
Qed.

Lemma range_go_sizes {A} (items : list A) (B fuel start : nat) :
  (0 < B)%nat →
  Forall (λ c : list A, (0 < length c ≤ B)%nat)
    ((λ s, slice items s (s + B)) <$> range_go fuel start (length items) B).
Proof.
  intros HB. revert start. induction fuel as [|fuel IH]; intros start; simpl.
  - constructor.
  - destruct (Nat.ltb_spec start (length items)) as [Hlt|Hge]; simpl; [|constructor].
    constructor; [|apply IH].
    rewrite slice_from, length_take, length_drop. lia.
Qed.

Lemma range_go_length (n B fuel start : nat) :
  (0 < B)%nat → (n - start ≤ fuel)%nat →
  length (range_go fuel start n B) = ((n - start + B - 1) / B)%nat.
Proof.
  intros HB. revert start. induction fuel as [|fuel IH]; intros start Hfuel; simpl.
  - replace (n - start + B - 1)%nat with (B - 1)%nat by lia.
    rewrite Nat.div_small by lia. done.
  - destruct (Nat.ltb_spec start n) as [Hlt|Hge]; simpl.
    + rewrite IH by lia.
      destruct (Nat.le_gt_cases (start + B) n) as [Hle|Hgt].
      * replace (n - start + B - 1)%nat with ((n - (start + B) + B - 1) + 1 * B)%nat by lia.
        rewrite Nat.div_add by lia. lia.
      * replace (n - (start + B) + B - 1)%nat with (B - 1)%nat by lia.
        rewrite (Nat.div_small (B - 1)) by lia.
        replace (n - start + B - 1)%nat with ((n - start - 1) + 1 * B)%nat by lia.
        rewrite Nat.div_add by lia. rewrite Nat.div_small by lia. done.
    + replace (n - start + B - 1)%nat with (B - 1)%nat by lia.
      rewrite Nat.div_small by lia. done.
Qed.

Lemma batches_concat (B : nat) (items : list candidate) :
  (0 < B)%nat → concat (batches B items) = items.
Proof.
  intros HB. unfold batches, py_range.
  rewrite range_go_concat by lia. done.
Qed.

Lemma batches_sizes (B : nat) (items : list candidate) :
  (0 < B)%nat → Forall (λ c : list candidate, (0 < length c ≤ B)%nat) (batches B items).
Proof. intros HB. by apply range_go_sizes. Qed.

Lemma batches_length (B : nat) (items : list candidate) :
  (0 < B)%nat → length (batches B items) = ((length items + B - 1) / B)%nat.
Proof.
  intros HB. unfold batches, py_range. rewrite length_fmap.
  rewrite range_go_length by lia. f_equal. lia.
Qed.

(** ** The batch judge *)

Lemma union_list_snoc (maps : list (gmap pystr decision)) (m : gmap pystr decision) :
  ⋃ (maps ++ [m]) = ⋃ maps ∪ m.
Proof.
  induction maps as [|m' maps IH]; simpl.
  - by rewrite (right_id_L ∅ (∪)), (left_id_L ∅ (∪)).
  - by rewrite IH, (assoc_L (∪)).
Qed.

Section batch_judge.
Context `{Runtime}.

Lemma judge_batch_run chunk mode log :
  _judge_batch chunk mode log = (log ++ [chunk], batch_outcome chunk mode).
Proof.
  unfold batch_outcome, _judge_batch, call_chat, mbind, M_bind, bind, lift. simpl.
  destruct (chat chunk mode); done.
Qed.

(** The body of the loop of [_judge_in_batches]. *)
Let body (items : list candidate) (B : nat) (mode : pystr)
    (decisions : gmap pystr decision) (start : nat) : M (gmap pystr decision) :=
  let chunk := slice items start (start + B) in
  chunk_decisions ← _judge_batch chunk mode;
  mret (if bool_decide (chunk_decisions = ∅) then decisions
        else chunk_decisions ∪ decisions).

Lemma body_run items B mode acc start log :
  body items B mode acc start log =
    (log ++ [slice items start (start + B)],
     match batch_outcome (slice items start (start + B)) mode with
     | Ok m => Ok (if bool_decide (m = ∅) then acc else m ∪ acc)
     | Raise e => Raise e
     end).
Proof.
  unfold body, mbind, M_bind, bind. rewrite judge_batch_run.
  destruct (batch_outcome _ _); done.
Qed.

Lemma for_each_cons {A S} (x : A) xs (s : S) f log :
  for_each (x :: xs) s f log =
    match f s x log with
    | (log', Ok s') => for_each xs s' f log'
    | (log', Raise e) => (log', Raise e)
    end.
Proof. done. Qed.

Lemma judge_loop items B mode starts acc log :
  let chunks := (λ start, slice items start (start + B)) <$> starts in
  ∃ k, (k ≤ length chunks)%nat
    ∧ (for_each starts acc (body items B mode) log).1 = log ++ take k chunks
    ∧ Forall (λ c, is_raise (batch_outcome c mode) = false) (take (pred k) chunks)
    ∧ match (for_each starts acc (body items B mode) log).2 with
      | Ok d =>
          k = length chunks
          ∧ Forall (λ c, is_raise (batch_outcome c mode) = false) chunks
          ∧ d = update_all (chunk_map mode <$> chunks) ∪ acc
      | Raise e =>
          ∃ c, chunks !! pred k = Some c ∧ (0 < k)%nat ∧ batch_outcome c mode = Raise e
      end.
Proof.
  simpl. revert acc log. induction starts as [|start starts IH]; intros acc log.
  - exists 0%nat. simpl. rewrite app_nil_r. repeat split; try done.
    unfold update_all. simpl. by rewrite (left_id_L ∅ (∪)).
  - rewrite !fmap_cons, for_each_cons, body_run.
    destruct (batch_outcome (slice items start (start + B)) mode) as [m|e] eqn:Hout.
    + set (acc' := if bool_decide (m = ∅) then acc else m ∪ acc).
      destruct (IH acc' (log ++ [slice items start (start + B)]))
        as (k & Hk & Hlog & Hpre & Hres).
      exists (S k). cbn [length take pred]. split; [lia|]. split.
      { rewrite Hlog, <- app_assoc. done. }
      split.
      { destruct k as [|k]; cbn [take pred] in *; [constructor|].
        constructor; [by rewrite Hout | done]. }
      destruct ((for_each starts acc' (body items B mode)
                   (log ++ [slice items start (start + B)])).2) as [d|e'].
      * destruct Hres as (-> & Hall & ->). split; [done|]. split.
        { constructor; [by rewrite Hout | done]. }
        unfold update_all. rewrite reverse_cons, union_list_snoc.
        replace (chunk_map mode (slice items start (start + B))) with m
          by (unfold chunk_map; by rewrite Hout).
        rewrite <- (assoc_L (∪)).
        f_equal. subst acc'. case_bool_decide as Hm; [|done].
        subst m. by rewrite (left_id_L ∅ (∪)).
      * destruct Hres as (c & Hc & Hk0 & Hce). exists c.
        destruct k as [|k]; [lia|]. cbn [pred] in *.
        split; [done|]. split; [lia | done].
    + exists 1%nat. cbn [length take pred fst snd]. split; [lia|]. split; [done|].
      split; [constructor|].
      eexists. split; [done|]. split; [lia | done].
Qed.
Lemma judge_in_batches_loop self items mode log :
  items ≠ [] →
  let B := if negb (batch_size self =? 0) && (batch_size self >? 0)
           then Z.to_nat (batch_size self) else length items in
  _judge_in_batches self items mode log =
    for_each (py_range 0 (length items) B) ∅ (body items B mode) log.
Proof. intros Hne. destruct items; [done|]. reflexivity. Qed.

(** The calls of one run and its result, in terms of the chunks. *)
Lemma judge_in_batches_run self items mode log :
  items ≠ [] →
  let B := if negb (batch_size self =? 0) && (batch_size self >? 0)
           then Z.to_nat (batch_size self) else length items in
  let chunks := batches B items in
  let run := _judge_in_batches self items mode log in
  ∃ k, (k ≤ length chunks)%nat
    ∧ run.1 = log ++ take k chunks
    ∧ Forall (λ c, is_raise (batch_outcome c mode) = false) (take (pred k) chunks)
    ∧ match run.2 with
      | Ok d =>
          k = length chunks
          ∧ Forall (λ c, is_raise (batch_outcome c mode) = false) chunks
          ∧ d = update_all (chunk_map mode <$> chunks)
      | Raise e =>
          ∃ c, chunks !! pred k = Some c ∧ (0 < k)%nat ∧ batch_outcome c mode = Raise e
      end.
Proof.
  intros Hne B chunks run. subst run. rewrite judge_in_batches_loop by done.
  fold B.
  destruct (judge_loop items B mode (py_range 0 (length items) B) ∅ log)
    as (k & Hk & Hlog & Hpre & Hres).
  exists k. fold (batches B items) in *. fold chunks in Hk, Hlog, Hpre, Hres |- *.
  repeat (split; [done|]).
  destruct ((for_each _ _ _ _).2); [|done].
  destruct Hres as (? & ? & ->). rewrite (right_id_L ∅ (∪)). done.
Qed.

(** C8. Batch partitioning: for a non-empty item list and a batch size
    [B > 0], the chunks are contiguous, cover the list in order without
    overlap, hold between one and [B] items each and number
    [ceil(n / B)]; the service is called once per chunk in list order (up
    to the first call that raises); and when every call returns, all
    chunks were sent and the result is the union of their decision maps,
    a later chunk overriding an earlier one. *)
Theorem batch_partitioning (self : AIQualityGate) (items : list candidate)
    (mode : pystr) (log : list (list candidate)) :
  items ≠ [] → 0 < batch_size self →
  let B := Z.to_nat (batch_size self) in
  let chunks := batches B items in
  let run := _judge_in_batches self items mode log in
  (concat chunks = items
   ∧ Forall (λ c : list candidate, (0 < length c ≤ B)%nat) chunks
   ∧ length chunks = ((length items + B - 1) / B)%nat)
  ∧ (∃ k, (k ≤ length chunks)%nat ∧ run.1 = log ++ take k chunks
          ∧ Forall (λ c, is_raise (batch_outcome c mode) = false) (take (pred k) chunks))
  ∧ (Forall (λ c, is_raise (batch_outcome c mode) = false) chunks →
     run = (log ++ chunks, Ok (update_all (chunk_map mode <$> chunks))))
  ∧ (∀ d, run.2 = Ok d →
     run.1 = log ++ chunks ∧ d = update_all (chunk_map mode <$> chunks)).
Proof.
  intros Hne HB B chunks run.
  assert (HB' : (0 < B)%nat) by (subst B; lia).
  split.
  { split; [by apply batches_concat|]. split; [by apply batches_sizes|].
    by apply batches_length. }
  pose proof (judge_in_batches_run self items mode log Hne) as Hrun.
  replace (negb (batch_size self =? 0) && (batch_size self >? 0)) with true in Hrun.
  2:{ symmetry. apply andb_true_iff. split; [apply negb_true_iff|]; lia. }
  simpl in Hrun. fold B chunks run in Hrun.
  destruct Hrun as (k & Hk & Hlog & Hpre & Hres).
  split; [by exists k|]. split.
  - intros Hall. destruct run as [log' r] eqn:Hr. simpl in *.
    destruct r as [d|e].
    + destruct Hres as (-> & _ & ->). rewrite Hlog, firstn_all. done.
    + destruct Hres as (c & Hc & _ & Hce).
      rewrite Forall_forall in Hall.
      assert (Hin : c ∈ chunks) by (apply list_elem_of_lookup; eauto).
      apply Hall in Hin. rewrite Hce in Hin. done.
  - intros d Hd. rewrite Hd in Hres. destruct Hres as (-> & _ & ->).
    rewrite Hlog, firstn_all. done.
Qed.
End batch_judge.

(** ** The five ways through [filter_before_send] *)

Section pipeline.
Context `{Runtime}.
Variables (self : AIQualityGate) (report_data : report) (mode : pystr).
Variables (rss_items rss_new_items : option (list group)).

Let items := (_collect_candidates report_data rss_items rss_new_items).1.
Let pointers := (_collect_candidates report_data rss_items rss_new_items).2.
Let api_key := py_strip (str_or (API_KEY self) []).

Lemma fbs_disabled log :
  enabled self = false →
  filter_before_send self report_data mode rss_items rss_new_items log
  = (log, Ok (report_data, rss_items, rss_new_items, stats0)).
Proof. intros He. unfold filter_before_send. rewrite He. done. Qed.

Lemma fbs_no_key log :
  enabled self = true → api_key = [] →
  filter_before_send self report_data mode rss_items rss_new_items log
  = (log, Ok (report_data, rss_items, rss_new_items, set_error stats0 msg_no_key)).
Proof.
  intros He Hk. unfold filter_before_send. rewrite He. simpl.
  fold api_key. rewrite Hk. done.
Qed.

Lemma fbs_no_items log :
  enabled self = true → api_key ≠ [] → items = [] →
  filter_before_send self report_data mode rss_items rss_new_items log
  = (log, Ok (report_data, rss_items, rss_new_items, set_total stats0 0)).
Proof.
  intros He Hk Hi. unfold filter_before_send. rewrite He. simpl.
  fold api_key. rewrite bool_decide_eq_false_2 by done. simpl.
  subst items. destruct (_collect_candidates _ _ _) as [its ptrs]. simpl in Hi.
  subst its. done.
Qed.

Lemma fbs_judged log :
  enabled self = true → api_key ≠ [] → items ≠ [] →
  filter_before_send self report_data mode rss_items rss_new_items log
  = let run := _judge_in_batches self (eval_items_of self items) mode log in
    let stats :=
      set_evaluated (set_total stats0 (length items))
                    (length (eval_items_of self items)) in
    (run.1,
     Ok match run.2 with
        | Raise e =>
            (report_data, rss_items, rss_new_items,
             set_error stats (exn_type e ++ py ": " ++ exn_msg e))
        | Ok decisions =>
            let keep_ids := merge_decisions self items decisions in
            (_apply_kept_ids report_data rss_items rss_new_items keep_ids
               pointers decisions,
             set_kept stats (size keep_ids))
        end).
Proof.
  intros He Hk Hi. unfold filter_before_send. rewrite He. simpl.
  fold api_key. rewrite bool_decide_eq_false_2 by done. simpl.
  subst items pointers. destruct (_collect_candidates _ _ _) as [its ptrs].
  simpl in *. destruct its as [|it its]; [done|].
  unfold mbind, M_bind, bind, try_.
  destruct (_judge_in_batches self _ mode log) as [log' [decisions|e]];
    cbn [fst snd]; [|done].
  reflexivity.
Qed.
End pipeline.

(** ** The collector *)

Lemma collect_titles_items section grp gi titles acc :
  (collect_titles section grp gi titles acc).1 =
    acc.1 ++ omap (candidate_at section grp gi) (enumerate titles).
Proof.
  unfold collect_titles, enumerate. generalize 0%nat. revert acc.
  induction titles as [|t titles IH]; intros [items pointers] i.
  - simpl. by rewrite app_nil_r.
  - cbn [enumerate_from foldl]. rewrite IH.
    change (omap ?f ((i, t) :: ?l)) with
      (match f (i, t) with Some y => y :: omap f l | None => omap f l end).
    unfold candidate_at at 2. unfold stripped_title. cbn [fst snd].
    destruct (py_strip (str_or (e_title t) [])) as [|c title] eqn:Ht; cbn [fst snd].
    + done.
    + by rewrite <- app_assoc.
Qed.

Lemma collect_section_items section named groups acc :
  (collect_section section named groups acc).1 =
    acc.1 ++ concat ((λ p, omap (candidate_at section (group_name named p.2) p.1)
                             (enumerate (titles_of p.2))) <$> enumerate groups).
Proof.
  unfold collect_section. change (enumerate groups) with (enumerate_from 0 groups).
  generalize 0%nat. revert acc.
  induction groups as [|g groups IH]; intros acc i.
  - simpl. by rewrite app_nil_r.
  - cbn [enumerate_from foldl]. rewrite IH, collect_titles_items.
    rewrite fmap_cons. cbn [concat fst snd]. unfold group_name at 2.
    by rewrite <- app_assoc.
Qed.

Lemma collect_candidates_items report_data rss_items rss_new_items :
  (_collect_candidates report_data rss_items rss_new_items).1 =
    concat ((λ s : pystr * bool * list group,
               concat ((λ p, omap (candidate_at s.1.1 (group_name s.1.2 p.2) p.1)
                                  (enumerate (titles_of p.2))) <$> enumerate s.2))
            <$> sections report_data rss_items rss_new_items).
Proof.
  unfold _collect_candidates, sections. rewrite !collect_section_items. simpl.
  rewrite app_nil_r, <- !app_assoc. done.
Qed.

(** Every candidate stands for an entry with a title that is not blank,
    at the position its id names. *)
Lemma collect_candidates_elem report_data rss_items rss_new_items c :
  c ∈ (_collect_candidates report_data rss_items rss_new_items).1 →
  ∃ s gi g ti t,
    s ∈ sections report_data rss_items rss_new_items
    ∧ s.2 !! gi = Some g ∧ titles_of g !! ti = Some t
    ∧ stripped_title t ≠ [] ∧ c_id c = mk_id s.1.1 gi ti.
Proof.
  rewrite collect_candidates_items.
  intros Hc. apply elem_of_concat in Hc as (l & Hc & Hl).
  apply list_elem_of_fmap in Hl as (s & -> & Hs).
  apply elem_of_concat in Hc as (l & Hc & Hl).
  apply list_elem_of_fmap in Hl as ([gi g] & -> & Hg).
  apply list_elem_of_omap in Hc as ([ti t] & Ht & Hc).
  apply elem_of_enumerate in Hg, Ht. simpl in *.
  exists s, gi, g, ti, t. repeat (split; [done|]).
  unfold candidate_at in Hc. simpl in Hc.
  destruct (stripped_title t) eqn:Hst; [done|]. split; [done|].
  by injection Hc as <-.
Qed.

(** ** The rewriter *)

Lemma default_rewrite_copy section counted keep_ids decisions x :
  default [] (rewrite_groups section counted keep_ids decisions <$> copy_if_any x)
  = rewrite_groups section counted keep_ids decisions (default [] x).
Proof. destruct x as [[|g l]|]; done. Qed.


Lemma annotate_title decisions tid t : e_title (annotate decisions tid t) = e_title t.
Proof.
  unfold annotate. destruct (decisions !! tid) as [d|]; [|done].
  destruct (d_brief d); done.
Qed.

(** Where an entry of the rewritten collection comes from. *)
Lemma rewrite_groups_entries section counted keep_ids decisions groups g' t' :
  g' ∈ rewrite_groups section counted keep_ids decisions groups →
  t' ∈ titles_of g' →
  ∃ gi g ti t,
    groups !! gi = Some g ∧ titles_of g !! ti = Some t
    ∧ mk_id section gi ti ∈ keep_ids
    ∧ t' = annotate decisions (mk_id section gi ti) t.
Proof.
  rewrite rewrite_groups_omap. intros Hg' Ht'.
  apply list_elem_of_omap in Hg' as ([gi g] & Hg & Hrw).
  apply rewrite_group_titles in Hrw as (Hts & _). simpl in Hts.
  rewrite Hts, keep_titles_filter in Ht'.
  apply list_elem_of_fmap in Ht' as ([ti t] & -> & Ht).
  apply list_elem_of_filter in Ht as [Hkeep Ht].
  apply elem_of_enumerate in Hg, Ht. simpl in *.
  exists gi, g, ti, t. done.
Qed.

(** The shape of what the rewriter returns, on values: in each of the
    four collections the groups are, in their original order, the groups
    with at least one entry whose positional id is in the kept-id set;
    each holds exactly those entries (with the [brief] of their decision),
    in their original relative order; no group is left with an empty
    title list. *)
Lemma rewriter_shape_values (report_data : report) (rss_items rss_new_items : option (list group))
    (keep_ids : gset pystr) (pointers : gmap pystr pointer)
    (decisions : gmap pystr decision) :
  let out := _apply_kept_ids report_data rss_items rss_new_items keep_ids pointers decisions in
  let shaped section input output :=
    rewritten section keep_ids decisions input output
    ∧ Forall (λ g, titles_of g ≠ []) output in
  shaped hot_stats (default [] (r_stats report_data)) (default [] (r_stats out.1.1))
  ∧ shaped hot_new (default [] (r_new_titles report_data)) (default [] (r_new_titles out.1.1))
  ∧ shaped rss_stats (default [] rss_items) (default [] out.1.2)
  ∧ shaped rss_new (default [] rss_new_items) (default [] out.2).
Proof.
  intros out shaped. subst out. unfold _apply_kept_ids. cbn [fst snd r_stats r_new_titles default].
  rewrite !default_rewrite_copy.
  assert (Hshape : ∀ section counted input,
    shaped section input (rewrite_groups section counted keep_ids decisions input)).
  { intros section counted input. split; [apply rewrite_groups_rewritten|].
    apply rewrite_groups_Forall. intros p g' Hp.
    by apply rewrite_group_titles in Hp as (_ & ? & _). }
  repeat split; apply Hshape.
Qed.


(** ** The pipeline *)

Lemma sections_named report_data rss_items rss_new_items s :
  s ∈ sections report_data rss_items rss_new_items → is_section s.1.1.
Proof.
  unfold sections, is_section. intros Hs.
  repeat (apply elem_of_cons in Hs as [->|Hs]; [simpl; tauto|]).
  by apply elem_of_nil in Hs.
Qed.

Lemma sections_functional report_data rss_items rss_new_items s s' :
  s ∈ sections report_data rss_items rss_new_items →
  s' ∈ sections report_data rss_items rss_new_items →
  s.1.1 = s'.1.1 → s = s'.
Proof.
  unfold sections. intros Hs Hs'.
  repeat (apply elem_of_cons in Hs as [->|Hs]);
    [..|by apply elem_of_nil in Hs];
    (repeat (apply elem_of_cons in Hs' as [->|Hs']);
       [..|by apply elem_of_nil in Hs']); simpl; intros Heq;
    first [reflexivity | exfalso; vm_compute in Heq; discriminate Heq].
Qed.

(** An entry whose positional id is a candidate's id has a title that is
    not blank. *)
Lemma candidate_position_titled report_data rss_items rss_new_items s gi g ti t :
  s ∈ sections report_data rss_items rss_new_items →
  s.2 !! gi = Some g → titles_of g !! ti = Some t →
  mk_id s.1.1 gi ti ∈ c_id <$> (_collect_candidates report_data rss_items rss_new_items).1 →
  stripped_title t ≠ [].
Proof.
  intros Hs Hg Ht Hid.
  apply list_elem_of_fmap in Hid as (c & Hc & Hin).
  apply collect_candidates_elem in Hin as (s' & gi' & g' & ti' & t' & Hs' & Hg' & Ht' & Hne & Hc').
  rewrite Hc' in Hc. apply mk_id_inj in Hc as (Hsec & -> & ->);
    [|by eapply sections_named..].
  assert (s = s') as -> by by eapply sections_functional.
  congruence.
Qed.

Section guarantees.
Context `{Runtime}.
Variables (self : AIQualityGate) (report_data : report) (mode : pystr).
Variables (rss_items rss_new_items : option (list group)).

Let items := (_collect_candidates report_data rss_items rss_new_items).1.
Let pointers := (_collect_candidates report_data rss_items rss_new_items).2.
Let api_key := py_strip (str_or (API_KEY self) []).

(** C1, as the code has it. Fail-open: when the gate is enabled and no
    API key is configured, or when a call of the evaluation pass raised,
    [filter_before_send] returns its three inputs unchanged with a
    [stats.error] that is not empty. And in every case the result is
    either the three inputs unchanged or the rewriting by the decisions
    of a judge that returned for all chunks: never a filtering by the
    decisions of some chunks only. *)
Theorem fail_open :
  let run := filter_before_send self report_data mode rss_items rss_new_items [] in
  ((enabled self = true ∧ api_key = [])
   ∨ (∃ chunk, chunk ∈ run.1 ∧ is_raise (batch_outcome chunk mode) = true) →
   ∃ stats, run.2 = Ok (report_data, rss_items, rss_new_items, stats)
            ∧ error stats ≠ [])
  ∧ ((∃ stats, run.2 = Ok (report_data, rss_items, rss_new_items, stats))
     ∨ (∃ decisions stats,
          (_judge_in_batches self (eval_items_of self items) mode []).2 = Ok decisions
          ∧ run.2 = Ok (_apply_kept_ids report_data rss_items rss_new_items
                          (merge_decisions self items decisions) pointers decisions,
                        stats)
          ∧ error stats = [])).
Proof.
  intros run. subst run.
  destruct (enabled self) eqn:He.
  2:{ rewrite fbs_disabled by done. split; [|left; eauto].
      intros [[? _]|(c & Hc & _)]; [done | by apply elem_of_nil in Hc]. }
  destruct (decide (api_key = [])) as [Hk|Hk].
  { rewrite fbs_no_key by done. split; [|left; eauto].
    intros _. eexists. split; [done|]. done. }
  destruct (decide (items = [])) as [Hi|Hi].
  { rewrite fbs_no_items by done. split; [|left; eauto].
    intros [[_ ?]|(c & Hc & _)]; [done | by apply elem_of_nil in Hc]. }
  rewrite fbs_judged by done. cbn [fst snd]. fold items pointers.
  assert (Hev : eval_items_of self items ≠ []).
  { unfold eval_items_of. destruct (max_items self >? 0) eqn:Hm; [|done].
    destruct items; [done|]. destruct (Z.to_nat (max_items self)) eqn:Hn; [lia|done]. }
  destruct (judge_in_batches_run self (eval_items_of self items) mode [] Hev)
    as (k & Hk' & Hlog & Hpre & Hres).
  destruct ((_judge_in_batches self (eval_items_of self items) mode []).2)
    as [decisions|e] eqn:Hrun.
  - split; [|right; eauto].
    intros [[_ ?]|(c & Hc & Hraise)]; [done|].
    destruct Hres as (_ & Hall & _). rewrite Hlog in Hc. simpl in Hc.
    apply elem_of_take in Hc as (i & Hc & _).
    rewrite Forall_forall in Hall.
    assert (Hin : c ∈ batches
      (if negb (batch_size self =? 0) && (batch_size self >? 0)
       then Z.to_nat (batch_size self) else length (eval_items_of self items))
      (eval_items_of self items)) by (apply list_elem_of_lookup; eauto).
    apply Hall in Hin. congruence.
  - split; [|left; eauto]. intros _. eexists. split; [done|].
    simpl. intros Happ. apply app_eq_nil in Happ as [_ Happ]. discriminate Happ.
Qed.


(** C10. Entries with a blank title are dropped: after a pass that
    reached the rewriter, every entry of the four returned collections
    has a title that is not empty after trimming, so an entry whose title
    is empty or only whitespace, which was never a candidate, is in none
    of them. *)
Theorem blank_titles_dropped (log : list (list candidate))
    (decisions : gmap pystr decision) :
  enabled self = true → api_key ≠ [] → items ≠ [] →
  (_judge_in_batches self (eval_items_of self items) mode log).2 = Ok decisions →
  ∃ report' rss' rss_new' stats,
    (filter_before_send self report_data mode rss_items rss_new_items log).2
      = Ok (report', rss', rss_new', stats)
    ∧ ∀ groups g' t',
        groups ∈ [default [] (r_stats report'); default [] (r_new_titles report');
                  default [] rss'; default [] rss_new'] →
        g' ∈ groups → t' ∈ titles_of g' → stripped_title t' ≠ [].
Proof.
  intros He Hk Hi Hrun. rewrite fbs_judged by done. cbn [fst snd].
  fold items pointers. rewrite Hrun.
  eexists _, _, _, _. split; [reflexivity|].
  unfold _apply_kept_ids. cbn [fst snd r_stats r_new_titles default].
  rewrite !default_rewrite_copy.
  set (keep_ids := merge_decisions self items decisions).
  assert (Hsec : ∀ s counted g' t',
    s ∈ sections report_data rss_items rss_new_items →
    g' ∈ rewrite_groups s.1.1 counted keep_ids decisions s.2 →
    t' ∈ titles_of g' → stripped_title t' ≠ []).
  { intros s counted g' t' Hs Hg' Ht'.
    destruct (rewrite_groups_entries _ _ _ _ _ _ _ Hg' Ht')
      as (gi & g & ti & t & Hg & Ht & Hkeep & ->).
    unfold stripped_title. rewrite annotate_title.
    eapply candidate_position_titled; [done..|].
    by eapply merge_decisions_subset. }
  intros groups g' t' Hgroups.
  repeat (apply elem_of_cons in Hgroups as [->|Hgroups]).
  - apply (Hsec (hot_stats, true, default [] (r_stats report_data)) true).
    unfold sections. set_solver.
  - apply (Hsec (hot_new, false, default [] (r_new_titles report_data)) false).
    unfold sections. set_solver.
  - apply (Hsec (rss_stats, true, default [] rss_items) true).
    unfold sections. set_solver.
  - apply (Hsec (rss_new, true, default [] rss_new_items) true).
    unfold sections. set_solver.
  - by apply elem_of_nil in Hgroups.
Qed.
End guarantees.

(** ** Parsing the response *)

Lemma for_each_r_snoc {A S} (xs : list A) (x : A) (s : S) body :
  for_each_r (xs ++ [x]) s body =
    match for_each_r xs s body with
    | Ok s' => body s' x
    | Raise e => Raise e
    end.
Proof.
  revert s. induction xs as [|y xs IH]; intros s; simpl.
  - destruct (body s x); done.
  - destruct (body s y); [apply IH | done].
Qed.

Lemma normalize_brief_ok (raw : pystr) : brief_ok (normalize_brief raw).
Proof.
  unfold normalize_brief, brief_ok.
  destruct (py_strip raw) as [|c brief] eqn:Hs.
  { repeat split; [by intros ?%elem_of_nil..|simpl; lia]. }
  set (b := py_strip (py_replace1 13 32 (py_replace1 10 32 (c :: brief)))).
  assert (Hclean : Forall (λ x, x ≠ 10%N ∧ x ≠ 13%N) b).
  { apply strip_with_Forall. unfold py_replace1. rewrite <- list_fmap_compose.
    apply Forall_fmap, Forall_true. intros x. simpl.
    destruct (N.eqb_spec x 10) as [->|?]; simpl; [lia|].
    destruct (N.eqb_spec x 13) as [->|?]; lia. }
  assert (Hfinal : ∀ b' : pystr,
    Forall (λ x, x ≠ 10%N ∧ x ≠ 13%N) b' → (length b' ≤ 80)%nat →
    (10%N ∉ b') ∧ (13%N ∉ b') ∧ (length b' ≤ 80)%nat).
  { intros b' Hb' Hlen. rewrite Forall_forall in Hb'.
    repeat split; [intros Hin; by apply Hb' in Hin as [? ?]..|done]. }
  destruct (Nat.ltb_spec 80 (length b)) as [Hlong|Hshort].
  - apply Hfinal.
    + apply rstrip_with_Forall, Forall_take, Hclean.
    + etrans; [apply rstrip_with_length|]. rewrite length_take. lia.
  - by apply Hfinal.
Qed.

Lemma find_from_spec c s i :
  find_from c s i = -1 ∨ ∃ k : nat, find_from c s i = i + Z.of_nat k ∧ s !! k = Some c.
Proof.
  revert i. induction s as [|x s IH]; intros i; simpl; [by left|].
  destruct (N.eqb_spec x c) as [->|Hne].
  - right. exists 0%nat. split; [lia | done].
  - destruct (IH (i + 1)) as [?|(k & Hk & Hs)]; [by left|].
    right. exists (S k). split; [lia | done].
Qed.

Lemma rfind_from_spec c s i last :
  rfind_from c s i last = last
  ∨ ∃ k : nat, rfind_from c s i last = i + Z.of_nat k ∧ s !! k = Some c.
Proof.
  revert i last. induction s as [|x s IH]; intros i last; simpl; [by left|].
  destruct (IH (i + 1) (if (x =? c)%N then i else last)) as [Hl|(k & Hk & Hs)].
  - rewrite Hl. destruct (N.eqb_spec x c) as [->|Hne]; [|by left].
    right. exists 0%nat. split; [lia | done].
  - right. exists (S k). split; [lia | done].
Qed.

Lemma find_from_first c s i (k : nat) :
  s !! k = Some c → ∃ k' : nat, (k' ≤ k)%nat ∧ find_from c s i = i + Z.of_nat k'.
Proof.
  revert i k. induction s as [|x s IH]; intros i k; [by rewrite lookup_nil|].
  simpl. destruct (N.eqb_spec x c) as [->|Hne].
  - intros _. exists 0%nat. split; lia.
  - destruct k as [|k]; simpl; [by intros [= ->]|]. intros Hk.
    destruct (IH (i + 1) k Hk) as (k' & Hle & ->). exists (S k'). split; lia.
Qed.

Lemma rfind_from_ge c s i last :
  last < i → rfind_from c s i last = last ∨ i ≤ rfind_from c s i last.
Proof.
  revert i last. induction s as [|x s IH]; intros i last Hlt; simpl; [by left|].
  destruct (N.eqb_spec x c) as [->|Hne].
  - right. destruct (IH (i + 1) i) as [-> | ?]; lia.
  - destruct (IH (i + 1) last) as [-> | ?]; [lia | by left | right; lia].
Qed.

Lemma rfind_from_last c s i last (k : nat) :
  last < i → s !! k = Some c → i + Z.of_nat k ≤ rfind_from c s i last.
Proof.
  revert i last k. induction s as [|x s IH]; intros i last k Hlt; [by rewrite lookup_nil|].
  simpl. destruct k as [|k]; simpl.
  - intros [= ->]. rewrite N.eqb_refl.
    destruct (rfind_from_ge c s (i + 1) i) as [-> | ?]; lia.
  - intros Hk. etrans; [|apply (IH (i + 1) _ k); [|done]].
    + lia.
    + destruct (x =? c)%N; lia.
Qed.

Lemma rfind_from_snoc c s i last :
  rfind_from c (s ++ [c]) i last = i + Z.of_nat (length s).
Proof.
  revert i last. induction s as [|x s IH]; intros i last; simpl.
  - rewrite N.eqb_refl. lia.
  - rewrite IH. lia.
Qed.

(** The test holds exactly when an opening bracket stands before a
    closing one. *)
Lemma cut_found_iff (opening closing : N) (s : pystr) :
  cut_found opening closing s = true ↔
  ∃ i j : nat, (i < j)%nat ∧ s !! i = Some opening ∧ s !! j = Some closing.
Proof.
  unfold cut_found, py_find, py_rfind. split.
  - intros Htest.
    apply andb_true_iff in Htest as [Htest Hgt].
    apply andb_true_iff in Htest as [Hl Hr].
    apply negb_true_iff, Z.eqb_neq in Hl, Hr.
    destruct (find_from_spec opening s 0) as [?|(kl & Hkl & Hsl)]; [done|].
    destruct (rfind_from_spec closing s 0 (-1)) as [?|(kr & Hkr & Hsr)]; [done|].
    exists kl, kr. split; [lia | done].
  - intros (i & j & Hlt & Hi & Hj).
    destruct (find_from_first opening s 0 i Hi) as (k' & Hle & ->).
    pose proof (rfind_from_last closing s 0 (-1) j ltac:(lia) Hj) as Hr.
    apply andb_true_iff. split; [apply andb_true_iff; split|].
    + apply negb_true_iff, Z.eqb_neq. lia.
    + apply negb_true_iff, Z.eqb_neq. lia.
    + lia.
Qed.

Lemma slice_between (s : pystr) (kl kr : nat) (a b : N) :
  s !! kl = Some a → s !! kr = Some b → (kl < kr)%nat →
  ∃ body, py_slice s (Z.of_nat kl) (Z.of_nat kr + 1) = a :: body ++ [b].
Proof.
  intros Ha Hb Hlt. unfold py_slice.
  replace (Z.to_nat (Z.of_nat kr + 1 - Z.of_nat kl)) with (S (S (kr - kl - 1))) by lia.
  rewrite Nat2Z.id. rewrite (drop_S _ _ _ Ha). rewrite firstn_cons.
  exists (take (kr - kl - 1) (drop (S kl) s)). f_equal.
  apply take_S_r. rewrite lookup_drop. rewrite <- Hb. f_equal. lia.
Qed.

Lemma strip_with_between p (a b : N) (body : pystr) :
  p a = false → p b = false →
  strip_with p (a :: body ++ [b]) = a :: body ++ [b].
Proof.
  intros Ha Hb. unfold strip_with, rstrip_with. simpl. rewrite Ha.
  change (a :: body ++ [b]) with ((a :: body) ++ [b]).
  rewrite reverse_snoc. simpl. rewrite Hb.
  rewrite <- reverse_snoc. apply reverse_involutive.
Qed.

(** What [_safe_json_extract] cuts out of a text between [open] and
    [close]. *)
Lemma extract_between (s : pystr) (opening closing : N) :
  py_isspace opening = false → py_isspace closing = false →
  let l := py_find opening s in
  let r := py_rfind closing s in
  negb (l =? -1) && negb (r =? -1) && (r >? l) = true →
  ∃ body, py_strip (py_slice s l (r + 1)) = opening :: body ++ [closing].
Proof.
  intros Ho Hc l r Htest.
  apply andb_true_iff in Htest as [Htest Hgt].
  apply andb_true_iff in Htest as [Hl Hr].
  apply negb_true_iff, Z.eqb_neq in Hl, Hr.
  destruct (find_from_spec opening s 0) as [?|(kl & Hkl & Hsl)]; [done|].
  destruct (rfind_from_spec closing s 0 (-1)) as [?|(kr & Hkr & Hsr)]; [done|].
  subst l r. unfold py_find, py_rfind in *. rewrite Hkl, Hkr in *.
  rewrite !Z.add_0_l in *.
  destruct (slice_between s kl kr opening closing) as [body Hbody]; [done..|lia|].
  exists body. rewrite Hbody. by apply strip_with_between.
Qed.

(** ** The cut *)

Lemma cut_of_found (opening closing : N) (s e : pystr) :
  cut_of opening closing s e → cut_found opening closing s = true.
Proof.
  intros (pre & body & post & -> & -> & _). apply cut_found_iff.
  exists (length pre), (length pre + S (length body))%nat. split; [lia|]. split.
  - by apply list_lookup_middle.
  - replace (pre ++ (opening :: body ++ [closing]) ++ post)
      with ((pre ++ opening :: body) ++ closing :: post)
      by (rewrite <- !app_assoc; cbn; by rewrite <- app_assoc).
    apply list_lookup_middle. rewrite length_app. cbn. lia.
Qed.

Lemma found_cut_of (opening closing : N) (s : pystr) :
  py_isspace opening = false → py_isspace closing = false →
  cut_found opening closing s = true →
  cut_of opening closing s
    (py_strip (py_slice s (py_find opening s) (py_rfind closing s + 1))).
Proof.
  intros Ho Hc Htest. unfold cut_found in Htest.
  apply andb_true_iff in Htest as [Htest Hgt].
  apply andb_true_iff in Htest as [Hl Hr].
  apply negb_true_iff, Z.eqb_neq in Hl, Hr.
  destruct (find_from_spec opening s 0) as [?|(kl & Hkl & Hsl)]; [done|].
  destruct (rfind_from_spec closing s 0 (-1)) as [?|(kr & Hkr & Hsr)]; [done|].
  unfold py_find, py_rfind in *. rewrite Hkl, Hkr in *. rewrite !Z.add_0_l in *.
  destruct (slice_between s kl kr opening closing) as [body Hbody]; [done..|lia|].
  rewrite Hbody. unfold py_strip. rewrite strip_with_between by done.
  exists (take kl s), body, (drop (S kr) s). split_and!; [|done| |].
  - rewrite <- Hbody. unfold py_slice. rewrite Nat2Z.id.
    replace (Z.to_nat (Z.of_nat kr + 1 - Z.of_nat kl)) with (S kr - kl)%nat by lia.
    rewrite <- (take_drop kl s) at 1. f_equal.
    rewrite <- (take_drop (S kr - kl) (drop kl s)) at 1. f_equal.
    rewrite drop_drop. f_equal. lia.
  - intros Hin. apply list_elem_of_lookup in Hin as (i & Hi).
    apply lookup_take_Some in Hi as [Hi Hlt].
    destruct (find_from_first opening s 0 i Hi) as (k' & Hle & Hk'). lia.
  - intros Hin. apply list_elem_of_lookup in Hin as (j & Hj).
    rewrite lookup_drop in Hj.
    pose proof (rfind_from_last closing s 0 (-1) _ ltac:(lia) Hj). lia.
Qed.

(** The cut is determined by the text. *)
Lemma first_occurrence (c : N) (a a' b b' : pystr) :
  a ++ c :: b = a' ++ c :: b' → c ∉ a → c ∉ a' → a = a' ∧ b = b'.
Proof.
  revert a'. induction a as [|x a IH]; intros [|x' a'] Heq Ha Ha'; simplify_eq/=.
  - done.
  - exfalso. apply Ha'. left.
  - exfalso. apply Ha. left.
  - rewrite not_elem_of_cons in Ha, Ha'. destruct (IH a' H0) as [-> ->]; tauto.
Qed.

Lemma cut_of_unique (opening closing : N) (s e e' : pystr) :
  cut_of opening closing s e → cut_of opening closing s e' → e = e'.
Proof.
  intros (pre & body & post & Hs & -> & Hpre & Hpost)
         (pre' & body' & post' & Hs' & -> & Hpre' & Hpost').
  rewrite Hs in Hs'. cbn in Hs'.
  apply first_occurrence in Hs' as [-> Htail]; [|done..].
  f_equal. apply (f_equal reverse) in Htail.
  rewrite !reverse_app, !reverse_singleton in Htail. cbn [app] in Htail.
  apply first_occurrence in Htail as [_ Hbody].
  - apply (inj reverse) in Hbody. by rewrite Hbody.
  - by rewrite elem_of_reverse.
  - by rewrite elem_of_reverse.
Qed.

Section parsing.
Context `{Runtime}.

Lemma judge_row_entry decisions row :
  judge_row decisions row =
    match row_entry row with
    | None => Ok decisions
    | Some (rid, Ok d) => Ok (<[rid := d]> decisions)
    | Some (_, Raise e) => Raise e
    end.
Proof.
  unfold judge_row, row_entry. destruct row; try done.
  destruct (py_strip (py_str (py_get fields (py "id") (JStr [])))); [done|].
  destruct (py_int _); done.
Qed.

Lemma row_entry_brief row rid d : row_entry row = Some (rid, Ok d) → brief_ok (d_brief d).
Proof.
  unfold row_entry. destruct row; try done.
  destruct (py_strip (py_str (py_get fields (py "id") (JStr [])))); [done|].
  destruct (py_int _); [|done]. intros [= _ <-]. apply normalize_brief_ok.
Qed.

(** The rows of an array, read in order. *)
Lemma judge_rows data :
  match for_each_r data ∅ judge_row with
  | Ok m =>
      (∀ row rid r, row ∈ data → row_entry row = Some (rid, r) → is_raise r = false)
      ∧ ∀ rid d,
          m !! rid = Some d ↔
          ∃ i row, data !! i = Some row ∧ row_entry row = Some (rid, Ok d)
            ∧ ∀ j row', (i < j)%nat → data !! j = Some row' →
                fst <$> row_entry row' ≠ Some rid
  | Raise e => ∃ row rid, row ∈ data ∧ row_entry row = Some (rid, Raise e)
  end.
Proof.
  induction data as [|row data IH] using rev_ind.
  - simpl. split.
    + by intros ? ? ? ?%elem_of_nil.
    + intros rid d. rewrite lookup_empty. split; [done|].
      intros (i & ? & Hi & _). by rewrite lookup_nil in Hi.
  - rewrite for_each_r_snoc.
    destruct (for_each_r data ∅ judge_row) as [m|e].
    2:{ destruct IH as (row' & rid & Hin & Hrow). exists row', rid.
        split; [|done]. apply elem_of_app. by left. }
    destruct IH as [Hok Hm]. rewrite judge_row_entry.
    destruct (row_entry row) as [[rid0 [d0|e0]]|] eqn:Hrow.
    + split.
      { intros row' rid r [Hin|Hin%list_elem_of_singleton]%elem_of_app Hr;
          [by eapply Hok | subst row'; rewrite Hrow in Hr; by injection Hr as _ <-]. }
      intros rid d. destruct (decide (rid0 = rid)) as [->|Hne].
      * rewrite lookup_insert_eq. split.
        -- intros [= <-]. exists (length data), row. split.
           { by rewrite lookup_app_r, Nat.sub_diag by lia. }
           split; [done|]. intros j row' Hj Hrow'.
           apply lookup_lt_Some in Hrow'. rewrite length_app in Hrow'. simpl in *. lia.
        -- intros (i & row' & Hi & Hrow' & Hlast).
           destruct (decide (i < length data)%nat) as [Hlt|Hge].
           ++ exfalso. apply (Hlast (length data) row); [done| |by rewrite Hrow].
              by rewrite lookup_app_r, Nat.sub_diag by lia.
           ++ assert (Hi' := lookup_lt_Some _ _ _ Hi).
              rewrite length_app in Hi'. simpl in Hi'.
              assert (i = length data) as -> by lia.
              rewrite lookup_app_r, Nat.sub_diag in Hi by lia.
              injection Hi as <-. rewrite Hrow in Hrow'. by injection Hrow' as <-.
      * rewrite lookup_insert_ne by done. rewrite Hm. split.
        -- intros (i & row' & Hi & Hrow' & Hlast). exists i, row'.
           split; [by apply lookup_app_l_Some|]. split; [done|].
           intros j row'' Hj Hj'.
           destruct (decide (j < length data)%nat) as [Hlt|Hge].
           ++ rewrite lookup_app_l in Hj' by done. by eapply Hlast.
           ++ assert (Hj'' := lookup_lt_Some _ _ _ Hj').
              rewrite length_app in Hj''. simpl in Hj''.
              assert (j = length data) as -> by lia.
              rewrite lookup_app_r, Nat.sub_diag in Hj' by lia.
              injection Hj' as <-. rewrite Hrow. simpl. congruence.
        -- intros (i & row' & Hi & Hrow' & Hlast).
           destruct (decide (i < length data)%nat) as [Hlt|Hge].
           ++ exists i, row'. rewrite lookup_app_l in Hi by done.
              split; [done|]. split; [done|].
              intros j row'' Hj Hj'. apply (Hlast j row''); [done|].
              by apply lookup_app_l_Some.
           ++ assert (Hi' := lookup_lt_Some _ _ _ Hi).
              rewrite length_app in Hi'. simpl in Hi'.
              assert (i = length data) as -> by lia.
              rewrite lookup_app_r, Nat.sub_diag in Hi by lia.
              injection Hi as <-. rewrite Hrow in Hrow'. congruence.
    + exists row, rid0. split; [|done]. apply elem_of_app. right. by left.
    + split.
      { intros row' rid r [Hin|Hin%list_elem_of_singleton]%elem_of_app Hr;
          [by eapply Hok | subst row'; by rewrite Hrow in Hr]. }
      intros rid d. rewrite Hm. split.
      * intros (i & row' & Hi & Hrow' & Hlast). exists i, row'.
        split; [by apply lookup_app_l_Some|]. split; [done|].
        intros j row'' Hj Hj'.
        destruct (decide (j < length data)%nat) as [Hlt|Hge].
        -- rewrite lookup_app_l in Hj' by done. by eapply Hlast.
        -- assert (Hj'' := lookup_lt_Some _ _ _ Hj').
           rewrite length_app in Hj''. simpl in Hj''.
           assert (j = length data) as -> by lia.
           rewrite lookup_app_r, Nat.sub_diag in Hj' by lia.
           injection Hj' as <-. by rewrite Hrow.
      * intros (i & row' & Hi & Hrow' & Hlast).
        destruct (decide (i < length data)%nat) as [Hlt|Hge].
        -- exists i, row'. rewrite lookup_app_l in Hi by done.
           split; [done|]. split; [done|].
           intros j row'' Hj Hj'. apply (Hlast j row''); [done|].
           by apply lookup_app_l_Some.
        -- assert (Hi' := lookup_lt_Some _ _ _ Hi).
           rewrite length_app in Hi'. simpl in Hi'.
           assert (i = length data) as -> by lia.
           rewrite lookup_app_r, Nat.sub_diag in Hi by lia.
           injection Hi as <-. by rewrite Hrow in Hrow'.
Qed.
Lemma safe_json_extract_bracketed raw extracted :
  _safe_json_extract raw = Some extracted → bracketed extracted.
Proof.
  unfold _safe_json_extract. destruct raw as [|c raw]; [done|].
  set (s := if py_startswith _ _ then _ else _). clearbody s.
  destruct (negb (py_find 91 s =? -1) && negb (py_rfind 93 s =? -1)
            && (py_rfind 93 s >? py_find 91 s)) eqn:Harr.
  - intros [= <-]. left. by apply extract_between.
  - destruct (negb (py_find 123 s =? -1) && negb (py_rfind 125 s =? -1)
              && (py_rfind 125 s >? py_find 123 s)) eqn:Hobj; [|done].
    intros [= <-]. right. by apply extract_between.
Qed.

Lemma safe_json_extract_unfenced text :
  _safe_json_extract text =
    match text with
    | [] => None
    | _ =>
        let s := unfenced text in
        if cut_found 91 93 s
        then Some (py_strip (py_slice s (py_find 91 s) (py_rfind 93 s + 1)))
        else if cut_found 123 125 s
             then Some (py_strip (py_slice s (py_find 123 s) (py_rfind 125 s + 1)))
             else None
    end.
Proof. destruct text; reflexivity. Qed.

(** What [_safe_json_extract] returns is the extraction from the
    unfenced text. *)
Lemma safe_json_extract_extraction text :
  extraction_of (unfenced text) (_safe_json_extract text).
Proof.
  rewrite safe_json_extract_unfenced. destruct text as [|c text].
  { split; intros e He; apply cut_of_found in He; vm_compute in He; discriminate He. }
  cbv zeta. set (s := unfenced (c :: text)).
  destruct (cut_found 91 93 s) eqn:Harr.
  { left. by apply found_cut_of. }
  assert (Hno : ∀ e, ¬ cut_of 91 93 s e).
  { intros e He. apply cut_of_found in He. congruence. }
  destruct (cut_found 123 125 s) eqn:Hobj.
  { right. split; [done|]. by apply found_cut_of. }
  split; [done|]. intros e He. apply cut_of_found in He. congruence.
Qed.

(** C5, as the code has it. Response parsing: [_judge_batch] parses the
    text the service returned. The text is first unfenced: trimmed and,
    when it then starts with a code fence, freed of the backticks at its
    two ends, trimmed again, and freed of a first line that is a language
    tag. Of the unfenced text, what runs from the first [[] to the last
    []] is extracted, the prose before and after it left out; when no [[]
    stands before a []], what runs from the first [{] to the last [}];
    when nothing can be extracted, when the extract does not decode, or
    when it decodes to something other than an array, the batch raises.
    For an array, an element that is not an object or whose id is missing
    or blank after trimming contributes nothing; the batch raises when
    the score of a remaining element does not convert to an integer;
    otherwise the map holds under each id the decision of the last
    remaining element with that id. *)
Theorem response_parsing (chunk : list candidate) (mode : pystr)
    (log : list (list candidate)) :
  (_judge_batch chunk mode log).2 =
    match chat chunk mode with
    | Raise e => Raise e
    | Ok raw => parse_response raw
    end
  ∧ ∀ raw,
      extraction_of (unfenced raw) (_safe_json_extract raw)
      ∧ match _safe_json_extract raw with
        | None => parse_response raw = Raise (ValueError msg_no_json)
        | Some extracted =>
            match json_loads extracted with
            | Raise e => parse_response raw = Raise e
            | Ok (JArr data) =>
                match parse_response raw with
                | Ok m =>
                    (∀ row rid r, row ∈ data → row_entry row = Some (rid, r) →
                                  is_raise r = false)
                    ∧ ∀ rid d,
                        m !! rid = Some d ↔
                        ∃ i row, data !! i = Some row
                          ∧ row_entry row = Some (rid, Ok d)
                          ∧ ∀ j row', (i < j)%nat → data !! j = Some row' →
                              fst <$> row_entry row' ≠ Some rid
                | Raise e =>
                    ∃ row rid, row ∈ data ∧ row_entry row = Some (rid, Raise e)
                end
            | Ok _ => parse_response raw = Raise (ValueError msg_not_array)
            end
        end.
Proof.
  split.
  { rewrite judge_batch_run. unfold batch_outcome, _judge_batch, call_chat.
    unfold mbind, M_bind, bind, lift. simpl. destruct (chat chunk mode); done. }
  intros raw. split; [apply safe_json_extract_extraction|]. unfold parse_response.
  destruct (_safe_json_extract raw) as [extracted|] eqn:Hex; [|done].
  pose proof (safe_json_extract_bracketed raw extracted Hex) as Hbr.
  destruct extracted as [|c extracted]; [by destruct Hbr as [[? ?]|[? ?]]|].
  destruct (json_loads (c :: extracted)) as [v|e]; [|done].
  destruct v; try done. apply judge_rows.
Qed.

(** C7. Brief hygiene: every decision [_judge_batch] returns has a
    [brief] without line feed or carriage return and of at most 80
    characters. *)
Theorem brief_hygiene (chunk : list candidate) (mode : pystr)
    (log : list (list candidate)) (m : gmap pystr decision) (rid : pystr)
    (d : decision) :
  (_judge_batch chunk mode log).2 = Ok m → m !! rid = Some d →
  brief_ok (d_brief d).
Proof.
  rewrite judge_batch_run. unfold batch_outcome, _judge_batch, call_chat.
  unfold mbind, M_bind, bind, lift. simpl.
  destruct (chat chunk mode) as [raw|e]; [|done]. unfold parse_response.
  destruct (_safe_json_extract raw) as [[|c extracted]|]; [done| |done].
  destruct (json_loads (c :: extracted)) as [v|e]; [|done].
  destruct v; try done. cbn [snd]. intros Hm Hd.
  pose proof (judge_rows elems) as Hrows. rewrite Hm in Hrows.
  destruct Hrows as [_ Hrows]. apply Hrows in Hd as (i & row & _ & Hrow & _).
  by eapply row_entry_brief.
Qed.
End parsing.

(** ** The frame of the rewriter on the store *)

Section store_frame.
Implicit Types (h : gmap nat Store.obj) (l g t r : nat).

Lemma extends_refl h : Store.extends h h.
Proof.
  split; [done|]. intros l o Hl Hn. exfalso. apply Hn, elem_of_dom. eauto.
Qed.

Lemma extends_write (h0 : gmap nat Store.obj) h l o :
  Store.extends h0 h → l ∉ dom h0 → Forall (λ r, r ∉ dom h0) (Store.refs o) →
  Store.extends h0 (<[l := o]> h).
Proof.
  intros [Hsub Hcl] Hl Ho. split.
  - apply insert_subseteq_r; [by apply not_elem_of_dom | done].
  - intros l' o' Hl' Hn. destruct (decide (l = l')) as [->|Hne].
    + rewrite lookup_insert_eq in Hl'. by injection Hl' as <-.
    + rewrite lookup_insert_ne in Hl' by done. by eapply Hcl.
Qed.

Lemma extends_dom (h0 : gmap nat Store.obj) h l : Store.extends h0 h → l ∉ dom h → l ∉ dom h0.
Proof.
  intros [Hsub _] Hl Hl0. apply Hl. apply elem_of_dom in Hl0 as [o Ho].
  apply elem_of_dom. exists o. by eapply lookup_weaken.
Qed.

Lemma extends_alloc (h0 : gmap nat Store.obj) h o :
  Store.extends h0 h → Forall (λ r, r ∉ dom h0) (Store.refs o) →
  Store.extends h0 (Store.alloc o h).2 ∧ (Store.alloc o h).1 ∉ dom h0.
Proof.
  intros Hext Ho. unfold Store.alloc. simpl.
  assert (Hf : fresh (dom h) ∉ dom h0) by (eapply extends_dom; [done | apply is_fresh]).
  split; [by apply extends_write | done].
Qed.

Lemma extends_refs (h0 : gmap nat Store.obj) h l o :
  Store.extends h0 h → l ∉ dom h0 → h !! l = Some o →
  Forall (λ r, r ∉ dom h0) (Store.refs o).
Proof. intros [_ Hcl] Hl Ho. by eapply Hcl. Qed.

Lemma extends_list_at (h0 : gmap nat Store.obj) h ol :
  Store.extends h0 h → (∀ l, ol = Some l → l ∉ dom h0) →
  Forall (λ r, r ∉ dom h0) (Store.list_at h ol).
Proof.
  intros Hext Hol. unfold Store.list_at. destruct ol as [l|]; [|constructor].
  destruct (h !! l) as [[]|] eqn:Hl; try constructor.
  apply (extends_refs h0 h l (Store.OList refs)); auto.
Qed.

Lemma extends_group_titles (h0 : gmap nat Store.obj) h g t :
  Store.extends h0 h → g ∉ dom h0 → Store.group_titles h g = Some t → t ∉ dom h0.
Proof.
  intros Hext Hg. unfold Store.group_titles.
  destruct (h !! g) as [[]|] eqn:Hl; try done. intros ->.
  pose proof (extends_refs _ _ _ _ Hext Hg Hl) as Hr.
  by apply Forall_inv in Hr.
Qed.

Lemma extends_report_stats (h0 : gmap nat Store.obj) h r l :
  Store.extends h0 h → r ∉ dom h0 → Store.report_stats h r = Some l → l ∉ dom h0.
Proof.
  intros Hext Hr. unfold Store.report_stats.
  destruct (h !! r) as [[]|] eqn:Hl; try done. intros ->.
  pose proof (extends_refs _ _ _ _ Hext Hr Hl) as Hrefs.
  by apply Forall_inv in Hrefs.
Qed.

Lemma extends_report_new_titles (h0 : gmap nat Store.obj) h r l :
  Store.extends h0 h → r ∉ dom h0 → Store.report_new_titles h r = Some l → l ∉ dom h0.
Proof.
  intros Hext Hr. unfold Store.report_new_titles.
  destruct (h !! r) as [[]|] eqn:Hl; try done. intros ->.
  pose proof (extends_refs _ _ _ _ Hext Hr Hl) as Hrefs. simpl in Hrefs.
  apply Forall_app in Hrefs as [_ Hrefs]. by apply Forall_inv in Hrefs.
Qed.

(** Each write of the rewriter, when its target is new. *)

Lemma extends_set_brief_at (h0 : gmap nat Store.obj) h t b :
  Store.extends h0 h → t ∉ dom h0 → Store.extends h0 (Store.set_brief_at t b h).
Proof.
  intros Hext Ht. unfold Store.set_brief_at.
  destruct (h !! t) as [[]|]; try done. apply extends_write; [done..|constructor].
Qed.

Lemma extends_append_at (h0 : gmap nat Store.obj) h lst x :
  Store.extends h0 h → lst ∉ dom h0 → x ∉ dom h0 →
  Store.extends h0 (Store.append_at lst x h).
Proof.
  intros Hext Hl Hx. unfold Store.append_at.
  destruct (h !! lst) as [[]|] eqn:Hlst; try done. apply extends_write; [done..|].
  simpl. apply Forall_app. split; [|by apply Forall_singleton].
  apply (extends_refs _ _ _ _ Hext Hl Hlst).
Qed.

Lemma extends_set_titles_at (h0 : gmap nat Store.obj) h g titles :
  Store.extends h0 h → g ∉ dom h0 → titles ∉ dom h0 →
  Store.extends h0 (Store.set_titles_at g titles h).
Proof.
  intros Hext Hg Ht. unfold Store.set_titles_at.
  destruct (h !! g) as [[]|]; try done. apply extends_write; [done..|].
  simpl. by apply Forall_singleton.
Qed.

Lemma extends_set_count_at (h0 : gmap nat Store.obj) h g n :
  Store.extends h0 h → g ∉ dom h0 → Store.extends h0 (Store.set_count_at g n h).
Proof.
  intros Hext Hg. unfold Store.set_count_at.
  destruct (h !! g) as [[]|] eqn:Hl; try done. apply extends_write; [done..|].
  apply (extends_refs _ _ _ _ Hext Hg Hl).
Qed.

Lemma extends_set_stats_at (h0 : gmap nat Store.obj) h r l :
  Store.extends h0 h → r ∉ dom h0 → l ∉ dom h0 →
  Store.extends h0 (Store.set_stats_at r l h).
Proof.
  intros Hext Hr Hl. unfold Store.set_stats_at.
  destruct (h !! r) as [[]|] eqn:Hobj; try done. apply extends_write; [done..|].
  pose proof (extends_refs _ _ _ _ Hext Hr Hobj) as Hrefs. simpl in *.
  apply Forall_app in Hrefs as [_ Hrefs]. by constructor.
Qed.

Lemma extends_set_new_titles_at (h0 : gmap nat Store.obj) h r l :
  Store.extends h0 h → r ∉ dom h0 → l ∉ dom h0 →
  Store.extends h0 (Store.set_new_titles_at r l h).
Proof.
  intros Hext Hr Hl. unfold Store.set_new_titles_at.
  destruct (h !! r) as [[]|] eqn:Hobj; try done. apply extends_write; [done..|].
  pose proof (extends_refs _ _ _ _ Hext Hr Hobj) as Hrefs. simpl in *.
  apply Forall_app in Hrefs as [Hrefs _]. apply Forall_app.
  split; [done | by apply Forall_singleton].
Qed.

Lemma extends_set_total_at (h0 : gmap nat Store.obj) h r n :
  Store.extends h0 h → r ∉ dom h0 → Store.extends h0 (Store.set_total_at r n h).
Proof.
  intros Hext Hr. unfold Store.set_total_at.
  destruct (h !! r) as [[]|] eqn:Hobj; try done. apply extends_write; [done..|].
  apply (extends_refs _ _ _ _ Hext Hr Hobj).
Qed.
(** [copy.deepcopy] *)

Lemma memo_new_insert (h0 : gmap nat Store.obj) memo l l' :
  Store.memo_new h0 memo → l' ∉ dom h0 → Store.memo_new h0 (<[l := l']> memo).
Proof.
  intros Hm Hl' k k'. destruct (decide (l = k)) as [->|Hne].
  - rewrite lookup_insert_eq. by intros [= <-].
  - rewrite lookup_insert_ne by done. apply Hm.
Qed.

Lemma copy_entry_ok : Store.copier_ok Store.copy_entry.
Proof.
  intros h0 l [h memo] Hext Hmemo. unfold Store.copy_entry. simpl in *.
  destruct (memo !! l) as [l'|] eqn:Hl; simpl; [by eauto|].
  destruct (extends_alloc h0 h (Store.OEntry (Store.entry_at h l)) Hext)
    as [Hext' Hnew]; [constructor|].
  split; [done|]. split; [by apply memo_new_insert | done].
Qed.

Lemma copy_all_ok copy_one (h0 : gmap nat Store.obj) ls st :
  Store.copier_ok copy_one → Store.extends h0 st.1 → Store.memo_new h0 st.2 →
  Store.extends h0 (Store.copy_all copy_one ls st).2.1
  ∧ Store.memo_new h0 (Store.copy_all copy_one ls st).2.2
  ∧ Forall (λ r, r ∉ dom h0) (Store.copy_all copy_one ls st).1.
Proof.
  intros Hcopy Hext Hmemo. unfold Store.copy_all.
  assert (Hgen : ∀ acc : list nat * Store.state,
    Store.extends h0 acc.2.1 → Store.memo_new h0 acc.2.2 →
    Forall (λ r, r ∉ dom h0) acc.1 →
    let res := foldl (λ acc l, let '(l', st) := copy_one l acc.2 in (acc.1 ++ [l'], st))
                     acc ls in
    Store.extends h0 res.2.1 ∧ Store.memo_new h0 res.2.2
    ∧ Forall (λ r, r ∉ dom h0) res.1).
  { induction ls as [|l ls IH]; intros acc Ha Hb Hc; simpl; [done|].
    destruct (Hcopy h0 l acc.2 Ha Hb) as (Ha' & Hb' & Hc').
    destruct (copy_one l acc.2) as [l' st']. simpl in *.
    apply IH; simpl; [done..|]. apply Forall_app. split; [done|]. by constructor. }
  apply Hgen; simpl; [done..|constructor].
Qed.

Lemma copy_list_ok copy_one :
  Store.copier_ok copy_one → Store.copier_ok (Store.copy_list copy_one).
Proof.
  intros Hcopy h0 l [h memo] Hext Hmemo. unfold Store.copy_list. simpl in *.
  destruct (memo !! l) as [l'|] eqn:Hl; simpl; [by eauto|].
  destruct (extends_alloc h0 h (Store.OList []) Hext) as [Hext' Hnew]; [constructor|].
  unfold Store.alloc in *. simpl in *.
  pose proof (copy_all_ok copy_one h0
                (match h !! l with Some (Store.OList rs) => rs | _ => [] end)
                (<[fresh (dom h) := Store.OList []]> h, <[l := fresh (dom h)]> memo)
                Hcopy Hext' (memo_new_insert _ _ _ _ Hmemo Hnew)) as (Ha & Hb & Hc).
  destruct (Store.copy_all copy_one _ _) as [rs' [h' memo']]. simpl in *.
  split; [by apply extends_write|]. done.
Qed.

Lemma copy_opt_ok copy_one (h0 : gmap nat Store.obj) ol st :
  Store.copier_ok copy_one → Store.extends h0 st.1 → Store.memo_new h0 st.2 →
  Store.extends h0 (Store.copy_opt copy_one ol st).2.1
  ∧ Store.memo_new h0 (Store.copy_opt copy_one ol st).2.2
  ∧ Forall (λ r, r ∉ dom h0) (option_list (Store.copy_opt copy_one ol st).1).
Proof.
  intros Hcopy Hext Hmemo. unfold Store.copy_opt. destruct ol as [l|]; simpl.
  - destruct (Hcopy h0 l st Hext Hmemo) as (Ha & Hb & Hc).
    destruct (copy_one l st) as [l' st']. simpl in *.
    split; [done|]. split; [done|]. by constructor.
  - split; [done|]. split; [done|]. constructor.
Qed.

Lemma copy_group_ok : Store.copier_ok Store.copy_group.
Proof.
  intros h0 g [h memo] Hext Hmemo. unfold Store.copy_group. simpl in *.
  destruct (memo !! g) as [g'|] eqn:Hg; simpl; [by eauto|].
  destruct (h !! g) as [[e|word titles count rest|rs|? ? ? ?]|] eqn:Hobj.
  2:{ destruct (extends_alloc h0 h (Store.OGroup word None count rest) Hext)
        as [Hext' Hnew]; [constructor|].
      unfold Store.alloc in *. simpl in *.
      pose proof (copy_opt_ok (Store.copy_list Store.copy_entry) h0 titles
                    (<[fresh (dom h) := Store.OGroup word None count rest]> h,
                     <[g := fresh (dom h)]> memo)
                    (copy_list_ok _ copy_entry_ok) Hext'
                    (memo_new_insert _ _ _ _ Hmemo Hnew)) as (Ha & Hb & Hc).
      destruct (Store.copy_opt _ _ _) as [titles' [h' memo']]. simpl in *.
      split; [by apply extends_write|]. done. }
  all: destruct (extends_alloc h0 h (Store.OGroup None None None ∅) Hext)
         as [Hext' Hnew]; [constructor|];
       unfold Store.alloc in *; simpl in *;
       (split; [done|]); (split; [by apply memo_new_insert | done]).
Qed.

Lemma copy_report_ok : Store.copier_ok Store.copy_report.
Proof.
  intros h0 r [h memo] Hext Hmemo. unfold Store.copy_report. simpl in *.
  destruct (memo !! r) as [r'|] eqn:Hr; simpl; [by eauto|].
  destruct (h !! r) as [[e|? ? ? ?|rs|stats new_titles total rest]|] eqn:Hobj.
  4:{ destruct (extends_alloc h0 h (Store.OReport None None total rest) Hext)
        as [Hext' Hnew]; [constructor|].
      unfold Store.alloc in *. simpl in *.
      pose proof (copy_opt_ok (Store.copy_list Store.copy_group) h0 stats
                    (<[fresh (dom h) := Store.OReport None None total rest]> h,
                     <[r := fresh (dom h)]> memo)
                    (copy_list_ok _ copy_group_ok) Hext'
                    (memo_new_insert _ _ _ _ Hmemo Hnew)) as (Ha & Hb & Hc).
      destruct (Store.copy_opt _ stats _) as [stats' st']. simpl in *.
      pose proof (copy_opt_ok (Store.copy_list Store.copy_group) h0 new_titles st'
                    (copy_list_ok _ copy_group_ok) Ha Hb) as (Ha' & Hb' & Hc').
      destruct (Store.copy_opt _ new_titles _) as [new_titles' [h' memo']]. simpl in *.
      split; [|done]. apply extends_write; [done..|]. simpl.
      by apply Forall_app. }
  all: destruct (extends_alloc h0 h (Store.OReport None None None ∅) Hext)
         as [Hext' Hnew]; [constructor|];
       unfold Store.alloc in *; simpl in *;
       (split; [done|]); (split; [by apply memo_new_insert | done]).
Qed.

Lemma deepcopy_ok copy_one (h0 : gmap nat Store.obj) l h :
  Store.copier_ok copy_one → Store.extends h0 h →
  Store.extends h0 (Store.deepcopy copy_one l h).2
  ∧ (Store.deepcopy copy_one l h).1 ∉ dom h0.
Proof.
  intros Hcopy Hext. unfold Store.deepcopy.
  destruct (Hcopy h0 l (h, ∅)) as (Ha & _ & Hc); [done| |].
  { intros k k' Hk. simpl in Hk. by rewrite lookup_empty in Hk. }
  destruct (copy_one l (h, ∅)) as [l' st]. done.
Qed.

(** The loops *)

Lemma foldl_enumerate_inv {A S} (P : S → Prop) (Q : A → Prop)
    (f : S → nat * A → S) (xs : list A) (s : S) :
  (∀ s p, P s → Q p.2 → P (f s p)) → Forall Q xs → P s →
  P (foldl f s (enumerate xs)).
Proof.
  intros Hstep. unfold enumerate. generalize 0%nat. revert s.
  induction xs as [|x xs IH]; intros s i Hxs Hs; simpl; [done|].
  apply Forall_cons in Hxs as [Hx Hxs]. apply IH; [done|]. by apply Hstep.
Qed.

Lemma keep_titles_ok (h0 : gmap nat Store.obj) section keep_ids decisions gi titles h :
  Store.extends h0 h → Forall (λ r, r ∉ dom h0) titles →
  Store.extends h0 (Store.keep_titles section keep_ids decisions gi titles h).2
  ∧ (Store.keep_titles section keep_ids decisions gi titles h).1 ∉ dom h0.
Proof.
  intros Hext Htitles. unfold Store.keep_titles.
  destruct (extends_alloc h0 h (Store.OList []) Hext) as [Hext' Hnew]; [constructor|].
  destruct (Store.alloc (Store.OList []) h) as [kept h']. cbn [fst snd] in *.
  split; [|done].
  apply (foldl_enumerate_inv (Store.extends h0) (λ r, r ∉ dom h0)); [|done..].
  intros s [ti t] Hs Ht. cbn [fst snd] in *.
  case_bool_decide; [|done]. apply extends_append_at; [|done..].
  destruct (decisions !! mk_id section gi ti) as [d|]; [|done].
  destruct (d_brief d); [done|]. by apply extends_set_brief_at.
Qed.

Lemma rewrite_groups_ok (h0 : gmap nat Store.obj) section counted keep_ids decisions
    groups h :
  Store.extends h0 h → Forall (λ r, r ∉ dom h0) groups →
  Store.extends h0 (Store.rewrite_groups section counted keep_ids decisions groups h).2
  ∧ (Store.rewrite_groups section counted keep_ids decisions groups h).1 ∉ dom h0.
Proof.
  intros Hext Hgroups. unfold Store.rewrite_groups.
  destruct (extends_alloc h0 h (Store.OList []) Hext) as [Hext' Hnew]; [constructor|].
  destruct (Store.alloc (Store.OList []) h) as [new_groups h']. cbn [fst snd] in *.
  split; [|done].
  apply (foldl_enumerate_inv (Store.extends h0) (λ r, r ∉ dom h0)); [|done..].
  intros s [gi g] Hs Hg. cbn [fst snd] in *.
  destruct (keep_titles_ok h0 section keep_ids decisions gi
              (Store.list_at s (Store.group_titles s g)) s Hs)
    as [Hext'' Hkept].
  { apply extends_list_at; [done|]. intros t. by apply extends_group_titles. }
  destruct (Store.keep_titles _ _ _ _ _ _) as [kept s']. cbn [fst snd] in *.
  destruct (Store.list_at s' (Some kept)); [done|].
  apply extends_append_at; [|done..].
  destruct counted; [apply extends_set_count_at; [|done]|];
    by apply extends_set_titles_at.
Qed.

Lemma copy_if_any_ok (h0 : gmap nat Store.obj) x h :
  Store.extends h0 h →
  Store.extends h0 (Store.copy_if_any x h).2
  ∧ ∀ l, (Store.copy_if_any x h).1 = Some l → l ∉ dom h0.
Proof.
  intros Hext. unfold Store.copy_if_any. destruct x as [l|]; [|done].
  destruct (Store.list_at h (Some l)); [done|].
  destruct (deepcopy_ok (Store.copy_list Store.copy_group) h0 l h) as [Ha Hb];
    [apply copy_list_ok, copy_group_ok | done |].
  destruct (Store.deepcopy _ l h) as [l' h']. simpl in *.
  split; [done|]. by intros ? [= <-].
Qed.

Lemma rewrite_opt_ok (h0 : gmap nat Store.obj) section keep_ids decisions x h :
  Store.extends h0 h → (∀ l, x = Some l → l ∉ dom h0) →
  Store.extends h0 (Store.rewrite_opt section keep_ids decisions x h).2.
Proof.
  intros Hext Hx. unfold Store.rewrite_opt. destruct x as [l|]; [|done].
  destruct (rewrite_groups_ok h0 section true keep_ids decisions
              (Store.list_at h (Some l)) h Hext) as [Ha _].
  { by apply extends_list_at. }
  destruct (Store.rewrite_groups _ _ _ _ _ _) as [l' h']. done.
Qed.

Lemma apply_kept_ids_extends h report_data rss_items rss_new_items keep_ids pointers
    decisions :
  Store.extends h
    (Store._apply_kept_ids report_data rss_items rss_new_items keep_ids pointers
       decisions h).2.
Proof.
  unfold Store._apply_kept_ids.
  destruct (deepcopy_ok Store.copy_report h report_data h copy_report_ok (extends_refl h))
    as [H1 Hr].
  destruct (Store.deepcopy Store.copy_report report_data h) as [r h1]. cbn [fst snd] in *.
  destruct (copy_if_any_ok h rss_items h1 H1) as [H2 Ha].
  destruct (Store.copy_if_any rss_items h1) as [a h2]. cbn [fst snd] in *.
  destruct (copy_if_any_ok h rss_new_items h2 H2) as [H3 Hb].
  destruct (Store.copy_if_any rss_new_items h2) as [b h3]. cbn [fst snd] in *.
  destruct (rewrite_groups_ok h hot_stats true keep_ids decisions
              (Store.list_at h3 (Store.report_stats h3 r)) h3 H3) as [H4 Hs].
  { apply extends_list_at; [done|]. intros l. by apply extends_report_stats. }
  destruct (Store.rewrite_groups hot_stats _ _ _ _ _) as [new_stats h4]. cbn [fst snd] in *.
  pose proof (extends_set_stats_at h h4 r new_stats H4 Hr Hs) as H5.
  set (h5 := Store.set_stats_at r new_stats h4) in *.
  destruct (rewrite_groups_ok h hot_new false keep_ids decisions
              (Store.list_at h5 (Store.report_new_titles h5 r)) h5 H5) as [H6 Hn].
  { apply extends_list_at; [done|]. intros l. by apply extends_report_new_titles. }
  destruct (Store.rewrite_groups hot_new _ _ _ _ _) as [new_sources h6]. cbn [fst snd] in *.
  pose proof (extends_set_new_titles_at h h6 r new_sources H6 Hr Hn) as H7.
  set (h7 := Store.set_new_titles_at r new_sources h6) in *.
  pose proof (extends_set_total_at h h7 r
                (Store.sum_titles h7 (Store.list_at h7 (Some new_sources))) H7 Hr) as H8.
  set (h8 := Store.set_total_at r _ h7) in *.
  pose proof (rewrite_opt_ok h rss_stats keep_ids decisions a h8 H8 Ha) as H9.
  destruct (Store.rewrite_opt rss_stats keep_ids decisions a h8) as [a' h9] eqn:E9.
  cbn [fst snd] in *.
  assert (Ha' : ∀ l, b = Some l → l ∉ dom h) by done.
  pose proof (rewrite_opt_ok h rss_new keep_ids decisions b h9 H9 Ha') as H10.
  destruct (Store.rewrite_opt rss_new keep_ids decisions b h9) as [b' h10]. done.
Qed.
End store_frame.

(** ** The caller's objects *)

Section store_values.
Implicit Types (h : gmap nat Store.obj) (l g t r : nat).

Lemma closed_refs h l o r :
  Store.closed h → h !! l = Some o → r ∈ Store.refs o → r ∈ dom h.
Proof.
  intros Hc Hl Hr. specialize (Hc l o Hl). simpl in Hc.
  rewrite Forall_forall in Hc. by apply Hc.
Qed.

Lemma lookup_frame h (h' : gmap nat Store.obj) l :
  h ⊆ h' → l ∈ dom h → h' !! l = h !! l.
Proof.
  intros Hsub [o Ho]%elem_of_dom. rewrite Ho. by eapply lookup_weaken.
Qed.

Lemma entry_at_frame h (h' : gmap nat Store.obj) l :
  h ⊆ h' → l ∈ dom h → Store.entry_at h' l = Store.entry_at h l.
Proof. intros Hsub Hl. unfold Store.entry_at. by rewrite (lookup_frame h h' l). Qed.

Lemma list_at_frame h (h' : gmap nat Store.obj) l :
  h ⊆ h' → l ∈ dom h → Store.list_at h' (Some l) = Store.list_at h (Some l).
Proof. intros Hsub Hl. unfold Store.list_at. by rewrite (lookup_frame h h' l). Qed.

Lemma list_at_closed h l r :
  Store.closed h → r ∈ Store.list_at h (Some l) → r ∈ dom h.
Proof.
  intros Hc. unfold Store.list_at.
  destruct (h !! l) as [[]|] eqn:Hl; try by intros ?%elem_of_nil.
  intros Hr. by eapply (closed_refs h l (Store.OList refs)).
Qed.

Lemma group_value_frame h (h' : gmap nat Store.obj) g :
  h ⊆ h' → Store.closed h → g ∈ dom h →
  Store.group_value h' g = Store.group_value h g.
Proof.
  intros Hsub Hc Hg. unfold Store.group_value. rewrite (lookup_frame h h' g) by done.
  destruct (h !! g) as [[e|word titles count rest|rs|? ? ? ?]|] eqn:Hobj; try done.
  f_equal. destruct titles as [t|]; [|done].
  change (Some (Store.entry_at h' <$> Store.list_at h' (Some t))
          = Some (Store.entry_at h <$> Store.list_at h (Some t))).
  f_equal.
  assert (Ht : t ∈ dom h).
  { eapply closed_refs; [done..|]. simpl. apply list_elem_of_here. }
  rewrite (list_at_frame h h' t) by done.
  apply list_fmap_ext. intros i e He. apply entry_at_frame; [done|].
  eapply list_at_closed; [done|]. by eapply list_elem_of_lookup_2.
Qed.

Lemma collection_value_frame h (h' : gmap nat Store.obj) ol :
  h ⊆ h' → Store.closed h → (∀ l, ol = Some l → l ∈ dom h) →
  Store.collection_value h' ol = Store.collection_value h ol.
Proof.
  intros Hsub Hc Hol. unfold Store.collection_value.
  destruct ol as [l|]; [|done].
  change (Some (Store.group_value h' <$> Store.list_at h' (Some l))
          = Some (Store.group_value h <$> Store.list_at h (Some l))).
  f_equal.
  rewrite (list_at_frame h h' l) by auto.
  apply list_fmap_ext. intros i g Hg. apply group_value_frame; [done..|].
  eapply list_at_closed; [done|]. by eapply list_elem_of_lookup_2.
Qed.

Lemma report_value_frame h (h' : gmap nat Store.obj) r :
  h ⊆ h' → Store.closed h → r ∈ dom h →
  Store.report_value h' r = Store.report_value h r.
Proof.
  intros Hsub Hc Hr. unfold Store.report_value. rewrite (lookup_frame h h' r) by done.
  destruct (h !! r) as [[e|? ? ? ?|rs|stats new_titles total rest]|] eqn:Hobj; try done.
  f_equal; apply collection_value_frame; try done.
  - intros l ->. eapply closed_refs; [done..|]. simpl. apply list_elem_of_here.
  - intros l ->. eapply closed_refs; [done..|]. simpl.
    apply elem_of_app. right. apply list_elem_of_here.
Qed.
End store_values.

Section no_mutation.
Context `{Runtime}.

(** C9. No mutation of caller data: whatever path [filter_before_send]
    takes, every object of the caller's store is in the store the call
    leaves exactly as it was; so, in a store without dangling locations,
    [report_data], [rss_items] and [rss_new_items] stand for the same
    values after the call as before. *)
Theorem no_caller_mutation (self : AIQualityGate) (report_data : nat) (mode : pystr)
    (rss_items rss_new_items : option nat) (h : gmap nat Store.obj)
    (log : list (list candidate)) :
  ∃ out h',
    (Store.filter_before_send self report_data mode rss_items rss_new_items h log).2
      = Ok (out, h')
    ∧ h ⊆ h'
    ∧ (Store.closed h → report_data ∈ dom h →
       (∀ l, rss_items = Some l → l ∈ dom h) →
       (∀ l, rss_new_items = Some l → l ∈ dom h) →
       Store.report_value h' report_data = Store.report_value h report_data
       ∧ Store.collection_value h' rss_items = Store.collection_value h rss_items
       ∧ Store.collection_value h' rss_new_items
         = Store.collection_value h rss_new_items).
Proof.
  assert (Hframe : ∀ out h',
    (Store.filter_before_send self report_data mode rss_items rss_new_items h log).2
      = Ok (out, h') → h ⊆ h').
  { unfold Store.filter_before_send. destruct (enabled self); cbn [negb].
    2:{ intros out h' [= _ <-]. done. }
    destruct (bool_decide _ && bool_decide _).
    { intros out h' [= _ <-]. done. }
    destruct (_collect_candidates _ _ _) as [items pointers].
    destruct items as [|it items].
    { intros out h' [= _ <-]. done. }
    unfold mbind, M_bind, bind, try_.
    destruct (_judge_in_batches self _ mode log) as [log' [decisions|e]]; cbn [fst snd].
    2:{ intros out h' [= _ <-]. done. }
    pose proof (apply_kept_ids_extends h report_data rss_items rss_new_items
                  (merge_decisions self (it :: items) decisions) pointers decisions)
      as [Hsub _].
    destruct (Store._apply_kept_ids _ _ _ _ _ _ _) as [filtered h1].
    intros out h' [= _ <-]. done. }
  destruct ((Store.filter_before_send self report_data mode rss_items rss_new_items
               h log).2) as [[out h']|e] eqn:Hrun.
  - exists out, h'. split; [done|]. split; [by eapply Hframe|].
    intros Hc Hr Ha Hb. pose proof (Hframe out h' eq_refl) as Hsub.
    split; [by apply report_value_frame|].
    split; by apply collection_value_frame.
  - exfalso. revert Hrun. unfold Store.filter_before_send.
    destruct (enabled self); cbn [negb]; [|done].
    destruct (bool_decide _ && bool_decide _); [done|].
    destruct (_collect_candidates _ _ _) as [items pointers].
    destruct items as [|it items]; [done|].
    unfold mbind, M_bind, bind, try_.
    destruct (_judge_in_batches self _ mode log) as [log' [decisions|e']];
      cbn [fst snd]; [|done].
    destruct (Store._apply_kept_ids _ _ _ _ _ _ _) as [filtered h1]. done.
Qed.
End no_mutation.

(** ** The rewriter on the store and the rewriter on values

    On arguments none of which holds an object at two places, the
    rewriter on the store returns objects that stand for the values the
    rewriter on values computes: [copy.deepcopy] yields three disjoint
    collections in which no object occurs twice, and each loop then
    writes into the groups of its own collection only. *)

(** The projections of the shapes, unfolded. *)
Ltac shape_simpl :=
  cbn [Store.value Store.fp Store.typed Store.opt_shape Store.list_shape
       Store.entry_shape Store.group_shape Store.groups_shape Store.report_shape] in *.

(** Membership in a footprint put together from parts. *)
Ltac in_parts :=
  intros; rewrite ?elem_of_app, ?list_elem_of_singleton, ?elem_of_cons, ?elem_of_nil in *;
  intuition (subst; eauto).

Section store_shapes.
Implicit Types (h : gmap nat Store.obj) (m : gmap nat nat).
Implicit Types (section : pystr) (keep_ids : gset pystr) (decisions : gmap pystr decision).
Implicit Types (counted : bool).

Lemma shape_ok_weaken {R V} (s : Store.shape R V) h h' x :
  Store.shape_ok s → Store.typed s h x → h ⊆ h' →
  Store.fp s h' x = Store.fp s h x ∧ Store.value s h' x = Store.value s h x
  ∧ Store.typed s h' x.
Proof.
  intros [Hdom Hagree] Ht Hsub.
  destruct (Hagree h h' x) as (Hfp & Hv & Hty).
  - intros l Hl. apply Hdom in Hl; [|done].
    apply elem_of_dom in Hl as [o Ho]. rewrite Ho. by eapply lookup_weaken.
  - auto.
Qed.

Lemma shape_ok_frame {R V} (s : Store.shape R V) h h' S x :
  Store.shape_ok s → Store.typed s h x → Store.changes_within h h' S →
  (∀ l, l ∈ Store.fp s h x → l ∉ S) →
  Store.fp s h' x = Store.fp s h x ∧ Store.value s h' x = Store.value s h x
  ∧ Store.typed s h' x.
Proof.
  intros [Hdom Hagree] Ht [_ Hch] Hdisj.
  destruct (Hagree h h' x) as (Hfp & Hv & Hty); [|by auto].
  intros l Hl. apply Hch; [by eapply Hdom | by apply Hdisj].
Qed.

Lemma entry_shape_ok : Store.shape_ok Store.entry_shape.
Proof.
  split.
  - intros h t l [e He] Hl. apply list_elem_of_singleton in Hl as ->.
    apply elem_of_dom. eauto.
  - intros h h' t Hag. cbn. unfold Store.entry_fp, Store.entry_at, Store.entry_typed.
    rewrite (Hag t) by (apply list_elem_of_singleton; done). done.
Qed.

Lemma list_shape_ok {V} (s : Store.shape nat V) :
  Store.shape_ok s → Store.shape_ok (Store.list_shape s).
Proof.
  intros [Hdom Hagree]. split.
  - intros h x l [[rs Hrs] Hall] Hl. cbn in Hl. unfold Store.list_fp in Hl.
    apply elem_of_cons in Hl as [->|Hl]; [apply elem_of_dom; eauto|].
    apply list_elem_of_bind in Hl as (y & Hl & Hy).
    rewrite Forall_forall in Hall. eapply Hdom; eauto.
  - intros h h' x Hag. cbn in *. unfold Store.list_fp, Store.list_typed in *.
    assert (Hx : h' !! x = h !! x) by (apply Hag; left).
    assert (Hl : Store.list_at h' (Some x) = Store.list_at h (Some x)).
    { unfold Store.list_at. by rewrite Hx. }
    rewrite Hl, Hx.
    assert (Hel : ∀ y, y ∈ Store.list_at h (Some x) →
      Store.fp s h' y = Store.fp s h y ∧ Store.value s h' y = Store.value s h y
      ∧ (Store.typed s h y → Store.typed s h' y)).
    { intros y Hy. apply Hagree. intros l Hl'. apply Hag. right.
      apply list_elem_of_bind. eauto. }
    split_and!.
    + f_equal. apply Forall_bind_ext, Forall_forall. intros y Hy. by apply Hel.
    + apply list_fmap_ext. intros i y Hy. apply Hel. by eapply list_elem_of_lookup_2.
    + intros [Hrs Hall]. split; [done|].
      rewrite Forall_forall in *. intros y Hy. apply Hel; auto.
Qed.

Lemma opt_shape_ok {V} (s : Store.shape nat V) :
  Store.shape_ok s → Store.shape_ok (Store.opt_shape s).
Proof.
  intros [Hdom Hagree]. split.
  - intros h [x|] l; cbn; [apply Hdom | by intros _ ?%elem_of_nil].
  - intros h h' [x|] Hag; cbn in *; [|done].
    destruct (Hagree h h' x Hag) as (-> & -> & ?). done.
Qed.

Lemma group_shape_ok : Store.shape_ok Store.group_shape.
Proof.
  pose proof (opt_shape_ok _ (list_shape_ok _ entry_shape_ok)) as [Hdom Hagree].
  split.
  - intros h g l [(w & t & c & r & Hg) Hty] Hl. cbn in Hl. unfold Store.group_fp in Hl.
    apply elem_of_cons in Hl as [->|Hl]; [apply elem_of_dom; eauto|].
    eapply Hdom; [exact Hty | exact Hl].
  - intros h h' g Hag. shape_simpl.
    unfold Store.group_fp, Store.group_typed, Store.group_value, Store.group_titles in *.
    rewrite (Hag g) by left.
    destruct (Hagree h h' (match h !! g with
                           | Some (Store.OGroup _ titles _ _) => titles
                           | _ => None
                           end)) as (Hfp & Hv & Hty).
    { intros l Hl. apply Hag. by right. }
    shape_simpl. rewrite Hfp. split_and!; [done| |].
    + destruct (h !! g) as [[]|]; try done. by rewrite Hv.
    + intros [? ?]. split; [done|]. by apply Hty.
Qed.

Lemma groups_shape_ok : Store.shape_ok Store.groups_shape.
Proof. apply opt_shape_ok, list_shape_ok, group_shape_ok. Qed.

Lemma report_shape_ok : Store.shape_ok Store.report_shape.
Proof.
  pose proof groups_shape_ok as [Hdom Hagree].
  split.
  - intros h r l [(st & nt & c & rest & Hr) [Hty1 Hty2]] Hl. cbn in Hl.
    unfold Store.report_fp in Hl.
    apply elem_of_cons in Hl as [->|Hl]; [apply elem_of_dom; eauto|].
    apply elem_of_app in Hl as [Hl|Hl]; (eapply Hdom; [|exact Hl]); done.
  - intros h h' r Hag. shape_simpl.
    unfold Store.report_fp, Store.report_typed, Store.report_value,
      Store.report_stats, Store.report_new_titles in *.
    rewrite (Hag r) by left.
    destruct (Hagree h h' (match h !! r with
                           | Some (Store.OReport stats _ _ _) => stats
                           | _ => None
                           end)) as (Hfp1 & Hv1 & Hty1).
    { intros l Hl. apply Hag. right. apply elem_of_app. by left. }
    destruct (Hagree h h' (match h !! r with
                           | Some (Store.OReport _ new_titles _ _) => new_titles
                           | _ => None
                           end)) as (Hfp2 & Hv2 & Hty2).
    { intros l Hl. apply Hag. right. apply elem_of_app. by right. }
    shape_simpl. rewrite Hfp1, Hfp2. split_and!; [done| |].
    + destruct (h !! r) as [[]|]; try done.
      unfold Store.collection_value. by rewrite Hv1, Hv2.
    + intros (? & ? & ?). split_and!; auto.
Qed.

(** ** The copiers *)

Lemma insert_subseteq_new h h' l (o : Store.obj) :
  h ⊆ h' → l ∉ dom h → h ⊆ <[l := o]> h'.
Proof.
  intros Hsub Hl. apply map_subseteq_spec. intros i x Hi.
  rewrite lookup_insert_ne; [by eapply lookup_weaken|].
  intros ->. apply Hl, elem_of_dom. eauto.
Qed.

Lemma copy_entry_copies : Store.copies Store.entry_shape Store.copy_entry.
Proof.
  intros t h m [e He] _ Hm. unfold Store.copy_entry, Store.alloc. cbn [fst snd].
  rewrite (Hm t) by (by apply list_elem_of_singleton).
  eexists _, _, _. split; [reflexivity|].
  pose proof (is_fresh (dom h)) as Hf. shape_simpl.
  unfold Store.entry_fp, Store.entry_typed, Store.entry_at.
  rewrite lookup_insert_eq, He. split_and!.
  - apply insert_subseteq. by apply not_elem_of_dom.
  - eauto.
  - apply NoDup_singleton.
  - intros l ->%list_elem_of_singleton. done.
  - done.
  - intros l Hl. apply lookup_insert_ne. intros ->. by apply Hl, list_elem_of_singleton.
Qed.

Lemma copy_all_snoc copy_one ls l st :
  Store.copy_all copy_one (ls ++ [l]) st =
    let '(ls', st1) := Store.copy_all copy_one ls st in
    let '(l', st2) := copy_one l st1 in (ls' ++ [l'], st2).
Proof.
  unfold Store.copy_all. rewrite foldl_snoc.
  destruct (foldl _ _ ls) as [ls' st1]. cbn [fst snd]. done.
Qed.

Lemma copy_all_copies {V} (s : Store.shape nat V) copy_one ls h m :
  Store.shape_ok s → Store.copies s copy_one →
  Forall (Store.typed s h) ls → NoDup (ls ≫= Store.fp s h) →
  (∀ l, l ∈ ls ≫= Store.fp s h → m !! l = None) →
  ∃ ls' h' m',
    Store.copy_all copy_one ls (h, m) = (ls', (h', m'))
    ∧ h ⊆ h' ∧ Forall (Store.typed s h') ls' ∧ NoDup (ls' ≫= Store.fp s h')
    ∧ (∀ l, l ∈ ls' ≫= Store.fp s h' → l ∉ dom h)
    ∧ Store.value s h' <$> ls' = Store.value s h <$> ls
    ∧ ∀ l, l ∉ ls ≫= Store.fp s h → m' !! l = m !! l.
Proof.
  intros Hok Hcopy. induction ls as [|l ls IH] using rev_ind; intros Hty Hnd Hm.
  { exists [], h, m.
    split_and!; [done | done | constructor | constructor
                | by intros ? ?%elem_of_nil | done | done]. }
  apply Forall_app in Hty as [Hty Htl]. rewrite Forall_singleton in Htl.
  rewrite bind_app, bind_singleton in Hnd, Hm.
  apply NoDup_app in Hnd as (Hnd & Hdisj & Hndl).
  destruct IH as (ls' & h1 & m1 & Hrun & Hsub & Hty1 & Hnd1 & Hnew1 & Hv1 & Hm1);
    [done | done | intros x Hx; apply Hm, elem_of_app; by left |].
  destruct (shape_ok_weaken s h h1 l Hok Htl Hsub) as (Hfpl & Hvl & Htl1).
  destruct (Hcopy l h1 m1) as (l' & h2 & m2 & Hrun2 & Hsub2 & Hty2 & Hnd2 & Hnew2 & Hv2 & Hm2).
  { done. }
  { by rewrite Hfpl. }
  { intros x Hx. rewrite Hfpl in Hx. rewrite Hm1; [apply Hm, elem_of_app; by right|].
    intros Hx'. by apply (Hdisj x). }
  exists (ls' ++ [l']), h2, m2.
  assert (Hold : ∀ y, y ∈ ls' →
    Store.fp s h2 y = Store.fp s h1 y ∧ Store.value s h2 y = Store.value s h1 y
    ∧ Store.typed s h2 y).
  { intros y Hy. apply shape_ok_weaken; [done| |done].
    rewrite Forall_forall in Hty1. by apply Hty1. }
  assert (Hbind : ls' ≫= Store.fp s h2 = ls' ≫= Store.fp s h1).
  { apply Forall_bind_ext, Forall_forall. intros y Hy. by apply Hold. }
  split_and!.
  - rewrite copy_all_snoc, Hrun, Hrun2. done.
  - by etrans.
  - apply Forall_app. split; [|by rewrite Forall_singleton].
    apply Forall_forall. intros y Hy. by apply Hold.
  - rewrite bind_app, bind_singleton, Hbind. apply NoDup_app. split_and!; [done| |done].
    intros x Hx Hx2. apply Hnew2 in Hx2. apply Hx2.
    apply list_elem_of_bind in Hx as (y & Hx & Hy).
    rewrite Forall_forall in Hty1. destruct Hok as [Hdom _].
    apply (Hdom h1 y x); [by apply Hty1 | done].
  - intros x. rewrite bind_app, bind_singleton, Hbind, elem_of_app. intros [Hx|Hx].
    + by apply Hnew1.
    + intros Hd. apply (Hnew2 x Hx). by apply (subseteq_dom _ _ Hsub).
  - rewrite !fmap_app. cbn. rewrite Hv2, Hvl, <- Hv1. f_equal.
    apply list_fmap_ext. intros i y Hy. apply Hold. by eapply list_elem_of_lookup_2.
  - intros x Hx. rewrite bind_app, bind_singleton, elem_of_app in Hx.
    rewrite Hm2 by (rewrite Hfpl; tauto). apply Hm1. tauto.
Qed.

Lemma copy_list_copies {V} (s : Store.shape nat V) copy_one :
  Store.shape_ok s → Store.copies s copy_one →
  Store.copies (Store.list_shape s) (Store.copy_list copy_one).
Proof.
  intros Hok Hcopy l h m [[rs Hrs] Hty] Hnd Hm. shape_simpl.
  unfold Store.list_fp, Store.list_typed in *.
  assert (Hat : Store.list_at h (Some l) = rs) by (unfold Store.list_at; by rewrite Hrs).
  rewrite Hat in *. apply NoDup_cons in Hnd as [Hl Hnd].
  unfold Store.copy_list, Store.alloc. cbn [fst snd].
  rewrite (Hm l) by left. rewrite Hat.
  pose proof (is_fresh (dom h)) as Hf. set (l' := fresh (dom h)) in *.
  assert (Hsub1 : h ⊆ <[l' := Store.OList []]> h)
    by (apply insert_subseteq; by apply not_elem_of_dom).
  assert (Hel : ∀ y, y ∈ rs →
    Store.fp s (<[l' := Store.OList []]> h) y = Store.fp s h y
    ∧ Store.value s (<[l' := Store.OList []]> h) y = Store.value s h y
    ∧ Store.typed s (<[l' := Store.OList []]> h) y).
  { intros y Hy. apply shape_ok_weaken; [done| |done].
    rewrite Forall_forall in Hty. by apply Hty. }
  assert (Hbind : rs ≫= Store.fp s (<[l' := Store.OList []]> h) = rs ≫= Store.fp s h).
  { apply Forall_bind_ext, Forall_forall. intros y Hy. by apply Hel. }
  destruct (copy_all_copies s copy_one rs (<[l' := Store.OList []]> h) (<[l := l']> m)
              Hok Hcopy)
    as (rs' & h2 & m2 & Hrun & Hsub2 & Hty2 & Hnd2 & Hnew2 & Hv2 & Hm2).
  { apply Forall_forall. intros y Hy. by apply Hel. }
  { by rewrite Hbind. }
  { intros x Hx. rewrite Hbind in Hx. rewrite lookup_insert_ne by (intros ->; done).
    apply Hm. by right. }
  rewrite Hrun. cbn [fst snd]. eexists _, _, _. split; [reflexivity|].
  assert (Hl'2 : l' ∈ dom h2).
  { apply (subseteq_dom _ _ Hsub2), elem_of_dom. rewrite lookup_insert_eq. eauto. }
  assert (Hnl' : l' ∉ rs' ≫= Store.fp s h2).
  { intros Hx. apply Hnew2 in Hx. apply Hx, elem_of_dom. rewrite lookup_insert_eq. eauto. }
  assert (Hag : ∀ y, y ∈ rs' →
    Store.fp s (<[l' := Store.OList rs']> h2) y = Store.fp s h2 y
    ∧ Store.value s (<[l' := Store.OList rs']> h2) y = Store.value s h2 y
    ∧ Store.typed s (<[l' := Store.OList rs']> h2) y).
  { intros y Hy. destruct Hok as [Hdom Hagree].
    destruct (Hagree h2 (<[l' := Store.OList rs']> h2) y) as (? & ? & Hty').
    - intros x Hx. apply lookup_insert_ne. intros <-. apply Hnl'.
      apply list_elem_of_bind. eauto.
    - split_and!; [done..|]. apply Hty'. rewrite Forall_forall in Hty2. by apply Hty2. }
  assert (Hbind2 : rs' ≫= Store.fp s (<[l' := Store.OList rs']> h2) = rs' ≫= Store.fp s h2).
  { apply Forall_bind_ext, Forall_forall. intros y Hy. by apply Hag. }
  assert (Hat' : Store.list_at (<[l' := Store.OList rs']> h2) (Some l') = rs').
  { unfold Store.list_at. by rewrite lookup_insert_eq. }
  rewrite Hat', Hbind2. split_and!.
  - apply insert_subseteq_new; [by etrans | done].
  - rewrite lookup_insert_eq; eauto.
  - apply Forall_forall. intros y Hy. by apply Hag.
  - apply NoDup_cons. done.
  - intros x [->|Hx]%elem_of_cons; [done|].
    intros Hd. apply (Hnew2 x Hx). by apply (subseteq_dom _ _ Hsub1).
  - trans (Store.value s h2 <$> rs').
    + apply list_fmap_ext. intros i y Hy. apply Hag. by eapply list_elem_of_lookup_2.
    + rewrite Hv2. apply list_fmap_ext. intros i y Hy. apply Hel.
      by eapply list_elem_of_lookup_2.
  - intros x Hx. rewrite not_elem_of_cons in Hx. destruct Hx as [Hxl Hx].
    rewrite Hm2 by (by rewrite Hbind). by apply lookup_insert_ne.
Qed.

Lemma copy_opt_copies {V} (s : Store.shape nat V) copy_one :
  Store.copies s copy_one → Store.copies (Store.opt_shape s) (Store.copy_opt copy_one).
Proof.
  intros Hcopy [l|] h m Hty Hnd Hm; shape_simpl; cbn [Store.copy_opt Store.opt_fp
    Store.opt_typed] in *.
  - destruct (Hcopy l h m Hty Hnd Hm) as (l' & h' & m' & Hrun & ? & ? & ? & ? & Hv & ?).
    rewrite Hrun. exists (Some l'), h', m'. shape_simpl.
    cbn [Store.opt_fp Store.opt_typed fmap option_fmap option_map].
    rewrite Hv. done.
  - exists None, h, m.
    split_and!; [done | done | done | constructor | by intros ? ?%elem_of_nil | done | done].
Qed.

Lemma group_value_at h g w t c r :
  h !! g = Some (Store.OGroup w t c r) →
  Store.group_value h g =
    Group w (Store.value (Store.opt_shape (Store.list_shape Store.entry_shape)) h t) c r.
Proof. intros Hg. unfold Store.group_value. by rewrite Hg. Qed.

Lemma report_value_at h r st nt c rest :
  h !! r = Some (Store.OReport st nt c rest) →
  Store.report_value h r =
    Report (Store.value Store.groups_shape h st) (Store.value Store.groups_shape h nt) c rest.
Proof. intros Hr. unfold Store.report_value. by rewrite Hr. Qed.

Lemma copy_group_copies : Store.copies Store.group_shape Store.copy_group.
Proof.
  pose proof (copy_opt_copies _ _
    (copy_list_copies _ _ entry_shape_ok copy_entry_copies)) as Hcopy.
  pose proof (opt_shape_ok _ (list_shape_ok _ entry_shape_ok)) as Hok.
  intros g h m [(w & t & c & r & Hg) Hty] Hnd Hm.
  cbn [Store.fp Store.typed Store.value Store.group_shape] in *.
  unfold Store.group_fp, Store.group_typed in *.
  assert (Hgt : Store.group_titles h g = t) by (unfold Store.group_titles; by rewrite Hg).
  rewrite Hgt in *. apply NoDup_cons in Hnd as [Hgn Hnd].
  unfold Store.copy_group, Store.alloc. cbn [fst snd]. rewrite (Hm g) by left. rewrite Hg.
  pose proof (is_fresh (dom h)) as Hf. set (g' := fresh (dom h)) in *.
  set (h1 := <[g' := Store.OGroup w None c r]> h).
  assert (Hsub1 : h ⊆ h1) by (apply insert_subseteq; by apply not_elem_of_dom).
  destruct (shape_ok_weaken _ h h1 t Hok Hty Hsub1) as (Hfp1 & Hv1 & Hty1).
  destruct (Hcopy t h1 (<[g := g']> m))
    as (t' & h2 & m2 & Hrun & Hsub2 & Hty2 & Hnd2 & Hnew2 & Hv2 & Hm2).
  { done. }
  { by rewrite Hfp1. }
  { intros x Hx. rewrite Hfp1 in Hx. rewrite lookup_insert_ne by (intros ->; done).
    apply Hm. by right. }
  rewrite Hrun. cbn [fst snd]. eexists _, _, _. split; [reflexivity|].
  set (h' := <[g' := Store.OGroup w t' c r]> h2).
  assert (Hg' : h' !! g' = Some (Store.OGroup w t' c r)) by apply lookup_insert_eq.
  assert (Hgt' : Store.group_titles h' g' = t') by (unfold Store.group_titles; by rewrite Hg').
  assert (Hg1 : g' ∈ dom h1) by (apply elem_of_dom; unfold h1; rewrite lookup_insert_eq; eauto).
  destruct Hok as [Hdom Hagree].
  destruct (Hagree h2 h' t') as (Hfp' & Hv' & Hty').
  { intros x Hx. apply lookup_insert_ne. intros <-. by apply (Hnew2 g'). }
  shape_simpl. rewrite Hgt', Hfp'.
  split_and!.
  - apply insert_subseteq_new; [by etrans | done].
  - eauto.
  - by apply Hty'.
  - apply NoDup_cons. split; [|done]. intros Hx. by apply (Hnew2 g').
  - intros x [->|Hx]%elem_of_cons; [done|].
    intros Hd. apply (Hnew2 x Hx). by apply (subseteq_dom _ _ Hsub1).
  - rewrite (group_value_at h' g' w t' c r Hg'), (group_value_at h g w t c r Hg).
    f_equal. etrans; [exact Hv'|]. etrans; [exact Hv2 | exact Hv1].
  - intros x Hx. rewrite not_elem_of_cons in Hx. destruct Hx as [Hxg Hx].
    rewrite Hm2 by (by rewrite Hfp1). by apply lookup_insert_ne.
Qed.

Lemma copy_report_copies : Store.copies Store.report_shape Store.copy_report.
Proof.
  pose proof (copy_opt_copies _ _
    (copy_list_copies _ _ group_shape_ok copy_group_copies)) as Hcopy.
  pose proof groups_shape_ok as Hok. unfold Store.groups_shape in Hok.
  intros r h m [(st & nt & c & rest & Hr) [Htys Htyn]] Hnd Hm.
  cbn [Store.fp Store.typed Store.value Store.report_shape] in *.
  unfold Store.report_fp, Store.report_typed in *.
  assert (Hrs : Store.report_stats h r = st) by (unfold Store.report_stats; by rewrite Hr).
  assert (Hrn : Store.report_new_titles h r = nt)
    by (unfold Store.report_new_titles; by rewrite Hr).
  rewrite Hrs, Hrn in *. apply NoDup_cons in Hnd as [Hrnot Hnd].
  apply NoDup_app in Hnd as (Hnds & Hdisj & Hndn).
  rewrite not_elem_of_app in Hrnot. destruct Hrnot as [Hrs' Hrn'].
  unfold Store.copy_report, Store.alloc. cbn [fst snd]. rewrite (Hm r) by left. rewrite Hr.
  pose proof (is_fresh (dom h)) as Hf. set (r' := fresh (dom h)) in *.
  set (h1 := <[r' := Store.OReport None None c rest]> h).
  assert (Hsub1 : h ⊆ h1) by (apply insert_subseteq; by apply not_elem_of_dom).
  assert (Hr1 : r' ∈ dom h1) by (apply elem_of_dom; unfold h1; rewrite lookup_insert_eq; eauto).
  destruct (shape_ok_weaken _ h h1 st Hok Htys Hsub1) as (Hfps1 & Hvs1 & Htys1).
  destruct (Hcopy st h1 (<[r := r']> m))
    as (st' & h2 & m2 & Hrun2 & Hsub2 & Hty2 & Hnd2 & Hnew2 & Hv2 & Hm2).
  { done. }
  { by rewrite Hfps1. }
  { intros x Hx. rewrite Hfps1 in Hx. rewrite lookup_insert_ne by (intros ->; done).
    apply Hm. right. apply elem_of_app. by left. }
  assert (Hsub12 : h ⊆ h2) by by etrans.
  destruct (shape_ok_weaken _ h h2 nt Hok Htyn Hsub12) as (Hfpn2 & Hvn2 & Htyn2).
  destruct (Hcopy nt h2 m2)
    as (nt' & h3 & m3 & Hrun3 & Hsub3 & Hty3 & Hnd3 & Hnew3 & Hv3 & Hm3).
  { done. }
  { by rewrite Hfpn2. }
  { intros x Hx. rewrite Hfpn2 in Hx. rewrite Hm2.
    - rewrite lookup_insert_ne by (intros ->; done).
      apply Hm. right. apply elem_of_app. by right.
    - rewrite Hfps1. intros Hx'. by apply (Hdisj x). }
  rewrite Hrun2, Hrun3. cbn [fst snd]. eexists _, _, _. split; [reflexivity|].
  set (h' := <[r' := Store.OReport st' nt' c rest]> h3).
  assert (Hr' : h' !! r' = Some (Store.OReport st' nt' c rest)) by apply lookup_insert_eq.
  assert (Hrs2 : Store.report_stats h' r' = st')
    by (unfold Store.report_stats; by rewrite Hr').
  assert (Hrn2 : Store.report_new_titles h' r' = nt')
    by (unfold Store.report_new_titles; by rewrite Hr').
  destruct (shape_ok_weaken _ h2 h3 st' Hok Hty2 Hsub3) as (Hfps3 & Hvs3 & Htys3).
  assert (Hr2 : r' ∈ dom h2) by by apply (subseteq_dom _ _ Hsub2).
  destruct Hok as [Hdom Hagree].
  destruct (Hagree h3 h' st') as (Hfps' & Hvs' & Htys').
  { intros x Hx. apply lookup_insert_ne. intros <-. rewrite Hfps3 in Hx.
    by apply (Hnew2 r'). }
  destruct (Hagree h3 h' nt') as (Hfpn' & Hvn' & Htyn').
  { intros x Hx. apply lookup_insert_ne. intros <-. by apply (Hnew3 r'). }
  shape_simpl. rewrite Hrs2, Hrn2, Hfps', Hfpn', Hfps3.
  split_and!.
  - apply insert_subseteq_new; [by do 2 etrans | done].
  - eauto.
  - by apply Htys'.
  - by apply Htyn'.
  - apply NoDup_cons. split.
    + rewrite not_elem_of_app. split; intros Hx; [by apply (Hnew2 r') | by apply (Hnew3 r')].
    + apply NoDup_app. split_and!; [done| |done].
      intros x Hx Hx'. apply (Hnew3 x Hx'). eapply Hdom; [exact Hty2 | exact Hx].
  - intros x [->|[Hx|Hx]%elem_of_app]%elem_of_cons; [done| |]; intros Hd.
    + apply (Hnew2 x Hx). by apply (subseteq_dom _ _ Hsub1).
    + apply (Hnew3 x Hx). by apply (subseteq_dom _ _ Hsub12).
  - rewrite (report_value_at h' r' st' nt' c rest Hr'), (report_value_at h r st nt c rest Hr).
    f_equal.
    + etrans; [exact Hvs'|]. etrans; [exact Hvs3|]. etrans; [exact Hv2 | exact Hvs1].
    + etrans; [exact Hvn'|]. etrans; [exact Hv3 | exact Hvn2].
  - intros x Hx. rewrite not_elem_of_cons, not_elem_of_app in Hx.
    destruct Hx as (Hxr & Hxs & Hxn).
    rewrite Hm3 by (by rewrite Hfpn2). rewrite Hm2 by (by rewrite Hfps1).
    by apply lookup_insert_ne.
Qed.

(** [copy.deepcopy] of a collection in which no object occurs twice. *)
Lemma deepcopy_copies {R V} (s : Store.shape R V) copy_one x h :
  Store.copies s copy_one → Store.typed s h x → NoDup (Store.fp s h x) →
  ∃ x' h',
    (let '(x', st) := copy_one x (h, ∅) in (x', st.1)) = (x', h')
    ∧ h ⊆ h' ∧ Store.typed s h' x' ∧ NoDup (Store.fp s h' x')
    ∧ (∀ l, l ∈ Store.fp s h' x' → l ∉ dom h)
    ∧ Store.value s h' x' = Store.value s h x.
Proof.
  intros Hcopy Hty Hnd.
  destruct (Hcopy x h ∅ Hty Hnd) as (x' & h' & m' & Hrun & ? & ? & ? & ? & ? & _).
  { intros l _. apply lookup_empty. }
  exists x', h'. rewrite Hrun. done.
Qed.

(** ** The loops of the rewriter *)

(** The annotation of a kept entry, as one write. *)
Lemma annotate_at h t e decisions tid :
  h !! t = Some (Store.OEntry e) →
  match decisions !! tid with
  | Some d => match d_brief d with [] => h | b => Store.set_brief_at t b h end
  | None => h
  end = <[t := Store.OEntry (annotate decisions tid e)]> h.
Proof.
  intros Ht. unfold annotate, Store.set_brief_at.
  destruct (decisions !! tid) as [d|]; [|by rewrite insert_id].
  destruct (d_brief d); [by rewrite insert_id|]. by rewrite Ht.
Qed.

Lemma keep_titles_loop section keep_ids decisions gi K ts : ∀ i hc kept0,
  hc !! K = Some (Store.OList kept0) →
  Forall (Store.entry_typed hc) ts → NoDup ts → K ∉ ts →
  ∃ kept,
    let h' :=
      foldl (λ h '(ti, t),
        let tid := mk_id section gi ti in
        if bool_decide (tid ∈ keep_ids) then
          let h :=
            match decisions !! tid with
            | Some d => match d_brief d with [] => h | b => Store.set_brief_at t b h end
            | None => h
            end in
          Store.append_at K t h
        else h) hc (enumerate_from i ts) in
    h' !! K = Some (Store.OList (kept0 ++ kept))
    ∧ dom h' = dom hc
    ∧ (∀ x, x ∉ ts → x ≠ K → h' !! x = hc !! x)
    ∧ sublist kept ts
    ∧ (∀ t, t ∈ ts → Store.entry_typed h' t)
    ∧ Store.entry_at h' <$> kept =
        (λ q, annotate decisions (mk_id section gi q.1) q.2)
          <$> filter (λ p, mk_id section gi p.1 ∈ keep_ids)
                (enumerate_from i (Store.entry_at hc <$> ts)).
Proof.
  induction ts as [|t ts IH]; intros i hc kept0 HK Hty Hnd HKts.
  { exists []. cbn. rewrite app_nil_r. split_and!; try done.
    intros t Ht. by apply elem_of_nil in Ht. }
  apply Forall_cons in Hty as [[e He] Hty]. apply NoDup_cons in Hnd as [Ht Hnd].
  rewrite not_elem_of_cons in HKts. destruct HKts as [HKt HKts].
  cbn [enumerate_from foldl fmap list_fmap]. rewrite filter_cons. cbn [fst snd].
  assert (Hat : Store.entry_at hc t = e) by (unfold Store.entry_at; by rewrite He).
  case_bool_decide as Hin.
  - rewrite (annotate_at hc t e decisions _ He).
    set (e' := annotate decisions (mk_id section gi i) e).
    set (hc1 := <[t := Store.OEntry e']> hc).
    assert (HK1 : hc1 !! K = Some (Store.OList kept0)).
    { unfold hc1. rewrite lookup_insert_ne by done. done. }
    unfold Store.append_at. rewrite HK1.
    set (hc2 := <[K := Store.OList (kept0 ++ [t])]> hc1).
    assert (Hother : ∀ x, x ≠ t → x ≠ K → hc2 !! x = hc !! x).
    { intros x Hxt HxK. unfold hc2, hc1. by rewrite !lookup_insert_ne by done. }
    assert (Hvals : Store.entry_at hc2 <$> ts = Store.entry_at hc <$> ts).
    { apply list_fmap_ext. intros k x Hx. unfold Store.entry_at.
      rewrite Hother; [done| |]; intros ->;
        [apply Ht | apply HKts]; by eapply list_elem_of_lookup_2. }
    destruct (IH (S i) hc2 (kept0 ++ [t])) as (kept & HK' & Hdom' & Hfr' & Hsub' & Hty' & Hv');
      [apply lookup_insert_eq | | done | done |].
    { apply Forall_forall. intros x Hx. rewrite Forall_forall in Hty.
      destruct (Hty x Hx) as [ex Hex]. exists ex. rewrite Hother; [done| |]; by intros ->. }
    exists (t :: kept). cbv zeta in *. fold hc1 hc2.
    set (h' := foldl _ hc2 _) in *.
    assert (Ht' : h' !! t = Some (Store.OEntry e')).
    { rewrite Hfr' by (done || by intros ->). unfold hc2, hc1.
      rewrite lookup_insert_ne by done. apply lookup_insert_eq. }
    split_and!.
    + by rewrite HK', <- app_assoc.
    + rewrite Hdom'. unfold hc2, hc1. rewrite !dom_insert_L.
      assert (t ∈ dom hc) by (apply elem_of_dom; eauto).
      assert (K ∈ dom hc) by (apply elem_of_dom; eauto).
      apply set_eq. intros x. rewrite !elem_of_union, !elem_of_singleton.
      split; [intros [->|[->|?]]; done | auto].
    + intros x Hx HxK. rewrite not_elem_of_cons in Hx. destruct Hx as [Hxt Hx].
      rewrite Hfr' by done. by apply Hother.
    + by apply sublist_skip.
    + intros x [->|Hx]%elem_of_cons; [by exists e' | by apply Hty'].
    + rewrite decide_True by done. cbn [fmap list_fmap fst snd]. f_equal.
      * unfold Store.entry_at at 1. rewrite Ht'. by rewrite Hat.
      * rewrite Hv', Hvals. done.
  - destruct (IH (S i) hc kept0) as (kept & HK' & Hdom' & Hfr' & Hsub' & Hty' & Hv');
      [done..|].
    exists kept. cbv zeta in *. set (h' := foldl _ hc _) in *.
    split_and!; try done.
    + intros x Hx HxK. rewrite not_elem_of_cons in Hx. destruct Hx as [Hxt Hx]. by apply Hfr'.
    + by apply sublist_cons.
    + intros x [->|Hx]%elem_of_cons; [|by apply Hty'].
      exists e. rewrite Hfr' by (done || by intros ->). done.
    + rewrite decide_False by done. done.
Qed.

Lemma keep_titles_refines section keep_ids decisions gi ts h :
  Forall (Store.entry_typed h) ts → NoDup ts →
  ∃ kept h',
    Store.keep_titles section keep_ids decisions gi ts h = (fresh (dom h), h')
    ∧ h' !! fresh (dom h) = Some (Store.OList kept)
    ∧ dom h' = {[fresh (dom h)]} ∪ dom h
    ∧ (∀ x, x ∉ ts → x ≠ fresh (dom h) → h' !! x = h !! x)
    ∧ sublist kept ts
    ∧ (∀ t, t ∈ ts → Store.entry_typed h' t)
    ∧ Store.entry_at h' <$> kept =
        keep_titles section keep_ids decisions gi (Store.entry_at h <$> ts).
Proof.
  intros Hty Hnd. unfold Store.keep_titles, Store.alloc, enumerate.
  pose proof (is_fresh (dom h)) as Hf. set (K := fresh (dom h)) in *.
  set (h1 := <[K := Store.OList []]> h).
  assert (Hin : ∀ x, x ∈ ts → x ≠ K).
  { intros x Hx ->. rewrite Forall_forall in Hty. destruct (Hty K Hx) as [e He].
    apply Hf, elem_of_dom. eauto. }
  assert (Hvals : Store.entry_at h1 <$> ts = Store.entry_at h <$> ts).
  { apply list_fmap_ext. intros k x Hx. unfold Store.entry_at, h1.
    rewrite lookup_insert_ne; [done|]. intros <-. eapply Hin; [|done].
    by eapply list_elem_of_lookup_2. }
  destruct (keep_titles_loop section keep_ids decisions gi K ts 0%nat h1 [])
    as (kept & HK' & Hdom' & Hfr' & Hsub' & Hty' & Hv').
  { apply lookup_insert_eq. }
  { apply Forall_forall. intros x Hx. rewrite Forall_forall in Hty.
    destruct (Hty x Hx) as [e He]. exists e. unfold h1.
    rewrite lookup_insert_ne; [done|]. intros <-. by eapply Hin. }
  { done. }
  { intros Hx. by eapply Hin. }
  cbv zeta in *. eexists kept, _. split; [reflexivity|]. fold h1.
  set (h' := foldl _ h1 _) in *. split_and!; try done.
  - rewrite Hdom'. unfold h1. by rewrite dom_insert_L.
  - intros x Hx HxK. rewrite Hfr' by done. unfold h1. by rewrite lookup_insert_ne.
  - rewrite Hv', Hvals, keep_titles_filter. done.
Qed.

Lemma entries_bind h ts : ts ≫= Store.entry_fp h = ts.
Proof. induction ts as [|t ts IH]; [done|]. rewrite bind_cons, IH. done. Qed.

(** What the typing of a group says of the titles the loop reads. *)
Lemma group_typed_titles h g :
  Store.group_typed h g → NoDup (Store.group_fp h g) →
  let ts := Store.list_at h (Store.group_titles h g) in
  (∃ w t c r, h !! g = Some (Store.OGroup w t c r)
     ∧ titles_of (Store.group_value h g) = Store.entry_at h <$> ts
     ∧ g_word (Store.group_value h g) = w ∧ g_count (Store.group_value h g) = c
     ∧ g_rest (Store.group_value h g) = r)
  ∧ Forall (Store.entry_typed h) ts ∧ NoDup ts ∧ (g ∉ ts)
  ∧ ∀ x, x ∈ ts → x ∈ Store.group_fp h g.
Proof.
  intros [(w & t & c & r & Hg) Hty] Hnd. unfold Store.group_fp in *.
  assert (Hgt : Store.group_titles h g = t) by (unfold Store.group_titles; by rewrite Hg).
  rewrite Hgt in *. cbv zeta. split.
  { exists w, t, c, r. split; [done|]. unfold Store.group_value. rewrite Hg.
    destruct t; done. }
  destruct t as [L|]; cbn [Store.opt_typed Store.opt_fp] in *.
  - destruct Hty as [_ Hty]. unfold Store.list_fp in *. rewrite entries_bind in *.
    apply NoDup_cons in Hnd as [Hg' Hnd]. apply NoDup_cons in Hnd as [HL Hnd].
    rewrite not_elem_of_cons in Hg'. destruct Hg' as [_ Hg'].
    split_and!; try done. intros x Hx. by do 2 right.
  - cbn [Store.list_at].
    split_and!; [constructor | constructor | by intros ?%elem_of_nil
                | by intros x ?%elem_of_nil].
Qed.

Lemma rewrite_step section counted keep_ids decisions N gi g hc kept0 :
  hc !! N = Some (Store.OList kept0) →
  Store.group_typed hc g → NoDup (Store.group_fp hc g) → N ∉ Store.group_fp hc g →
  ∃ kept1,
    let h' :=
      (let '(kept_titles, h) :=
         Store.keep_titles section keep_ids decisions gi
           (Store.list_at hc (Store.group_titles hc g)) hc in
       match Store.list_at h (Some kept_titles) with
       | [] => h
       | kept =>
           let h := Store.set_titles_at g kept_titles h in
           let h := if counted then Store.set_count_at g (Z.of_nat (length kept)) h else h in
           Store.append_at N g h
       end) in
    h' !! N = Some (Store.OList (kept0 ++ kept1))
    ∧ Store.changes_within hc h' (N :: Store.group_fp hc g)
    ∧ Forall (Store.group_typed h') kept1
    ∧ NoDup (kept1 ≫= Store.group_fp h')
    ∧ (∀ x, x ∈ kept1 ≫= Store.group_fp h' →
         x ≠ N ∧ ((x ∈ Store.group_fp hc g) ∨ (x ∉ dom hc)))
    ∧ Store.group_value h' <$> kept1 =
        option_list (rewrite_group section counted keep_ids decisions
                       (gi, Store.group_value hc g)).
Proof.
  intros HN Hty Hnd HNg.
  destruct (group_typed_titles hc g Hty Hnd)
    as ((w & t & c & r & Hg & Htitles & Hw & Hc & Hr) & Htys & Hndts & Hgts & Hsub).
  cbv zeta in *. set (ts := Store.list_at hc (Store.group_titles hc g)) in *.
  destruct (keep_titles_refines section keep_ids decisions gi ts hc Htys Hndts)
    as (kept & h1 & Hrun & HK & Hdom1 & Hfr1 & Hsl & Hty1 & Hv1).
  rewrite Hrun. pose proof (is_fresh (dom hc)) as Hf. set (K := fresh (dom hc)) in *.
  assert (HgK : g ≠ K) by (intros ->; apply Hf, elem_of_dom; eauto).
  assert (HNK : N ≠ K) by (intros ->; apply Hf, elem_of_dom; eauto).
  assert (HNg' : N ≠ g) by (intros ->; apply HNg; left).
  assert (HNts : N ∉ ts) by (intros Hx; by apply HNg, Hsub).
  assert (Hat : Store.list_at h1 (Some K) = kept) by (unfold Store.list_at; by rewrite HK).
  assert (Hg1 : h1 !! g = Some (Store.OGroup w t c r)) by (by rewrite Hfr1).
  assert (HN1 : h1 !! N = Some (Store.OList kept0)) by (by rewrite Hfr1).
  assert (Hkts : ∀ x, x ∈ kept → x ∈ ts).
  { intros x Hx. by eapply elem_of_sublist. }
  assert (Hdom : dom hc ⊆ dom h1).
  { rewrite Hdom1. intros x Hx. apply elem_of_union. by right. }
  rewrite Hat. unfold rewrite_group. cbn [fst snd]. rewrite Htitles, <- Hv1.
  destruct kept as [|k ks].
  { exists []. rewrite app_nil_r. cbn. split_and!.
    - done.
    - split; [done|].
      intros x Hx Hx'. rewrite not_elem_of_cons in Hx'. destruct Hx' as [HxN Hx'].
      apply Hfr1; [|by intros ->]. intros Hxts. by apply Hx', Hsub.
    - constructor.
    - constructor.
    - by intros x ?%elem_of_nil.
    - done. }
  set (kept := k :: ks) in *.
  set (c' := if counted then Some (Z.of_nat (length kept)) else c).
  set (h3 := <[g := Store.OGroup w (Some K) c' r]> h1).
  assert (Hh3 : (let h := Store.set_titles_at g K h1 in
                 if counted then Store.set_count_at g (Z.of_nat (length kept)) h else h)
                = h3).
  { cbv zeta. unfold Store.set_titles_at, Store.set_count_at, h3, c'. rewrite Hg1.
    destruct counted; [|done]. rewrite lookup_insert_eq. by rewrite insert_insert_eq. }
  cbv zeta in Hh3. change (k :: ks) with kept. cbv zeta.
  rewrite Hh3. unfold Store.append_at.
  assert (HN3 : h3 !! N = Some (Store.OList kept0)).
  { unfold h3. by rewrite lookup_insert_ne. }
  rewrite HN3. set (h' := <[N := Store.OList (kept0 ++ [g])]> h3).
  assert (Hg' : h' !! g = Some (Store.OGroup w (Some K) c' r)).
  { unfold h', h3. rewrite lookup_insert_ne by done. apply lookup_insert_eq. }
  assert (Hother : ∀ x, x ≠ N → x ≠ g → h' !! x = h1 !! x).
  { intros x HxN Hxg. unfold h', h3. by rewrite !lookup_insert_ne. }
  assert (HK' : h' !! K = Some (Store.OList kept)) by (by rewrite Hother).
  assert (Hkept : ∀ x, x ∈ kept → h' !! x = h1 !! x).
  { intros x Hx. apply Hkts in Hx. apply Hother; intros ->; done. }
  assert (Hfp' : Store.group_fp h' g = g :: K :: kept).
  { unfold Store.group_fp, Store.group_titles. rewrite Hg'. cbn [Store.opt_fp].
    unfold Store.list_fp, Store.list_at. rewrite HK', entries_bind. done. }
  assert (Hvals : Store.entry_at h' <$> kept = Store.entry_at h1 <$> kept).
  { apply list_fmap_ext. intros i x Hx. unfold Store.entry_at.
    rewrite Hkept; [done|]. by eapply list_elem_of_lookup_2. }
  exists [g]. rewrite bind_singleton, Hfp'. split_and!.
  - apply lookup_insert_eq.
  - split.
    { unfold h', h3. rewrite !dom_insert.
      intros x Hx. apply elem_of_union. right. apply elem_of_union. right. by apply Hdom. }
    intros x Hx Hx'. rewrite not_elem_of_cons in Hx'. destruct Hx' as [HxN Hx'].
    rewrite Hother; [|done|intros ->; apply Hx'; left].
    apply Hfr1; [|by intros ->]. intros Hxts. by apply Hx', Hsub.
  - apply Forall_singleton. split; [eauto|].
    unfold Store.group_titles. rewrite Hg'. cbn [Store.opt_typed]. split; [eauto|].
    unfold Store.list_at. rewrite HK'. apply Forall_forall. intros x Hx.
    destruct (Hty1 x (Hkts x Hx)) as [e He]. exists e. by rewrite Hkept.
  - apply NoDup_cons. split.
    { rewrite not_elem_of_cons. split; [done|]. intros Hx. by apply Hgts, Hkts. }
    apply NoDup_cons. split; [|by eapply sublist_NoDup].
    intros Hx. apply Hkts in Hx. rewrite Forall_forall in Htys.
    destruct (Htys K Hx) as [e He]. apply Hf, elem_of_dom. eauto.
  - intros x [->|[->|Hx]%elem_of_cons]%elem_of_cons.
    + split; [done|]. left. left.
    + split; [done|]. by right.
    + apply Hkts in Hx. split; [by intros ->|]. left. by apply Hsub.
  - cbn [fmap list_fmap]. unfold Store.group_value at 1. rewrite Hg'.
    cbn [fmap option_fmap option_map]. unfold Store.list_at. rewrite HK', Hvals.
    unfold kept at 2. cbn [fmap list_fmap option_list]. f_equal.
    unfold set_titles, set_count, c'. rewrite Hw, Hc, Hr.
    destruct counted; cbn [g_word g_titles g_count g_rest]; [|done].
    do 3 f_equal. unfold kept. cbn. by rewrite length_fmap.
Qed.

Lemma rewrite_groups_loop section counted keep_ids decisions N gs : ∀ i hc kept0,
  hc !! N = Some (Store.OList kept0) →
  Forall (Store.group_typed hc) gs → NoDup (gs ≫= Store.group_fp hc) →
  N ∉ gs ≫= Store.group_fp hc →
  ∃ kept,
    let h' :=
      foldl (λ h '(gi, g),
        let titles := Store.list_at h (Store.group_titles h g) in
        let '(kept_titles, h) :=
          Store.keep_titles section keep_ids decisions gi titles h in
        match Store.list_at h (Some kept_titles) with
        | [] => h
        | kept =>
            let h := Store.set_titles_at g kept_titles h in
            let h := if counted then Store.set_count_at g (Z.of_nat (length kept)) h else h in
            Store.append_at N g h
        end) hc (enumerate_from i gs) in
    h' !! N = Some (Store.OList (kept0 ++ kept))
    ∧ Store.changes_within hc h' (N :: gs ≫= Store.group_fp hc)
    ∧ Forall (Store.group_typed h') kept
    ∧ NoDup (kept ≫= Store.group_fp h')
    ∧ (∀ x, x ∈ kept ≫= Store.group_fp h' →
         x ≠ N ∧ ((x ∈ gs ≫= Store.group_fp hc) ∨ (x ∉ dom hc)))
    ∧ Store.group_value h' <$> kept =
        omap (rewrite_group section counted keep_ids decisions)
          (enumerate_from i (Store.group_value hc <$> gs)).
Proof.
  pose proof group_shape_ok as Hok. pose proof Hok as [Hdomok _].
  induction gs as [|g gs IH]; intros i hc kept0 HN Hty Hnd HNgs.
  { exists []. cbn. rewrite app_nil_r. split_and!.
    - done.
    - split; [done|]. done.
    - constructor.
    - constructor.
    - by intros x ?%elem_of_nil.
    - done. }
  apply Forall_cons in Hty as [Htyg Hty]. rewrite bind_cons in Hnd, HNgs.
  apply NoDup_app in Hnd as (Hndg & Hdisj & Hnd).
  rewrite not_elem_of_app in HNgs. destruct HNgs as [HNg HNgs].
  destruct (rewrite_step section counted keep_ids decisions N i g hc kept0 HN Htyg Hndg HNg)
    as (kept1 & HN1 & Hch1 & Hty1 & Hnd1 & Hin1 & Hv1).
  cbn [enumerate_from foldl fmap list_fmap omap list_omap]. cbv zeta in *.
  set (hc1 := let '(kept_titles, h) := Store.keep_titles _ _ _ _ _ hc in _) in *.
  assert (Hfr : ∀ y, y ∈ gs →
    Store.group_fp hc1 y = Store.group_fp hc y
    ∧ Store.group_value hc1 y = Store.group_value hc y ∧ Store.group_typed hc1 y).
  { intros y Hy. rewrite Forall_forall in Hty.
    apply (shape_ok_frame Store.group_shape hc hc1 (N :: Store.group_fp hc g) y Hok);
      [by apply Hty | done |].
    intros l Hl. cbn [Store.fp Store.group_shape] in Hl. rewrite not_elem_of_cons. split.
    - intros ->. apply HNgs, list_elem_of_bind. eauto.
    - intros Hlg. apply (Hdisj l Hlg), list_elem_of_bind. eauto. }
  assert (Hbind : gs ≫= Store.group_fp hc1 = gs ≫= Store.group_fp hc).
  { apply Forall_bind_ext, Forall_forall. intros y Hy. by apply Hfr. }
  assert (Hvals : Store.group_value hc1 <$> gs = Store.group_value hc <$> gs).
  { apply list_fmap_ext. intros k y Hy. apply Hfr. by eapply list_elem_of_lookup_2. }
  destruct (IH (S i) hc1 (kept0 ++ kept1)) as (kept & HN' & Hch' & Hty' & Hnd' & Hin' & Hv').
  { done. }
  { apply Forall_forall. intros y Hy. by apply Hfr. }
  { by rewrite Hbind. }
  { by rewrite Hbind. }
  cbv zeta in *. set (h' := foldl _ hc1 _) in *. rewrite Hbind in *.
  assert (Hkeep : ∀ l, l ∈ kept1 ≫= Store.group_fp hc1 → l ∉ N :: gs ≫= Store.group_fp hc).
  { intros l Hl. destruct (Hin1 l Hl) as [HlN Hl']. rewrite not_elem_of_cons. split; [done|].
    intros Hlgs. destruct Hl' as [Hlg|Hlg]; [by apply (Hdisj l Hlg)|].
    apply Hlg. apply list_elem_of_bind in Hlgs as (y & Hly & Hy).
    rewrite Forall_forall in Hty. by apply (Hdomok hc y l (Hty y Hy)). }
  assert (Hfr1 : ∀ y, y ∈ kept1 →
    Store.group_fp h' y = Store.group_fp hc1 y
    ∧ Store.group_value h' y = Store.group_value hc1 y ∧ Store.group_typed h' y).
  { intros y Hy. rewrite Forall_forall in Hty1.
    apply (shape_ok_frame Store.group_shape hc1 h' (N :: gs ≫= Store.group_fp hc) y Hok);
      [by apply Hty1 | done |].
    intros l Hl. apply Hkeep, list_elem_of_bind. eauto. }
  assert (Hbind1 : kept1 ≫= Store.group_fp h' = kept1 ≫= Store.group_fp hc1).
  { apply Forall_bind_ext, Forall_forall. intros y Hy. by apply Hfr1. }
  exists (kept1 ++ kept). rewrite bind_app, Hbind1. split_and!.
  - by rewrite HN', <- app_assoc.
  - destruct Hch1 as [Hd1 Hf1], Hch' as [Hd' Hf']. split; [by etrans|].
    intros x Hx Hx'. rewrite bind_cons, not_elem_of_cons, not_elem_of_app in Hx'.
    destruct Hx' as (HxN & Hxg & Hxgs).
    rewrite Hf'; [|by apply Hd1|rewrite not_elem_of_cons; done].
    apply Hf1; [done|]. rewrite not_elem_of_cons. done.
  - apply Forall_app. split; [|done]. apply Forall_forall. intros y Hy. by apply Hfr1.
  - apply NoDup_app. split_and!; [done| |done].
    intros x Hx Hx'. destruct (Hin' x Hx') as [_ [Hgs|Hnew]].
    + by apply (Hkeep x Hx), elem_of_cons; right.
    + apply Hnew. apply list_elem_of_bind in Hx as (y & Hxy & Hy).
      rewrite Forall_forall in Hty1. by apply (Hdomok hc1 y x (Hty1 y Hy)).
  - intros x [Hx|Hx]%elem_of_app; rewrite bind_cons.
    + destruct (Hin1 x Hx) as [? [?|?]]; (split; [done|]); [left|by right].
      apply elem_of_app. by left.
    + destruct (Hin' x Hx) as [? [?|Hnew]]; (split; [done|]); [left|right].
      * apply elem_of_app. by right.
      * intros Hd. apply Hnew. destruct Hch1 as [Hd1 _]. by apply Hd1.
  - rewrite fmap_app, Hv', Hvals.
    rewrite <- (list_fmap_ext (Store.group_value hc1) (Store.group_value h') kept1);
      [|intros k y Hy; symmetry; apply Hfr1; by eapply list_elem_of_lookup_2].
    rewrite Hv1.
    destruct (rewrite_group section counted keep_ids decisions (i, Store.group_value hc g));
      done.
Qed.

(** The outer loop on a list of groups in which no object occurs twice:
    it returns a new list with the kept groups, writes into the groups
    it was given only, and yields the value the loop on values yields. *)
Lemma rewrite_groups_refines section counted keep_ids decisions gs h :
  Forall (Store.group_typed h) gs → NoDup (gs ≫= Store.group_fp h) →
  ∃ h',
    let N := fresh (dom h) in
    Store.rewrite_groups section counted keep_ids decisions gs h = (N, h')
    ∧ Store.changes_within h h' (gs ≫= Store.group_fp h)
    ∧ Store.list_typed Store.group_typed h' N
    ∧ NoDup (Store.list_fp Store.group_fp h' N)
    ∧ (∀ x, x ∈ Store.list_fp Store.group_fp h' N →
         (x ∈ gs ≫= Store.group_fp h) ∨ (x ∉ dom h))
    ∧ Store.group_value h' <$> Store.list_at h' (Some N) =
        rewrite_groups section counted keep_ids decisions (Store.group_value h <$> gs).
Proof.
  intros Hty Hnd. pose proof group_shape_ok as Hok. pose proof Hok as [Hdomok _].
  unfold Store.rewrite_groups, Store.alloc, enumerate. cbv zeta.
  pose proof (is_fresh (dom h)) as Hf. set (N := fresh (dom h)) in *.
  set (h1 := <[N := Store.OList []]> h).
  assert (Hsub : h ⊆ h1) by (apply insert_subseteq; by apply not_elem_of_dom).
  assert (Hfr : ∀ y, y ∈ gs →
    Store.group_fp h1 y = Store.group_fp h y
    ∧ Store.group_value h1 y = Store.group_value h y ∧ Store.group_typed h1 y).
  { intros y Hy. rewrite Forall_forall in Hty.
    apply (shape_ok_weaken Store.group_shape h h1 y Hok); [by apply Hty | done]. }
  assert (Hbind : gs ≫= Store.group_fp h1 = gs ≫= Store.group_fp h).
  { apply Forall_bind_ext, Forall_forall. intros y Hy. by apply Hfr. }
  assert (Hvals : Store.group_value h1 <$> gs = Store.group_value h <$> gs).
  { apply list_fmap_ext. intros k y Hy. apply Hfr. by eapply list_elem_of_lookup_2. }
  assert (HNgs : N ∉ gs ≫= Store.group_fp h).
  { intros Hx. apply Hf. apply list_elem_of_bind in Hx as (y & Hxy & Hy).
    rewrite Forall_forall in Hty. by apply (Hdomok h y N (Hty y Hy)). }
  destruct (rewrite_groups_loop section counted keep_ids decisions N gs 0%nat h1 [])
    as (kept & HN' & Hch' & Hty' & Hnd' & Hin' & Hv').
  { apply lookup_insert_eq. }
  { apply Forall_forall. intros y Hy. by apply Hfr. }
  { by rewrite Hbind. }
  { by rewrite Hbind. }
  cbv zeta in *. rewrite Hbind in *. eexists. split; [reflexivity|]. fold h1.
  set (h' := foldl _ h1 _) in *. cbn [app] in HN'.
  assert (Hat : Store.list_at h' (Some N) = kept) by (unfold Store.list_at; by rewrite HN').
  unfold Store.list_typed, Store.list_fp. rewrite Hat. split_and!.
  - destruct Hch' as [Hd' Hf']. split.
    + etrans; [|exact Hd']. by apply subseteq_dom.
    + intros x Hx Hx'. assert (x ≠ N) by (by intros ->).
      rewrite Hf'; [by apply lookup_insert_ne| |rewrite not_elem_of_cons; done].
      by apply (subseteq_dom _ _ Hsub).
  - eauto.
  - done.
  - apply NoDup_cons. split; [|done]. intros Hx. by destruct (Hin' N Hx).
  - intros x [->|Hx]%elem_of_cons; [by right|].
    destruct (Hin' x Hx) as [_ [?|Hnew]]; [by left|right].
    intros Hd. apply Hnew. by apply (subseteq_dom _ _ Hsub).
  - rewrite Hv', Hvals, rewrite_groups_omap. done.
Qed.

(** ** The frame of a sequence of writes *)

Lemma changes_within_trans h1 h2 h3 S S' :
  Store.changes_within h1 h2 S → Store.changes_within h2 h3 S' →
  Store.changes_within h1 h3 (S ++ S').
Proof.
  intros [Hd1 Hf1] [Hd2 Hf2]. split; [by etrans|].
  intros l Hl Hl'. rewrite not_elem_of_app in Hl'. destruct Hl' as [HlS HlS'].
  rewrite Hf2; [by apply Hf1 | by apply Hd1 | done].
Qed.

Lemma changes_within_insert h l (o : Store.obj) S :
  l ∈ S → Store.changes_within h (<[l := o]> h) S.
Proof.
  intros Hl. split.
  - rewrite dom_insert. intros x Hx. apply elem_of_union. by right.
  - intros x _ Hx. apply lookup_insert_ne. by intros ->.
Qed.

Lemma changes_within_mono h h' S S' :
  Store.changes_within h h' S → (∀ l, l ∈ S → l ∈ S') → Store.changes_within h h' S'.
Proof. intros [Hd Hf] Hsub. split; [done|]. intros l Hl Hl'. apply Hf; auto. Qed.

Lemma changes_within_refl h S : Store.changes_within h h S.
Proof. split; done. Qed.

(** A collection built from [P] and from objects that are new to [h0]
    is not touched by writes within a part of [h0] that is disjoint from
    [P]. *)
Lemma groups_carry h0 h h' S (P : list nat) x :
  Store.typed Store.groups_shape h x →
  (∀ l, l ∈ Store.fp Store.groups_shape h x → (l ∈ P) ∨ (l ∉ dom h0)) →
  Store.changes_within h h' S →
  (∀ l, l ∈ S → l ∈ dom h0) → (∀ l, l ∈ P → l ∉ S) →
  Store.typed Store.groups_shape h' x
  ∧ Store.fp Store.groups_shape h' x = Store.fp Store.groups_shape h x
  ∧ Store.value Store.groups_shape h' x = Store.value Store.groups_shape h x.
Proof.
  intros Hty Hin Hch Hdom Hdisj.
  destruct (shape_ok_frame Store.groups_shape h h' S x groups_shape_ok Hty Hch)
    as (? & ? & ?); [|done].
  intros l Hl HlS. destruct (Hin l Hl) as [HP|Hnew]; [by apply (Hdisj l)|].
  by apply Hnew, Hdom.
Qed.

Lemma sum_titles_refines h gs :
  Store.sum_titles h gs = sum_titles (Store.group_value h <$> gs).
Proof.
  unfold Store.sum_titles, sum_titles.
  generalize 0. induction gs as [|g gs IH]; intros acc; [done|].
  cbn [foldl fmap list_fmap]. rewrite <- IH. do 3 f_equal.
  unfold Store.group_titles, Store.group_value, titles_of.
  destruct (h !! g) as [[]|]; try done.
  destruct titles; cbn; [by rewrite length_fmap | done].
Qed.

(** The rewriting of the list under a key, or of no list. *)
Lemma rewrite_root section counted keep_ids decisions ol h :
  Store.typed Store.groups_shape h ol → NoDup (Store.fp Store.groups_shape h ol) →
  ∃ h',
    let N := fresh (dom h) in
    Store.rewrite_groups section counted keep_ids decisions (Store.list_at h ol) h = (N, h')
    ∧ Store.changes_within h h' (Store.fp Store.groups_shape h ol)
    ∧ Store.typed Store.groups_shape h' (Some N)
    ∧ NoDup (Store.fp Store.groups_shape h' (Some N))
    ∧ (∀ x, x ∈ Store.fp Store.groups_shape h' (Some N) →
         (x ∈ Store.fp Store.groups_shape h ol) ∨ (x ∉ dom h))
    ∧ Store.value Store.groups_shape h' (Some N) =
        Some (rewrite_groups section counted keep_ids decisions
                (default [] (Store.value Store.groups_shape h ol))).
Proof.
  intros Hty Hnd. unfold Store.groups_shape in *. shape_simpl.
  assert (Hgs : Forall (Store.group_typed h) (Store.list_at h ol)
                ∧ NoDup (Store.list_at h ol ≫= Store.group_fp h)
                ∧ (∀ x, x ∈ Store.list_at h ol ≫= Store.group_fp h →
                     x ∈ Store.opt_fp (Store.list_fp Store.group_fp) h ol)
                ∧ default [] ((λ l, Store.group_value h <$> Store.list_at h (Some l)) <$> ol)
                  = Store.group_value h <$> Store.list_at h ol).
  { destruct ol as [l|]; cbn [Store.opt_typed Store.opt_fp] in *.
    - destruct Hty as [_ Hty]. unfold Store.list_fp in *.
      apply NoDup_cons in Hnd as [_ Hnd]. split_and!; try done. intros x Hx. by right.
    - cbn. split_and!; [constructor | constructor | done | done]. }
  destruct Hgs as (Htys & Hnds & Hsub & Hval).
  destruct (rewrite_groups_refines section counted keep_ids decisions _ h Htys Hnds)
    as (h' & Hrun & Hch & Hty' & Hnd' & Hin' & Hv').
  cbv zeta in *. exists h'. cbn [Store.opt_typed Store.opt_fp fmap option_fmap option_map].
  split_and!; try done.
  - by eapply changes_within_mono.
  - intros x Hx. destruct (Hin' x Hx); [left; by apply Hsub | by right].
  - by rewrite Hv', Hval.
Qed.

Lemma rewrite_opt_refines section keep_ids decisions x h :
  Store.typed Store.groups_shape h x → NoDup (Store.fp Store.groups_shape h x) →
  ∃ x' h',
    Store.rewrite_opt section keep_ids decisions x h = (x', h')
    ∧ Store.changes_within h h' (Store.fp Store.groups_shape h x)
    ∧ Store.typed Store.groups_shape h' x'
    ∧ NoDup (Store.fp Store.groups_shape h' x')
    ∧ (∀ l, l ∈ Store.fp Store.groups_shape h' x' →
         (l ∈ Store.fp Store.groups_shape h x) ∨ (l ∉ dom h))
    ∧ Store.value Store.groups_shape h' x' =
        rewrite_groups section true keep_ids decisions
          <$> Store.value Store.groups_shape h x.
Proof.
  intros Hty Hnd. destruct x as [l|].
  - destruct (rewrite_root section true keep_ids decisions (Some l) h Hty Hnd)
      as (h' & Hrun & Hch & Hty' & Hnd' & Hin' & Hv').
    cbv zeta in *. unfold Store.rewrite_opt. rewrite Hrun.
    eexists _, _. split; [reflexivity|]. split_and!; try done.
  - exists None, h.
    split_and!; [done | apply changes_within_refl | done | constructor
                | by intros l ?%elem_of_nil | done].
Qed.

(** [copy.deepcopy(x) if x else None]. *)
Lemma copy_if_any_copies x h :
  Store.typed Store.groups_shape h x → NoDup (Store.fp Store.groups_shape h x) →
  ∃ x' h',
    Store.copy_if_any x h = (x', h')
    ∧ h ⊆ h' ∧ Store.typed Store.groups_shape h' x'
    ∧ NoDup (Store.fp Store.groups_shape h' x')
    ∧ (∀ l, l ∈ Store.fp Store.groups_shape h' x' → l ∉ dom h)
    ∧ Store.value Store.groups_shape h' x' = copy_if_any (Store.value Store.groups_shape h x).
Proof.
  intros Hty Hnd. unfold Store.copy_if_any.
  assert (Hnone : ∃ x' h', (None, h) = (x', h')
    ∧ h ⊆ h' ∧ Store.typed Store.groups_shape h' x'
    ∧ NoDup (Store.fp Store.groups_shape h' x')
    ∧ (∀ l, l ∈ Store.fp Store.groups_shape h' x' → l ∉ dom h)
    ∧ Store.value Store.groups_shape h' x' = None).
  { exists None, h. split_and!; try done; [constructor | by intros l ?%elem_of_nil]. }
  destruct x as [l|]; [|exact Hnone].
  destruct (Store.list_at h (Some l)) as [|g gs] eqn:Hat.
  { destruct Hnone as (x' & h' & ? & ? & ? & ? & ? & Hv). exists x', h'.
    split_and!; try done. rewrite Hv. unfold Store.groups_shape. shape_simpl.
    cbn [fmap option_fmap option_map]. by rewrite Hat. }
  destruct (deepcopy_copies (Store.list_shape Store.group_shape)
              (Store.copy_list Store.copy_group) l h
              (copy_list_copies _ _ group_shape_ok copy_group_copies) Hty Hnd)
    as (l' & h' & Hrun & Hsub & Hty' & Hnd' & Hnew' & Hv').
  unfold Store.deepcopy. destruct (Store.copy_list Store.copy_group l (h, ∅)) as [l0 st].
  injection Hrun as -> <-. exists (Some l'), st.1. split_and!; try done.
  unfold Store.groups_shape. shape_simpl. cbn [fmap option_fmap option_map].
  rewrite Hv', Hat. done.
Qed.

(** The three copies are disjoint collections in which no object occurs
    twice. *)
Lemma copy_phase h r a b :
  Store.unshared h r a b →
  ∃ r1 a1 b1 h1 h2 h3,
    Store.deepcopy Store.copy_report r h = (r1, h1)
    ∧ Store.copy_if_any a h1 = (a1, h2)
    ∧ Store.copy_if_any b h2 = (b1, h3)
    ∧ Store.report_typed h3 r1
    ∧ Store.typed Store.groups_shape h3 a1
    ∧ Store.typed Store.groups_shape h3 b1
    ∧ NoDup (Store.report_fp h3 r1
             ++ Store.fp Store.groups_shape h3 a1 ++ Store.fp Store.groups_shape h3 b1)
    ∧ Store.report_value h3 r1 = Store.report_value h r
    ∧ Store.value Store.groups_shape h3 a1 = copy_if_any (Store.collection_value h a)
    ∧ Store.value Store.groups_shape h3 b1 = copy_if_any (Store.collection_value h b).
Proof.
  intros ((Htr & Hnr) & (Hta & Hna) & (Htb & Hnb)).
  pose proof report_shape_ok as Hokr. pose proof groups_shape_ok as Hokg.
  destruct (deepcopy_copies Store.report_shape Store.copy_report r h copy_report_copies
              Htr Hnr) as (r1 & h1 & Hrun1 & Hsub1 & Hty1 & Hnd1 & Hnew1 & Hv1).
  destruct (shape_ok_weaken Store.groups_shape h h1 a Hokg Hta Hsub1) as (Hfpa & Hva & Hta1).
  destruct (copy_if_any_copies a h1 Hta1) as (a1 & h2 & Hrun2 & Hsub2 & Hty2 & Hnd2 & Hnew2 & Hv2).
  { by rewrite Hfpa. }
  assert (Hsub12 : h ⊆ h2) by by etrans.
  destruct (shape_ok_weaken Store.groups_shape h h2 b Hokg Htb Hsub12) as (Hfpb & Hvb & Htb2).
  destruct (copy_if_any_copies b h2 Htb2) as (b1 & h3 & Hrun3 & Hsub3 & Hty3 & Hnd3 & Hnew3 & Hv3).
  { by rewrite Hfpb. }
  assert (Hsub13 : h1 ⊆ h3) by by etrans.
  destruct (shape_ok_weaken Store.report_shape h1 h3 r1 Hokr Hty1 Hsub13)
    as (Hfpr3 & Hvr3 & Htr3).
  destruct (shape_ok_weaken Store.groups_shape h2 h3 a1 Hokg Hty2 Hsub3)
    as (Hfpa3 & Hva3 & Hta3).
  exists r1, a1, b1, h1, h2, h3.
  cbn [Store.fp Store.typed Store.value Store.report_shape] in *.
  split_and!; try done.
  - rewrite Hfpr3, Hfpa3. destruct Hokr as [Hdomr _], Hokg as [Hdomg _].
    apply NoDup_app. split_and!; [done| |].
    + intros x Hx. apply (Hdomr h1 r1 x Hty1) in Hx.
      rewrite not_elem_of_app. split; intros Hx'.
      * by apply (Hnew2 x Hx').
      * apply (Hnew3 x Hx'). by apply (subseteq_dom _ _ Hsub2).
    + apply NoDup_app. split_and!; [done| |done].
      intros x Hx Hx'. apply (Hnew3 x Hx'). by apply (Hdomg h2 a1 x Hty2).
  - by rewrite Hvr3.
  - rewrite Hva3, Hv2, Hva. done.
  - rewrite Hv3, Hvb. done.
Qed.

Lemma apply_kept_ids_steps h (r : nat) (a b : option nat) keep_ids
    (pointers : gmap pystr pointer) decisions
    (r1 : nat) (a1 b1 : option nat) h1 h2 h3 (N1 : nat) h4 (N2 : nat) h6
    (a2 : option nat) h9 (b2 : option nat) h10 :
  Store.deepcopy Store.copy_report r h = (r1, h1) →
  Store.copy_if_any a h1 = (a1, h2) →
  Store.copy_if_any b h2 = (b1, h3) →
  Store.rewrite_groups hot_stats true keep_ids decisions
    (Store.list_at h3 (Store.report_stats h3 r1)) h3 = (N1, h4) →
  let h5 := Store.set_stats_at r1 N1 h4 in
  Store.rewrite_groups hot_new false keep_ids decisions
    (Store.list_at h5 (Store.report_new_titles h5 r1)) h5 = (N2, h6) →
  let h7 := Store.set_new_titles_at r1 N2 h6 in
  let h8 := Store.set_total_at r1 (Store.sum_titles h7 (Store.list_at h7 (Some N2))) h7 in
  Store.rewrite_opt rss_stats keep_ids decisions a1 h8 = (a2, h9) →
  Store.rewrite_opt rss_new keep_ids decisions b1 h9 = (b2, h10) →
  Store._apply_kept_ids r a b keep_ids pointers decisions h = ((r1, a2, b2), h10).
Proof.
  intros H1 H2 H3 H4 h5 H5 h7 h8 H6 H7. unfold Store._apply_kept_ids.
  rewrite H1, H2, H3, H4. fold h5. cbv zeta. rewrite H5. fold h7 h8. rewrite H6, H7. done.
Qed.

Lemma report_typed_at h r :
  Store.report_typed h r →
  ∃ st nt c rest,
    h !! r = Some (Store.OReport st nt c rest)
    ∧ Store.report_stats h r = st ∧ Store.report_new_titles h r = nt
    ∧ Store.typed Store.groups_shape h st ∧ Store.typed Store.groups_shape h nt
    ∧ Store.report_fp h r
      = r :: Store.fp Store.groups_shape h st ++ Store.fp Store.groups_shape h nt
    ∧ Store.report_value h r =
        Report (Store.value Store.groups_shape h st) (Store.value Store.groups_shape h nt)
               c rest.
Proof.
  intros ((st & nt & c & rest & Hr) & Hts & Htn). exists st, nt, c, rest.
  unfold Store.report_fp, Store.report_value in *.
  unfold Store.report_stats, Store.report_new_titles in *. rewrite Hr in *. done.
Qed.

(** The rewriter on the store refines the rewriter on values: on
    arguments none of which holds an object at two places, the objects
    it returns stand for the values [_apply_kept_ids] computes from the
    values of the arguments. *)
Lemma apply_kept_ids_refines h (r : nat) (a b : option nat) keep_ids
    (pointers : gmap pystr pointer) decisions :
  Store.unshared h r a b →
  ∃ r' a' b' h',
    Store._apply_kept_ids r a b keep_ids pointers decisions h = ((r', a', b'), h')
    ∧ (Store.report_value h' r', Store.collection_value h' a', Store.collection_value h' b')
      = _apply_kept_ids (Store.report_value h r) (Store.collection_value h a)
          (Store.collection_value h b) keep_ids pointers decisions.
Proof.
  intros Hun. pose proof groups_shape_ok as [Hdomg _].
  destruct (copy_phase h r a b Hun)
    as (r1 & a1 & b1 & h1 & h2 & h3 & Hc1 & Hc2 & Hc3 & Htr & Hta & Htb & Hnd & Hvr & Hva & Hvb).
  destruct (report_typed_at h3 r1 Htr)
    as (st & nt & c & rest & Hr3 & Hrs3 & Hrn3 & Hts & Htn & Hfpr & Hvr3).
  rewrite Hfpr in Hnd.
  assert (Hdoms : ∀ l, l ∈ Store.fp Store.groups_shape h3 st → l ∈ dom h3)
    by (intros l; by apply Hdomg).
  assert (Hdomn : ∀ l, l ∈ Store.fp Store.groups_shape h3 nt → l ∈ dom h3)
    by (intros l; by apply Hdomg).
  assert (Hdoma : ∀ l, l ∈ Store.fp Store.groups_shape h3 a1 → l ∈ dom h3)
    by (intros l; by apply Hdomg).
  assert (Hdomb : ∀ l, l ∈ Store.fp Store.groups_shape h3 b1 → l ∈ dom h3)
    by (intros l; by apply Hdomg).
  assert (Hdomr : r1 ∈ dom h3) by (apply elem_of_dom; eauto).
  remember (Store.fp Store.groups_shape h3 st) as Fs eqn:HFs.
  remember (Store.fp Store.groups_shape h3 nt) as Fn eqn:HFn.
  remember (Store.fp Store.groups_shape h3 a1) as Fa eqn:HFa.
  remember (Store.fp Store.groups_shape h3 b1) as Fb eqn:HFb.
  change ((r1 :: Fs ++ Fn) ++ Fa ++ Fb) with (r1 :: (Fs ++ Fn) ++ Fa ++ Fb) in Hnd.
  apply NoDup_cons in Hnd as [Hr Hnd].
  rewrite !not_elem_of_app in Hr. destruct Hr as ((Hrs & Hrn) & Hra & Hrb).
  apply NoDup_app in Hnd as (Hndsn & Hsn_ab & Hndab).
  apply NoDup_app in Hndsn as (Hnds & Hsn & Hndn).
  apply NoDup_app in Hndab as (Hnda & Hab & Hndb).
  assert (Hsa : ∀ l, l ∈ Fs → l ∉ Fa).
  { intros l Hl Hl'. apply (Hsn_ab l); apply elem_of_app; by left. }
  assert (Hsb : ∀ l, l ∈ Fs → l ∉ Fb).
  { intros l Hl Hl'. apply (Hsn_ab l); apply elem_of_app; [by left | by right]. }
  assert (Hna : ∀ l, l ∈ Fn → l ∉ Fa).
  { intros l Hl Hl'. apply (Hsn_ab l); apply elem_of_app; [by right | by left]. }
  assert (Hnb : ∀ l, l ∈ Fn → l ∉ Fb).
  { intros l Hl Hl'. apply (Hsn_ab l); apply elem_of_app; by right. }
  clear Hsn_ab.
  (* the stats *)
  destruct (rewrite_root hot_stats true keep_ids decisions st h3 Hts)
    as (h4 & Hrun1 & Hch1 & HtN1 & HndN1 & HinN1 & HvN1); [by rewrite <- HFs|].
  cbv zeta in *. set (N1 := fresh (dom h3)) in *. rewrite <- HFs in Hch1, HinN1.
  assert (Hr4 : h4 !! r1 = Some (Store.OReport st nt c rest)).
  { destruct Hch1 as [_ Hf]. by rewrite Hf. }
  set (h5 := Store.set_stats_at r1 N1 h4).
  assert (Hh5 : h5 = <[r1 := Store.OReport (Some N1) nt c rest]> h4).
  { unfold h5, Store.set_stats_at. by rewrite Hr4. }
  assert (Hch2 : Store.changes_within h4 h5 [r1]).
  { rewrite Hh5. apply changes_within_insert. by left. }
  pose proof (changes_within_trans _ _ _ _ _ Hch1 Hch2) as Hch35.
  destruct (groups_carry h3 h3 h5 (Fs ++ [r1]) Fn nt Htn) as (Htn5 & Hfpn5 & Hvn5);
    [rewrite <- HFn; by left | done | | |].
  { intros l [Hl|Hl]%elem_of_app; [by apply Hdoms|].
    apply list_elem_of_singleton in Hl as ->. done. }
  { intros l Hl [Hl'|Hl']%elem_of_app; [by apply (Hsn l)|].
    apply list_elem_of_singleton in Hl' as ->. done. }
  rewrite <- HFn in Hfpn5.
  assert (Hr5 : h5 !! r1 = Some (Store.OReport (Some N1) nt c rest)).
  { rewrite Hh5. apply lookup_insert_eq. }
  assert (Hrn5 : Store.report_new_titles h5 r1 = nt).
  { unfold Store.report_new_titles. by rewrite Hr5. }
  (* the new titles *)
  destruct (rewrite_root hot_new false keep_ids decisions nt h5 Htn5)
    as (h6 & Hrun2 & Hch3 & HtN2 & HndN2 & HinN2 & HvN2); [by rewrite Hfpn5|].
  cbv zeta in *. set (N2 := fresh (dom h5)) in *. rewrite Hfpn5 in Hch3, HinN2.
  assert (Hd35 : dom h3 ⊆ dom h5) by apply Hch35.
  assert (Hr6 : h6 !! r1 = Some (Store.OReport (Some N1) nt c rest)).
  { destruct Hch3 as [_ Hf]. rewrite Hf; [done | by apply Hd35 | done]. }
  set (h7 := Store.set_new_titles_at r1 N2 h6).
  assert (Hh7 : h7 = <[r1 := Store.OReport (Some N1) (Some N2) c rest]> h6).
  { unfold h7, Store.set_new_titles_at. by rewrite Hr6. }
  set (total := Store.sum_titles h7 (Store.list_at h7 (Some N2))).
  set (h8 := Store.set_total_at r1 total h7).
  assert (Hh8 : h8 = <[r1 := Store.OReport (Some N1) (Some N2) (Some total) rest]> h7).
  { unfold h8, Store.set_total_at. rewrite Hh7, lookup_insert_eq. done. }
  assert (Hch4 : Store.changes_within h6 h7 [r1]).
  { rewrite Hh7. apply changes_within_insert. by left. }
  assert (Hch5 : Store.changes_within h7 h8 [r1]).
  { rewrite Hh8. apply changes_within_insert. by left. }
  pose proof (changes_within_trans _ _ _ _ _ Hch35 Hch3) as Hch36.
  pose proof (changes_within_trans _ _ _ _ _ Hch36
                (changes_within_trans _ _ _ _ _ Hch4 Hch5)) as Hch38.
  assert (Hr8 : h8 !! r1 = Some (Store.OReport (Some N1) (Some N2) (Some total) rest)).
  { rewrite Hh8. apply lookup_insert_eq. }
  (* the RSS list *)
  destruct (groups_carry h3 h3 h8 _ Fa a1 Hta ltac:(rewrite <- HFa; by left) Hch38)
    as (Hta8 & Hfpa8 & Hva8).
  { clear -Hdoms Hdomn Hdomr. in_parts. }
  { clear -Hsa Hna Hra. intros l Hl Hl'. revert Hl'. in_parts. }
  rewrite <- HFa in Hfpa8.
  destruct (rewrite_opt_refines rss_stats keep_ids decisions a1 h8 Hta8)
    as (a2 & h9 & Hrun3 & Hch6 & HtA2 & HndA2 & HinA2 & HvA2); [by rewrite Hfpa8|].
  rewrite Hfpa8 in Hch6, HinA2.
  pose proof (changes_within_trans _ _ _ _ _ Hch38 Hch6) as Hch39.
  (* the new RSS list *)
  destruct (groups_carry h3 h3 h9 _ Fb b1 Htb ltac:(rewrite <- HFb; by left) Hch39)
    as (Htb9 & Hfpb9 & Hvb9).
  { clear -Hdoms Hdomn Hdomr Hdoma. in_parts. }
  { clear -Hsb Hnb Hrb Hab. intros l Hl Hl'. revert Hl'. in_parts. }
  rewrite <- HFb in Hfpb9.
  destruct (rewrite_opt_refines rss_new keep_ids decisions b1 h9 Htb9)
    as (b2 & h10 & Hrun4 & Hch7 & HtB2 & HndB2 & HinB2 & HvB2); [by rewrite Hfpb9|].
  rewrite Hfpb9 in Hch7, HinB2.
  (* what the outputs stand for at the end *)
  assert (Hd38 : dom h3 ⊆ dom h8) by apply Hch38.
  pose proof (changes_within_trans _ _ _ _ _ Hch6 Hch7) as Hch810.
  pose proof (changes_within_trans _ _ _ _ _
                (changes_within_trans _ _ _ _ _ Hch4 Hch5) Hch810) as Hch610.
  pose proof (changes_within_trans _ _ _ _ _ Hch2
                (changes_within_trans _ _ _ _ _ Hch3 Hch610)) as Hch410.
  destruct (groups_carry h3 h4 h10 _ Fs (Some N1) HtN1 HinN1 Hch410) as (_ & _ & HvN1').
  { clear -Hdomn Hdomr Hdoma Hdomb. in_parts. }
  { clear -Hsn Hsa Hsb Hrs. intros l Hl Hl'. revert Hl'. in_parts. }
  assert (HinN2' : ∀ l, l ∈ Store.fp Store.groups_shape h6 (Some N2) →
    (l ∈ Fn) ∨ (l ∉ dom h3)).
  { intros l Hl. destruct (HinN2 l Hl) as [?|Hnew]; [by left|right].
    intros Hd. by apply Hnew, Hd35. }
  destruct (groups_carry h3 h6 h7 _ Fn (Some N2) HtN2 HinN2' Hch4) as (_ & _ & HvN27).
  { clear -Hdomr. in_parts. }
  { clear -Hrn. intros l Hl Hl'. revert Hl'. in_parts. }
  destruct (groups_carry h3 h6 h10 _ Fn (Some N2) HtN2 HinN2' Hch610) as (_ & _ & HvN2').
  { clear -Hdomr Hdoma Hdomb. in_parts. }
  { clear -Hna Hnb Hrn. intros l Hl Hl'. revert Hl'. in_parts. }
  assert (HinA2' : ∀ l, l ∈ Store.fp Store.groups_shape h9 a2 → (l ∈ Fa) ∨ (l ∉ dom h3)).
  { intros l Hl. destruct (HinA2 l Hl) as [?|Hnew]; [by left|right].
    intros Hd. by apply Hnew, Hd38. }
  destruct (groups_carry h3 h9 h10 _ Fa a2 HtA2 HinA2' Hch7) as (_ & _ & HvA2').
  { done. }
  { done. }
  assert (Hr10 : h10 !! r1 = Some (Store.OReport (Some N1) (Some N2) (Some total) rest)).
  { destruct Hch810 as [_ Hf]. rewrite Hf; [done | by apply Hd38 |].
    rewrite not_elem_of_app. done. }
  exists r1, a2, b2, h10. split.
  { eapply apply_kept_ids_steps; [done | done | done | by rewrite Hrs3 | | done | done].
    fold h5. by rewrite Hrn5. }
  assert (Htotal : total =
    sum_titles (rewrite_groups hot_new false keep_ids decisions
                  (default [] (Store.value Store.groups_shape h3 nt)))).
  { unfold total. rewrite sum_titles_refines.
    change (Store.group_value h7 <$> Store.list_at h7 (Some N2))
      with (default [] (Store.value Store.groups_shape h7 (Some N2))).
    by rewrite HvN27, HvN2, Hvn5. }
  rewrite <- Hvr, Hvr3. unfold _apply_kept_ids.
  cbn [r_stats r_new_titles r_rest].
  rewrite (report_value_at h10 r1 _ _ _ _ Hr10), HvN1', HvN1, HvN2', HvN2, Hvn5, Htotal.
  change (Store.collection_value h10 a2) with (Store.value Store.groups_shape h10 a2).
  change (Store.collection_value h10 b2) with (Store.value Store.groups_shape h10 b2).
  rewrite HvA2', HvA2, Hva8, Hva, HvB2, Hvb9, Hvb. done.
Qed.

End store_shapes.

(** ** The pipeline on the store *)

Section store_pipeline.
Context `{Runtime}.


End store_pipeline.

(** ** What the rewriter guarantees on the store *)

(** C6, as the code has it. Rewriter shape: for every invocation of
    [_apply_kept_ids] on a report and two RSS lists of the annotated
    shape none of which holds a dictionary or a list at two places, in
    each of the four collections of the result the groups are, in their
    original order, the groups with at least one entry whose positional
    id is in the kept-id set; each holds exactly those entries (with the
    [brief] of their decision), in their original relative order; no
    group is left with an empty title list. The collections are read in
    the store: the arguments before the call, the result after it. *)
Theorem rewriter_shape (h : gmap nat Store.obj) (report_data : nat)
    (rss_items rss_new_items : option nat) (keep_ids : gset pystr)
    (pointers : gmap pystr pointer) (decisions : gmap pystr decision) :
  Store.unshared h report_data rss_items rss_new_items →
  ∃ report' rss' rss_new' h',
    Store._apply_kept_ids report_data rss_items rss_new_items keep_ids pointers decisions h
      = ((report', rss', rss_new'), h')
    ∧ let shaped section input output :=
        rewritten section keep_ids decisions input output
        ∧ Forall (λ g, titles_of g ≠ []) output in
      shaped hot_stats (default [] (r_stats (Store.report_value h report_data)))
                       (default [] (r_stats (Store.report_value h' report')))
      ∧ shaped hot_new (default [] (r_new_titles (Store.report_value h report_data)))
                       (default [] (r_new_titles (Store.report_value h' report')))
      ∧ shaped rss_stats (default [] (Store.collection_value h rss_items))
                         (default [] (Store.collection_value h' rss'))
      ∧ shaped rss_new (default [] (Store.collection_value h rss_new_items))
                       (default [] (Store.collection_value h' rss_new')).
Proof.
  intros Hun.
  destruct (apply_kept_ids_refines h report_data rss_items rss_new_items keep_ids pointers
              decisions Hun) as (r' & a' & b' & h' & Hrun & Hval).
  exists r', a', b', h'. split; [done|].
  pose proof (rewriter_shape_values (Store.report_value h report_data)
                (Store.collection_value h rss_items) (Store.collection_value h rss_new_items)
                keep_ids pointers decisions) as Hshape.
  rewrite <- Hval in Hshape. exact Hshape.
Qed.

Section store_guarantees.
Context `{Runtime}.


End store_guarantees.

(** * Worked examples *)

(** The end-to-end scenario of the design document. *)
Example end_to_end :
  (@filter_before_send service_AB gate_on two_titles daily None None []).2
  = Ok (Report
          (Some [Group (Some (py "AI"))
                   (Some [Entry (Some (py "A")) None None None None (Some (py "X")) ∅])
                   (Some 1) ∅])
          (Some []) (Some 0) ∅,
        None, None, Stats 2 2 1 1 []).
Proof. vm_compute. reflexivity. Qed.

(** C1, as stated, fails: with the gate disabled and no API key
    configured, the inputs come back unchanged but [stats.error] is
    empty. *)
Lemma fail_open_silent_when_disabled :
  enabled gate_off = false
  ∧ py_strip (str_or (API_KEY gate_off) []) = []
  ∧ (@filter_before_send service_AB gate_off two_titles daily None None []).2
    = Ok (two_titles, None, None, stats0)
  ∧ error stats0 = [].
Proof. repeat split. Qed.

(** [fail_open] where the second of two chunks times out. *)
Lemma fail_open_witness :
  ∃ stats,
    (@filter_before_send service_timeout gate_one_by_one two_titles daily None None []).2
    = Ok (two_titles, None, None, stats)
    ∧ error stats ≠ [].
Proof.
  apply (proj1 (@fail_open service_timeout gate_one_by_one two_titles daily None None)).
  right. eexists. split.
  - apply list_elem_of_lookup. exists 1%nat. vm_compute. reflexivity.
  - vm_compute. reflexivity.
Defined.

(** [merger_keep_law] at the id of "A", kept with score 80. *)
Lemma merger_keep_law_witness :
  py "hot_stats:0:0" ∈ c_id <$> (_collect_candidates two_titles None None).1
  ∧ py "hot_stats:0:0"
      ∈ merge_decisions gate_on (_collect_candidates two_titles None None).1 decisions_AB.
Proof.
  assert (Hid : py "hot_stats:0:0" ∈ c_id <$> (_collect_candidates two_titles None None).1).
  { apply list_elem_of_lookup. exists 0%nat. vm_compute. reflexivity. }
  split; [exact Hid|].
  apply (proj1 (merger_keep_law gate_on _ decisions_AB _ Hid) (Decision true 80 [] (py "X"))).
  - vm_compute. reflexivity.
  - split; [reflexivity | vm_compute; discriminate].
Defined.

(** C3 fails on the code. With [max_items = 1] only "A" is sent; the
    service answers about [hot_stats:0:1], an id it was not asked about,
    and "B", the candidate at position 1, is dropped. *)
Lemma beyond_cap_dropped :
  let run := @filter_before_send service_beyond gate_cap_1 two_titles daily None None [] in
  c_id <$> (_collect_candidates two_titles None None).1
    = [py "hot_stats:0:0"; py "hot_stats:0:1"]
  ∧ (λ chunk : list candidate, c_id <$> chunk) <$> run.1 = [[py "hot_stats:0:0"]]
  ∧ run.2 = Ok (Report (Some [Group (Some (py "AI")) (Some [titled "A"]) (Some 1) ∅])
                  (Some []) (Some 0) ∅,
                None, None, Stats 2 1 1 1 []).
Proof. vm_compute. repeat split. Qed.


(** C5, as stated, fails: an array of numbers is not an array of objects,
    and the batch does not raise on it; it returns no decision. *)
Lemma array_of_numbers_accepted :
  @_safe_json_extract service_numbers answer_numbers = Some answer_numbers
  ∧ @json_loads service_numbers answer_numbers = Ok (JArr [JInt 1; JInt 2])
  ∧ (@_judge_batch service_numbers [] daily []).2 = Ok ∅.
Proof. vm_compute. repeat split. Qed.

(** The extraction on an answer in a code fence, on an answer within
    prose and on a text without brackets. *)
Example extraction_examples :
  @unfenced service_numbers answer_fenced = answer_numbers
  ∧ @_safe_json_extract service_numbers answer_fenced = Some answer_numbers
  ∧ @_safe_json_extract service_numbers (py "Sure: [1, 2] - done.") = Some answer_numbers
  ∧ @_safe_json_extract service_numbers (py "no brackets") = None.
Proof. vm_compute. repeat split. Qed.

(** [brief_hygiene] on a brief of 95 characters with embedded line
    breaks. *)
Lemma brief_hygiene_witness :
  length long_brief = 95%nat
  ∧ ∃ m d, (@_judge_batch service_long [] daily []).2 = Ok m
      ∧ m !! py "hot_stats:0:0" = Some d
      ∧ brief_ok (d_brief d).
Proof.
  split; [reflexivity|].
  eexists _, _. split; [vm_compute; reflexivity|]. split; [vm_compute; reflexivity|].
  eapply (@brief_hygiene service_long [] daily [] _ (py "hot_stats:0:0")).
  - vm_compute. reflexivity.
  - vm_compute. reflexivity.
Defined.

(** [batch_partitioning] on three candidates judged two at a time. *)
Lemma batch_partitioning_witness :
  let items := (_collect_candidates three_titles None None).1 in
  let chunks := batches 2 items in
  let run := @_judge_in_batches service_AB gate_by_two items daily [] in
  length chunks = 2%nat ∧ concat chunks = items
  ∧ run = (chunks, Ok (update_all (@chunk_map service_AB daily <$> chunks))).
Proof.
  intros items chunks run.
  destruct (@batch_partitioning service_AB gate_by_two items daily [])
    as ((Hcat & _ & Hlen) & _ & Hall & _).
  - vm_compute. discriminate.
  - reflexivity.
  - split; [exact Hlen|]. split; [exact Hcat|].
    apply Hall. repeat constructor.
Defined.

(** [blank_titles_dropped] on a group with a blank title. *)
Lemma blank_titles_dropped_witness :
  ∃ report' rss' rss_new' stats,
    (@filter_before_send service_AB gate_on with_blank daily None None []).2
    = Ok (report', rss', rss_new', stats)
    ∧ ∀ groups g' t',
        groups ∈ [default [] (r_stats report'); default [] (r_new_titles report');
                  default [] rss'; default [] rss_new'] →
        g' ∈ groups → t' ∈ titles_of g' → stripped_title t' ≠ [].
Proof.
  eapply (@blank_titles_dropped service_AB gate_on with_blank daily None None []).
  - reflexivity.
  - vm_compute. discriminate.
  - vm_compute. discriminate.
  - vm_compute. reflexivity.
Defined.

Example store_two_titles_value : Store.report_value store_two_titles 6 = two_titles.
Proof. vm_compute. reflexivity. Qed.

(** On this store the rewriter of the store returns objects that stand for
    what the rewriter on values returns. *)
Example end_to_end_store :
  ∃ r stats h',
    (@Store.filter_before_send service_AB gate_on 6%nat daily None None
       store_two_titles []).2 = Ok (r, None, None, stats, h')
    ∧ (@filter_before_send service_AB gate_on two_titles daily None None []).2
      = Ok (Store.report_value h' r, None, None, stats).
Proof. eexists _, _, _. split; vm_compute; reflexivity. Qed.

(** [no_caller_mutation] on the end-to-end scenario: the caller's report
    still stands for its two titles, and the report returned is another
    object. *)
Lemma no_caller_mutation_witness :
  ∃ out h',
    (@Store.filter_before_send service_AB gate_on 6%nat daily None None
       store_two_titles []).2 = Ok (out, h')
    ∧ store_two_titles ⊆ h'
    ∧ Store.report_value h' 6 = two_titles
    ∧ out.1.1.1 ≠ 6%nat.
Proof.
  destruct (@no_caller_mutation service_AB gate_on 6%nat daily None None
              store_two_titles []) as (out & h' & Hrun & Hsub & Hvalue).
  exists out, h'. split; [exact Hrun|]. split; [exact Hsub|]. split.
  - assert (Hclosed : Store.closed store_two_titles)
      by (unfold Store.closed; apply (bool_decide_unpack _); vm_compute; exact I).
    assert (Hroot : 6%nat ∈ dom store_two_titles)
      by (apply elem_of_dom; eexists; vm_compute; reflexivity).
    destruct (Hvalue Hclosed Hroot) as (Hreport & _);
      [intros l Hl; discriminate Hl..|].
    rewrite Hreport. exact store_two_titles_value.
  - vm_compute in Hrun. injection Hrun as Hout _. rewrite <- Hout.
    intros Heq. vm_compute in Heq. discriminate Heq.
Defined.

(** C6, as stated, fails: with one group dictionary at two places of
    [stats], the second visit of the loop reads the titles the first
    visit left; the entry "B" at position 1 of the second group, whose id
    [hot_stats:1:1] is kept, is in no group of the result. *)
Lemma shared_group_loses_kept_entry :
  ∃ r h',
    Store._apply_kept_ids 6%nat None None keep_shared_group ∅ decisions_AB
      store_shared_group = ((r, None, None), h')
    ∧ r_stats (Store.report_value store_shared_group 6) =
        Some [Group (Some (py "AI")) (Some [titled "A"; titled "B"]) (Some 2) ∅;
              Group (Some (py "AI")) (Some [titled "A"; titled "B"]) (Some 2) ∅]
    ∧ mk_id hot_stats 1 1 ∈ keep_shared_group
    ∧ r_stats (Store.report_value h' r) =
        Some [Group (Some (py "AI")) (Some [set_brief (titled "A") (py "X")]) (Some 1) ∅;
              Group (Some (py "AI")) (Some [set_brief (titled "A") (py "X")]) (Some 1) ∅]
    ∧ ¬ rewritten hot_stats keep_shared_group decisions_AB
          (default [] (r_stats (Store.report_value store_shared_group 6)))
          (default [] (r_stats (Store.report_value h' r))).
Proof.
  destruct (Store._apply_kept_ids 6%nat None None keep_shared_group ∅ decisions_AB
              store_shared_group) as [[[r a] b] h'] eqn:Hrun.
  vm_compute in Hrun. injection Hrun as <- <- <- <-.
  eexists _, _. split; [reflexivity|].
  split; [vm_compute; reflexivity|].
  split; [apply (bool_decide_unpack _); vm_compute; exact I|].
  split; [vm_compute; reflexivity|].
  intros Hrw. unfold rewritten in Hrw.
  eapply (Forall2_lookup_lr _ _ _ 1%nat) in Hrw as [Htitles _];
    [|vm_compute; reflexivity..].
  apply (f_equal length) in Htitles. vm_compute in Htitles. discriminate Htitles.
Defined.

(** The same on counts: with one group dictionary in [stats] and in
    [new_titles], the loop over [new_titles] filters the titles the loop
    over [stats] has counted; the group of [stats] is left with the
    count 2 and one title. *)
Lemma shared_group_count_stale :
  ∃ r stats g h',
    (@Store.filter_before_send service_new gate_on 6%nat daily None None
       store_shared_sections []).2 = Ok (r, None, None, stats, h')
    ∧ error stats = []
    ∧ g ∈ default [] (r_stats (Store.report_value h' r))
    ∧ g_count g = Some 2 ∧ length (titles_of g) = 1%nat.
Proof.
  destruct (@Store.filter_before_send service_new gate_on 6%nat daily None None
              store_shared_sections []) as [log [[[[[r a] b] stats] h']|e]] eqn:Hrun;
    vm_compute in Hrun; [|discriminate Hrun].
  injection Hrun as _ <- <- <- <- <-.
  eexists _, _, _, _. split; [reflexivity|].
  split; [reflexivity|]. split; [vm_compute; apply list_elem_of_here|].
  split; reflexivity.
Defined.

(** [rewriter_shape] on the store of the end-to-end scenario. *)
Lemma rewriter_shape_witness :
  Store.unshared store_two_titles 6 None None
  ∧ ∃ report' rss' rss_new' h',
      Store._apply_kept_ids 6%nat None None {[mk_id hot_stats 0 0]} ∅ decisions_AB
        store_two_titles = ((report', rss', rss_new'), h')
      ∧ let shaped section input output :=
          rewritten section {[mk_id hot_stats 0 0]} decisions_AB input output
          ∧ Forall (λ g, titles_of g ≠ []) output in
        shaped hot_stats (default [] (r_stats (Store.report_value store_two_titles 6)))
                         (default [] (r_stats (Store.report_value h' report')))
        ∧ shaped hot_new (default [] (r_new_titles (Store.report_value store_two_titles 6)))
                         (default [] (r_new_titles (Store.report_value h' report')))
        ∧ shaped rss_stats (default [] (Store.collection_value store_two_titles None))
                           (default [] (Store.collection_value h' rss'))
        ∧ shaped rss_new (default [] (Store.collection_value store_two_titles None))
                         (default [] (Store.collection_value h' rss_new')).
Proof.
  assert (Hun : Store.unshared store_two_titles 6 None None)
    by (apply (bool_decide_unpack _); vm_compute; exact I).
  split; [exact Hun|].
  exact (rewriter_shape store_two_titles 6 None None {[mk_id hot_stats 0 0]} ∅
           decisions_AB Hun).
Defined.


(** The stores of the two examples with a shared group are of the
    annotated shape, and the footprint of the report holds an object
    twice. *)
Lemma shared_stores_shape :
  (Store.report_typed store_shared_group 6 ∧ ¬ NoDup (Store.report_fp store_shared_group 6))
  ∧ (Store.report_typed store_shared_sections 6
     ∧ ¬ NoDup (Store.report_fp store_shared_sections 6)).
Proof.
  split; (split; [apply (bool_decide_unpack _); vm_compute; exact I|]);
    apply (bool_decide_unpack _); vm_compute; exact I.
Qed.

(** * Further properties of the gate *)

(** ** The collector: ids and pointers *)

Lemma candidate_at_fields section grp gi p c :
  candidate_at section grp gi p = Some c →
  c_id c = mk_id section gi p.1 ∧ c_title c = stripped_title p.2
  ∧ c_section c = section ∧ c_group c = grp ∧ stripped_title p.2 ≠ [].
Proof.
  unfold candidate_at. destruct (stripped_title p.2) as [|x title] eqn:Ht; [done|].
  intros [= <-]. done.
Qed.

Lemma titles_candidates_form section grp gi titles i c :
  c ∈ omap (candidate_at section grp gi) (enumerate_from i titles) →
  ∃ ti, (i ≤ ti)%nat ∧ c_id c = mk_id section gi ti.
Proof.
  intros Hc. apply list_elem_of_omap in Hc as (p & Hp & Hc).
  apply list_elem_of_lookup in Hp as [k Hk].
  apply enumerate_from_lookup in Hk as [Hk _].
  apply candidate_at_fields in Hc as (Hid & _).
  exists p.1. split; [lia | done].
Qed.

Lemma groups_candidates_form section named groups i c :
  c ∈ concat ((λ p, omap (candidate_at section (group_name named p.2) p.1)
                         (enumerate (titles_of p.2))) <$> enumerate_from i groups) →
  ∃ gi ti, (i ≤ gi)%nat ∧ c_id c = mk_id section gi ti.
Proof.
  intros Hc. apply elem_of_concat in Hc as (l & Hc & Hl).
  apply list_elem_of_fmap in Hl as (p & -> & Hp).
  apply list_elem_of_lookup in Hp as [k Hk].
  apply enumerate_from_lookup in Hk as [Hk _].
  apply titles_candidates_form in Hc as (ti & _ & Hid).
  exists p.1, ti. split; [lia | done].
Qed.

Lemma titles_ids_NoDup section grp gi titles i :
  is_section section →
  NoDup (c_id <$> omap (candidate_at section grp gi) (enumerate_from i titles)).
Proof.
  intros Hsec. revert i. induction titles as [|t titles IH]; intros i.
  - constructor.
  - cbn [enumerate_from].
    change (omap ?f ((i, t) :: ?l)) with
      (match f (i, t) with Some y => y :: omap f l | None => omap f l end).
    destruct (candidate_at section grp gi (i, t)) as [c|] eqn:Hc; [|apply IH].
    rewrite fmap_cons. apply NoDup_cons. split; [|apply IH].
    intros Hin. apply list_elem_of_fmap in Hin as (c' & Hid & Hc').
    apply titles_candidates_form in Hc' as (ti & Hti & Hid').
    apply candidate_at_fields in Hc as (Hidc & _). simpl in Hidc.
    rewrite Hidc, Hid' in Hid. apply mk_id_inj in Hid as (_ & _ & ->); [lia|done..].
Qed.

Lemma groups_ids_NoDup section named groups i :
  is_section section →
  NoDup (c_id <$> concat
           ((λ p, omap (candidate_at section (group_name named p.2) p.1)
                       (enumerate (titles_of p.2))) <$> enumerate_from i groups)).
Proof.
  intros Hsec. revert i. induction groups as [|g groups IH]; intros i.
  - constructor.
  - cbn [enumerate_from]. rewrite fmap_cons. cbn [concat fst snd].
    rewrite fmap_app. apply NoDup_app. split; [by apply titles_ids_NoDup|].
    split; [|apply IH].
    intros id Hin Hin'.
    apply list_elem_of_fmap in Hin as (c & -> & Hc).
    apply list_elem_of_fmap in Hin' as (c' & Hid & Hc').
    apply titles_candidates_form in Hc as (ti & _ & Hc).
    apply groups_candidates_form in Hc' as (gi' & ti' & Hgi & Hc').
    rewrite Hc, Hc' in Hid. apply mk_id_inj in Hid as (_ & -> & _); [lia|done..].
Qed.

Lemma collected_ids_NoDup (report_data : report)
    (rss_items rss_new_items : option (list group)) :
  NoDup (c_id <$> (_collect_candidates report_data rss_items rss_new_items).1).
Proof.
  rewrite collect_candidates_items. unfold sections.
  rewrite !fmap_cons. cbn [concat fst snd fmap list_fmap]. rewrite app_nil_r.
  assert (Hdisj : ∀ s s' b b' (gs gs' : list group) id,
    is_section s → is_section s' → s ≠ s' →
    id ∈ c_id <$> concat ((λ p, omap (candidate_at s (group_name b p.2) p.1)
                                  (enumerate (titles_of p.2))) <$> enumerate gs) →
    id ∈ c_id <$> concat ((λ p, omap (candidate_at s' (group_name b' p.2) p.1)
                                  (enumerate (titles_of p.2))) <$> enumerate gs') →
    False).
  { intros s s' b b' gs gs' id Hs Hs' Hne Hin Hin'.
    apply list_elem_of_fmap in Hin as (c & -> & Hc).
    apply list_elem_of_fmap in Hin' as (c' & Hid & Hc').
    apply groups_candidates_form in Hc as (gi & ti & _ & Hc).
    apply groups_candidates_form in Hc' as (gi' & ti' & _ & Hc').
    rewrite Hc, Hc' in Hid. by apply mk_id_inj in Hid as (? & _). }
  assert (H1 : is_section hot_stats) by (unfold is_section; tauto).
  assert (H2 : is_section hot_new) by (unfold is_section; tauto).
  assert (H3 : is_section rss_stats) by (unfold is_section; tauto).
  assert (H4 : is_section rss_new) by (unfold is_section; tauto).
  rewrite !fmap_app. repeat (apply NoDup_app; split; [by apply groups_ids_NoDup|split]);
    try by apply groups_ids_NoDup.
  - intros id Hin Hin'. rewrite !elem_of_app in Hin'.
    destruct Hin' as [Hin'|[Hin'|Hin']];
      (eapply (Hdisj hot_stats); [exact H1| |  | exact Hin | exact Hin']);
      [exact H2|done|exact H3|done|exact H4|done].
  - intros id Hin Hin'. rewrite !elem_of_app in Hin'.
    destruct Hin' as [Hin'|Hin'];
      (eapply (Hdisj hot_new); [exact H2| |  | exact Hin | exact Hin']);
      [exact H3|done|exact H4|done].
  - intros id Hin Hin'.
    eapply (Hdisj rss_stats); [exact H3|exact H4|done|exact Hin|exact Hin'].
Qed.

(** X1. Candidate ids are unique: no two candidates of one collection
    pass carry the same id, within a section or across sections. *)
Theorem candidate_ids_unique (report_data : report)
    (rss_items rss_new_items : option (list group)) :
  NoDup (c_id <$> (_collect_candidates report_data rss_items rss_new_items).1).
Proof. apply collected_ids_NoDup. Qed.

(** X2. An entry is a candidate exactly when its title is not blank: at
    every position of the four collections, the entry has a candidate with
    the id of its position (and with its trimmed title and its section)
    if and only if its title is not empty after trimming. *)
Theorem candidate_iff_titled (report_data : report)
    (rss_items rss_new_items : option (list group))
    (s : pystr * bool * list group) (gi ti : nat) (g : group) (t : entry) :
  s ∈ sections report_data rss_items rss_new_items →
  s.2 !! gi = Some g → titles_of g !! ti = Some t →
  stripped_title t ≠ [] ↔
  ∃ c, c ∈ (_collect_candidates report_data rss_items rss_new_items).1
       ∧ c_id c = mk_id s.1.1 gi ti ∧ c_title c = stripped_title t
       ∧ c_section c = s.1.1.
Proof.
  intros Hs Hg Ht. split.
  - intros Hne.
    destruct (candidate_at s.1.1 (group_name s.1.2 g) gi (ti, t)) as [c|] eqn:Hc.
    2:{ unfold candidate_at in Hc. simpl in Hc. by destruct (stripped_title t). }
    exists c. pose proof (candidate_at_fields _ _ _ _ _ Hc) as (Hid & Htitle & Hsec & _).
    split; [|done]. rewrite collect_candidates_items.
    apply elem_of_concat. eexists. split; [|by apply list_elem_of_fmap_2].
    apply elem_of_concat. eexists. split.
    2:{ apply list_elem_of_fmap_2. apply elem_of_enumerate. exact Hg. }
    apply list_elem_of_omap. exists (ti, t). split; [|exact Hc].
    by apply elem_of_enumerate.
  - intros (c & Hc & Hid & _).
    eapply candidate_position_titled; [done..|].
    rewrite <- Hid. by apply list_elem_of_fmap_2.
Qed.

Lemma collect_titles_pointers section grp gi titles acc :
  is_section section → pointers_cover acc →
  pointers_cover (collect_titles section grp gi titles acc).
Proof.
  intros Hsec Hacc. unfold collect_titles.
  apply (foldl_enumerate_inv pointers_cover (λ _, True)); [|by apply Forall_true|done].
  clear acc Hacc. intros [items pointers] [ti t] [Hitems Hptrs] _. cbn [fst snd] in *.
  unfold pointers_cover.
  destruct (py_strip (str_or (e_title t) [])) as [|x title]; [done|].
  split; cbn [fst snd].
  - intros c [Hc|Hc%list_elem_of_singleton]%elem_of_app.
    + destruct (decide (mk_id section gi ti = c_id c)) as [<-|Hne].
      * rewrite lookup_insert_eq. by eexists.
      * rewrite lookup_insert_ne by done. by apply Hitems.
    + subst c. cbn [c_id]. rewrite lookup_insert_eq. by eexists.
  - intros id p. destruct (decide (mk_id section gi ti = id)) as [<-|Hne].
    + rewrite lookup_insert_eq. intros [= <-]. cbn [p_section p_gi p_ti].
      split; [done|]. split; [done|]. rewrite fmap_app. apply elem_of_app. right.
      apply list_elem_of_here.
    + rewrite lookup_insert_ne by done. intros Hp.
      destruct (Hptrs id p Hp) as (? & ? & ?). repeat split; try done.
      rewrite fmap_app. apply elem_of_app. by left.
Qed.

Lemma collect_section_pointers section named groups acc :
  is_section section → pointers_cover acc →
  pointers_cover (collect_section section named groups acc).
Proof.
  intros Hsec Hacc. unfold collect_section.
  apply (foldl_enumerate_inv pointers_cover (λ _, True)); [|by apply Forall_true|done].
  intros acc' [gi g] Hacc' _. by apply collect_titles_pointers.
Qed.

(** X3. The pointer map covers the candidates and nothing else: its keys
    are exactly the candidate ids, and the pointer under an id holds the
    section and the two indices the id is made of. *)
Theorem candidate_pointers (report_data : report)
    (rss_items rss_new_items : option (list group)) :
  let collected := _collect_candidates report_data rss_items rss_new_items in
  dom collected.2 = list_to_set (c_id <$> collected.1)
  ∧ ∀ id p, collected.2 !! id = Some p →
      id = mk_id (p_section p) (p_gi p) (p_ti p) ∧ is_section (p_section p).
Proof.
  intros collected.
  assert (Hinv : pointers_cover collected).
  { subst collected. unfold _collect_candidates.
    repeat (apply collect_section_pointers; [unfold is_section; tauto|]).
    split; [by intros ? ?%elem_of_nil|]. intros id p Hp. simpl in Hp.
    by rewrite lookup_empty in Hp. }
  destruct Hinv as [Hitems Hptrs]. split.
  - apply set_eq. intros id. rewrite elem_of_dom, elem_of_list_to_set. split.
    + intros [p Hp]. by apply Hptrs in Hp as (_ & _ & ?).
    + intros (c & -> & Hc)%list_elem_of_fmap. by apply Hitems.
  - intros id p Hp. apply Hptrs in Hp as (? & ? & _). done.
Qed.

(** ** The merger and the statistics *)

(** X4. A stricter threshold keeps no more: raising [min_score] can only
    shrink the kept-id set. *)
Theorem stricter_threshold_keeps_less (self self' : AIQualityGate)
    (items : list candidate) (decisions : gmap pystr decision) :
  min_score self ≤ min_score self' →
  merge_decisions self' items decisions ⊆ merge_decisions self items decisions.
Proof.
  intros Hle id. rewrite !merge_decisions_elem. intros [Hid Hpass].
  split; [done|]. destruct (decisions !! id) as [d|]; [|done].
  simpl in *. split; [tauto | lia].
Qed.

Lemma merge_decisions_size self (report_data : report)
    (rss_items rss_new_items : option (list group)) decisions
    (items := (_collect_candidates report_data rss_items rss_new_items).1) :
  (size (merge_decisions self items decisions) ≤ length items)%nat
  ∧ ((∀ c, c ∈ items → decisions !! c_id c = None) →
     size (merge_decisions self items decisions) = length items).
Proof.
  assert (Hlen : size (list_to_set (C := gset pystr) (c_id <$> items)) = length items).
  { rewrite size_list_to_set by apply collected_ids_NoDup. apply length_fmap. }
  split.
  - rewrite <- Hlen. apply subseteq_size. intros id Hid.
    apply elem_of_list_to_set. by eapply merge_decisions_subset.
  - intros Hnone. rewrite <- Hlen. f_equal. apply set_eq. intros id.
    rewrite merge_decisions_elem, elem_of_list_to_set. split; [tauto|].
    intros Hid. split; [done|].
    apply list_elem_of_fmap in Hid as (c & -> & Hc). by rewrite Hnone.
Qed.

Section accounting.
Context `{Runtime}.
Variables (self : AIQualityGate) (report_data : report) (mode : pystr).
Variables (rss_items rss_new_items : option (list group)).

Let items := (_collect_candidates report_data rss_items rss_new_items).1.
Let api_key := py_strip (str_or (API_KEY self) []).

(** X5. No evaluation, no call: when the gate is disabled, when no API
    key is configured, or when there is no candidate, [filter_before_send]
    issues no call to the service, returns its inputs as they are and
    reports nothing evaluated, kept or dropped. *)
Theorem early_exit_calls_nothing (log : list (list candidate)) :
  enabled self = false ∨ api_key = [] ∨ items = [] →
  ∃ stats,
    filter_before_send self report_data mode rss_items rss_new_items log
    = (log, Ok (report_data, rss_items, rss_new_items, stats))
    ∧ evaluated_items stats = 0%nat ∧ kept_items stats = 0%nat
    ∧ dropped_items stats = 0%nat.
Proof.
  intros Hexit. destruct (enabled self) eqn:He.
  2:{ exists stats0. by rewrite fbs_disabled. }
  destruct (decide (api_key = [])) as [Hk|Hk].
  { eexists. by rewrite fbs_no_key. }
  destruct Hexit as [?|[?|Hi]]; [done..|].
  eexists. by rewrite fbs_no_items.
Qed.

(** X6. The statistics add up: after a pass that reached the rewriter,
    [total_items] is the number of candidates, [evaluated_items] the
    number of candidates sent (at most [total_items], and at most
    [max_items] when that is positive), [kept_items] is at most
    [total_items], [kept_items + dropped_items = total_items], and
    [error] is empty. *)
Theorem stats_add_up (log : list (list candidate)) (decisions : gmap pystr decision) :
  enabled self = true → api_key ≠ [] → items ≠ [] →
  (_judge_in_batches self (eval_items_of self items) mode log).2 = Ok decisions →
  ∃ out stats,
    (filter_before_send self report_data mode rss_items rss_new_items log).2
      = Ok (out, stats)
    ∧ total_items stats = length items
    ∧ evaluated_items stats = length (eval_items_of self items)
    ∧ (evaluated_items stats ≤ total_items stats)%nat
    ∧ (0 < max_items self → (evaluated_items stats ≤ Z.to_nat (max_items self))%nat)
    ∧ kept_items stats = size (merge_decisions self items decisions)
    ∧ (kept_items stats + dropped_items stats = total_items stats)%nat
    ∧ error stats = [].
Proof.
  intros He Hk Hi Hrun. rewrite fbs_judged by done. cbn [fst snd].
  fold items. rewrite Hrun. eexists _, _. split; [reflexivity|].
  cbn [total_items evaluated_items kept_items dropped_items error
       set_kept set_evaluated set_total stats0].
  pose proof (merge_decisions_size self report_data rss_items rss_new_items decisions)
    as [Hsize _]. fold items in Hsize.
  assert (Hev : (length (eval_items_of self items) ≤ length items)%nat
                ∧ (0 < max_items self →
                   (length (eval_items_of self items) ≤ Z.to_nat (max_items self))%nat)).
  { unfold eval_items_of. destruct (Z.gtb_spec (max_items self) 0).
    - rewrite length_take. lia.
    - split; [done | lia]. }
  repeat split; try tauto; try done. lia.
Qed.

(** X7. An answer that names no candidate drops nothing: when the
    decision map holds no decision for any candidate (an empty array from
    the service, say), every candidate is kept and [dropped_items] is 0. *)
Theorem silent_answer_drops_nothing (log : list (list candidate))
    (decisions : gmap pystr decision) :
  enabled self = true → api_key ≠ [] → items ≠ [] →
  (_judge_in_batches self (eval_items_of self items) mode log).2 = Ok decisions →
  (∀ c, c ∈ items → decisions !! c_id c = None) →
  ∃ out stats,
    (filter_before_send self report_data mode rss_items rss_new_items log).2
      = Ok (out, stats)
    ∧ merge_decisions self items decisions = list_to_set (c_id <$> items)
    ∧ kept_items stats = total_items stats ∧ dropped_items stats = 0%nat.
Proof.
  intros He Hk Hi Hrun Hnone. rewrite fbs_judged by done. cbn [fst snd].
  fold items. rewrite Hrun. eexists _, _. split; [reflexivity|].
  cbn [total_items evaluated_items kept_items dropped_items
       set_kept set_evaluated set_total stats0].
  pose proof (merge_decisions_size self report_data rss_items rss_new_items decisions)
    as [_ Hsize]. fold items in Hsize. rewrite (Hsize Hnone).
  split; [|split; [done | lia]].
  apply set_eq. intros id. rewrite merge_decisions_elem, elem_of_list_to_set.
  split; [tauto|]. intros Hid. split; [done|].
  apply list_elem_of_fmap in Hid as (c & -> & Hc). by rewrite Hnone.
Qed.

(** X8. The cap holds for what is sent: over one call of
    [filter_before_send], the candidates sent to the service, chunk after
    chunk, are a prefix of the candidates to evaluate, themselves the
    first [max_items] candidates when [max_items] is positive; so no more
    than [max_items] candidates are ever sent and none is sent twice. *)
Theorem sent_within_cap :
  let run := filter_before_send self report_data mode rss_items rss_new_items [] in
  concat run.1 `prefix_of` eval_items_of self items
  ∧ eval_items_of self items `prefix_of` items
  ∧ (0 < max_items self → (length (concat run.1) ≤ Z.to_nat (max_items self))%nat).
Proof.
  intros run.
  assert (Hev : eval_items_of self items `prefix_of` items
                ∧ (0 < max_items self →
                   (length (eval_items_of self items) ≤ Z.to_nat (max_items self))%nat)).
  { unfold eval_items_of. destruct (Z.gtb_spec (max_items self) 0).
    - split; [apply prefix_take|]. rewrite length_take. lia.
    - split; [done | lia]. }
  assert (Hsent : concat run.1 `prefix_of` eval_items_of self items).
  { subst run. destruct (enabled self) eqn:He.
    2:{ rewrite fbs_disabled by done. apply prefix_nil. }
    destruct (decide (api_key = [])) as [Hk|Hk].
    { rewrite fbs_no_key by done. apply prefix_nil. }
    destruct (decide (items = [])) as [Hi|Hi].
    { rewrite fbs_no_items by done. apply prefix_nil. }
    rewrite fbs_judged by done. cbn [fst snd]. fold items.
    assert (Hne : eval_items_of self items ≠ []).
    { unfold eval_items_of. destruct (Z.gtb_spec (max_items self) 0); [|done].
      destruct items; [done|]. destruct (Z.to_nat (max_items self)) eqn:Hn; [lia|done]. }
    destruct (judge_in_batches_run self (eval_items_of self items) mode [] Hne)
      as (k & _ & Hlog & _). rewrite Hlog. cbn [app].
    set (B := if negb (batch_size self =? 0) && (batch_size self >? 0)
              then Z.to_nat (batch_size self)
              else length (eval_items_of self items)).
    assert (HB : (0 < B)%nat).
    { subst B. destruct (negb _ && _) eqn:Hb.
      - apply andb_true_iff in Hb as [_ Hb]. lia.
      - destruct (eval_items_of self items); [done | simpl; lia]. }
    rewrite <- (batches_concat B (eval_items_of self items) HB) at 2.
    rewrite <- (take_drop k (batches B (eval_items_of self items))) at 2.
    rewrite concat_app. by eexists. }
  split; [done|]. split; [tauto|]. intros Hpos.
  destruct Hev as [_ Hev]. specialize (Hev Hpos).
  apply prefix_length in Hsent. lia.
Qed.
End accounting.

(** ** The batch judge: failure and the single batch *)

Lemma range_go_done (fuel start stop step : nat) :
  (stop ≤ start)%nat → range_go fuel start stop step = [].
Proof.
  intros Hle. destruct fuel as [|fuel]; simpl; [done|].
  destruct (Nat.ltb_spec start stop); [lia | done].
Qed.

Lemma batches_single (B : nat) (items : list candidate) :
  items ≠ [] → (length items ≤ B)%nat → batches B items = [items].
Proof.
  intros Hne HB. unfold batches, py_range.
  destruct items as [|c items]; [done|]. cbn [length range_go Nat.ltb Nat.leb].
  rewrite range_go_done by (simpl in HB; lia).
  cbn [fmap list_fmap]. f_equal. unfold slice.
  rewrite drop_0. apply take_ge. simpl in *. lia.
Qed.

Section judge_edges.
Context `{Runtime}.

(** X9. A failing batch ends the pass: when [_judge_in_batches] raises,
    the exception is that of the first chunk whose call raised; every
    chunk before it was called and returned, and no chunk after it was
    called. *)
Theorem judge_stops_at_first_failure (self : AIQualityGate) (items : list candidate)
    (mode : pystr) (log : list (list candidate)) (e : exn) :
  items ≠ [] →
  (_judge_in_batches self items mode log).2 = Raise e →
  let chunks := batches (effective_batch_size self items) items in
  ∃ k c,
    chunks !! k = Some c ∧ batch_outcome c mode = Raise e
    ∧ Forall (λ c, is_raise (batch_outcome c mode) = false) (take k chunks)
    ∧ (_judge_in_batches self items mode log).1 = log ++ take (S k) chunks.
Proof.
  intros Hne Hraise chunks.
  destruct (judge_in_batches_run self items mode log Hne)
    as (k & _ & Hlog & Hpre & Hres).
  rewrite Hraise in Hres. destruct Hres as (c & Hc & Hk & Hout).
  destruct k as [|k]; [lia|]. cbn [pred] in *.
  exists k, c. done.
Qed.

(** X10. One batch when the batch size does not cut: with a batch size
    that is zero, negative or at least the number of items,
    [_judge_in_batches] sends all items in one call and returns what that
    call returns. *)
Theorem single_batch (self : AIQualityGate) (items : list candidate)
    (mode : pystr) (log : list (list candidate)) :
  items ≠ [] →
  batch_size self ≤ 0 ∨ Z.of_nat (length items) ≤ batch_size self →
  _judge_in_batches self items mode log = (log ++ [items], batch_outcome items mode).
Proof.
  intros Hne Hsize.
  assert (Hchunks : batches (effective_batch_size self items) items = [items]).
  { apply batches_single; [done|]. unfold effective_batch_size.
    destruct (negb _ && _) eqn:Hb; [|done].
    apply andb_true_iff in Hb as [_ Hb]. lia. }
  destruct (judge_in_batches_run self items mode log Hne)
    as (k & Hk & Hlog & Hpre & Hres).
  fold (effective_batch_size self items) in Hk, Hlog, Hpre, Hres.
  rewrite Hchunks in Hk, Hlog, Hpre, Hres.
  destruct (_judge_in_batches self items mode log) as [log' r]. cbn [fst snd] in *.
  destruct r as [d|e].
  - destruct Hres as (-> & Hall & ->). cbn [length take] in Hlog. subst log'.
    f_equal. apply Forall_inv in Hall.
    unfold update_all, chunk_map. cbn [fmap list_fmap reverse].
    destruct (batch_outcome items mode) as [m|]; [|done].
    f_equal. unfold reverse. cbn [rev_append union_list foldr].
    by rewrite (right_id_L ∅ (∪)).
  - destruct Hres as (c & Hc & Hk0 & Hout).
    assert (k = 1%nat) as -> by (simpl in Hk; lia).
    cbn [pred take] in *. injection Hc as <-. subst log'. by rewrite Hout.
Qed.
End judge_edges.

(** ** What the rewriter writes into a surviving entry *)

Lemma union_list_lookup (maps : list (gmap pystr decision)) (rid : pystr) (d : decision) :
  (⋃ maps) !! rid = Some d → ∃ m, m ∈ maps ∧ m !! rid = Some d.
Proof.
  induction maps as [|m maps IH]; simpl.
  - by rewrite lookup_empty.
  - intros [Hm|[_ Hrest]]%lookup_union_Some_raw.
    + exists m. split; [apply list_elem_of_here | done].
    + destruct (IH Hrest) as (m' & Hin & Hm'). exists m'.
      split; [by apply list_elem_of_further | done].
Qed.

Section output_entries.
Context `{Runtime}.

Lemma batch_outcome_brief chunk mode m rid d :
  batch_outcome chunk mode = Ok m → m !! rid = Some d → brief_ok (d_brief d).
Proof.
  unfold batch_outcome, _judge_batch, call_chat, mbind, M_bind, bind, lift. simpl.
  destruct (chat chunk mode) as [raw|e]; [|done]. unfold parse_response.
  destruct (_safe_json_extract raw) as [[|c extracted]|]; [done| |done].
  destruct (json_loads (c :: extracted)) as [v|e]; [|done].
  destruct v; try done. cbn [snd]. intros Hm Hd.
  pose proof (judge_rows elems) as Hrows. rewrite Hm in Hrows.
  destruct Hrows as [_ Hrows]. apply Hrows in Hd as (i & row & _ & Hrow & _).
  by eapply row_entry_brief.
Qed.

(** Every decision the judge returns carries a clean brief. *)
Lemma judged_briefs self items mode log decisions rid d :
  (_judge_in_batches self items mode log).2 = Ok decisions →
  decisions !! rid = Some d → brief_ok (d_brief d).
Proof.
  destruct (decide (items = [])) as [->|Hne].
  { intros [= <-]. by rewrite lookup_empty. }
  intros Hrun Hd.
  destruct (judge_in_batches_run self items mode log Hne) as (k & _ & _ & _ & Hres).
  rewrite Hrun in Hres. destruct Hres as (_ & _ & ->).
  unfold update_all in Hd. apply union_list_lookup in Hd as (m & Hm & Hd).
  apply elem_of_reverse, list_elem_of_fmap in Hm as (c & -> & Hc).
  unfold chunk_map in Hd. destruct (batch_outcome c mode) as [m|] eqn:Hout.
  - by eapply batch_outcome_brief.
  - by rewrite lookup_empty in Hd.
Qed.

(** X11. A surviving entry is its original, at most with a new brief:
    after a pass that reached the rewriter, every entry of the four
    returned collections is an entry of the input, either unchanged or
    with its [brief] replaced by a text that is not empty, holds no line
    feed or carriage return and has at most 80 characters; no other field
    of an entry is touched. *)
Theorem surviving_entries_annotated (self : AIQualityGate) (report_data : report)
    (mode : pystr) (rss_items rss_new_items : option (list group))
    (log : list (list candidate)) (decisions : gmap pystr decision) :
  let items := (_collect_candidates report_data rss_items rss_new_items).1 in
  enabled self = true → py_strip (str_or (API_KEY self) []) ≠ [] → items ≠ [] →
  (_judge_in_batches self (eval_items_of self items) mode log).2 = Ok decisions →
  ∃ report' rss' rss_new' stats,
    (filter_before_send self report_data mode rss_items rss_new_items log).2
      = Ok (report', rss', rss_new', stats)
    ∧ ∀ groups g' t',
        groups ∈ [default [] (r_stats report'); default [] (r_new_titles report');
                  default [] rss'; default [] rss_new'] →
        g' ∈ groups → t' ∈ titles_of g' →
        ∃ s gi g ti t,
          s ∈ sections report_data rss_items rss_new_items
          ∧ s.2 !! gi = Some g ∧ titles_of g !! ti = Some t
          ∧ (t' = t ∨ ∃ b, b ≠ [] ∧ brief_ok b ∧ t' = set_brief t b).
Proof.
  intros items He Hk Hi Hrun. rewrite fbs_judged by done. cbn [fst snd].
  fold items. rewrite Hrun.
  eexists _, _, _, _. split; [reflexivity|].
  unfold _apply_kept_ids. cbn [fst snd r_stats r_new_titles default].
  rewrite !default_rewrite_copy.
  set (keep_ids := merge_decisions self items decisions).
  assert (Hsec : ∀ s counted g' t',
    s ∈ sections report_data rss_items rss_new_items →
    g' ∈ rewrite_groups s.1.1 counted keep_ids decisions s.2 →
    t' ∈ titles_of g' →
    ∃ s gi g ti t,
      s ∈ sections report_data rss_items rss_new_items
      ∧ s.2 !! gi = Some g ∧ titles_of g !! ti = Some t
      ∧ (t' = t ∨ ∃ b, b ≠ [] ∧ brief_ok b ∧ t' = set_brief t b)).
  { intros s counted g' t' Hs Hg' Ht'.
    destruct (rewrite_groups_entries _ _ _ _ _ _ _ Hg' Ht')
      as (gi & g & ti & t & Hg & Ht & Hkeep & ->).
    exists s, gi, g, ti, t. repeat (split; [done|]).
    unfold annotate. destruct (decisions !! mk_id s.1.1 gi ti) as [d|] eqn:Hd; [|by left].
    destruct (d_brief d) as [|x b] eqn:Hb; [by left|].
    right. exists (x :: b). split; [done|]. split; [|done].
    rewrite <- Hb. by eapply judged_briefs. }
  intros groups g' t' Hgroups.
  repeat (apply elem_of_cons in Hgroups as [->|Hgroups]).
  - apply (Hsec (hot_stats, true, default [] (r_stats report_data)) true).
    unfold sections. set_solver.
  - apply (Hsec (hot_new, false, default [] (r_new_titles report_data)) false).
    unfold sections. set_solver.
  - apply (Hsec (rss_stats, true, default [] rss_items) true).
    unfold sections. set_solver.
  - apply (Hsec (rss_new, true, default [] rss_new_items) true).
    unfold sections. set_solver.
  - by apply elem_of_nil in Hgroups.
Qed.
End output_entries.

(** ** The objects the rewriter returns *)

Section store_outputs.
Context `{Runtime}.
Implicit Types (h : gmap nat Store.obj).

Lemma rewrite_opt_new (h0 : gmap nat Store.obj) section keep_ids decisions x h :
  Store.extends h0 h → (∀ l, x = Some l → l ∉ dom h0) →
  ∀ l, (Store.rewrite_opt section keep_ids decisions x h).1 = Some l → l ∉ dom h0.
Proof.
  intros Hext Hx. unfold Store.rewrite_opt. destruct x as [l0|]; [|done].
  destruct (rewrite_groups_ok h0 section true keep_ids decisions
              (Store.list_at h (Some l0)) h Hext) as [_ Hnew].
  { by apply extends_list_at. }
  destruct (Store.rewrite_groups _ _ _ _ _ _) as [l' h']. by intros l [= <-].
Qed.

Lemma apply_kept_ids_new h report_data rss_items rss_new_items keep_ids pointers
    decisions :
  let res := Store._apply_kept_ids report_data rss_items rss_new_items keep_ids pointers
               decisions h in
  (res.1.1.1 ∉ dom h)
  ∧ (∀ l, res.1.1.2 = Some l → l ∉ dom h)
  ∧ (∀ l, res.1.2 = Some l → l ∉ dom h).
Proof.
  unfold Store._apply_kept_ids.
  destruct (deepcopy_ok Store.copy_report h report_data h copy_report_ok (extends_refl h))
    as [H1 Hr].
  destruct (Store.deepcopy Store.copy_report report_data h) as [r h1]. cbn [fst snd] in *.
  destruct (copy_if_any_ok h rss_items h1 H1) as [H2 Ha].
  destruct (Store.copy_if_any rss_items h1) as [a h2]. cbn [fst snd] in *.
  destruct (copy_if_any_ok h rss_new_items h2 H2) as [H3 Hb].
  destruct (Store.copy_if_any rss_new_items h2) as [b h3]. cbn [fst snd] in *.
  destruct (rewrite_groups_ok h hot_stats true keep_ids decisions
              (Store.list_at h3 (Store.report_stats h3 r)) h3 H3) as [H4 Hs].
  { apply extends_list_at; [done|]. intros l. by apply extends_report_stats. }
  destruct (Store.rewrite_groups hot_stats _ _ _ _ _) as [new_stats h4]. cbn [fst snd] in *.
  pose proof (extends_set_stats_at h h4 r new_stats H4 Hr Hs) as H5.
  set (h5 := Store.set_stats_at r new_stats h4) in *.
  destruct (rewrite_groups_ok h hot_new false keep_ids decisions
              (Store.list_at h5 (Store.report_new_titles h5 r)) h5 H5) as [H6 Hn].
  { apply extends_list_at; [done|]. intros l. by apply extends_report_new_titles. }
  destruct (Store.rewrite_groups hot_new _ _ _ _ _) as [new_sources h6]. cbn [fst snd] in *.
  pose proof (extends_set_new_titles_at h h6 r new_sources H6 Hr Hn) as H7.
  set (h7 := Store.set_new_titles_at r new_sources h6) in *.
  pose proof (extends_set_total_at h h7 r
                (Store.sum_titles h7 (Store.list_at h7 (Some new_sources))) H7 Hr) as H8.
  set (h8 := Store.set_total_at r _ h7) in *.
  pose proof (rewrite_opt_ok h rss_stats keep_ids decisions a h8 H8 Ha) as H9.
  pose proof (rewrite_opt_new h rss_stats keep_ids decisions a h8 H8 Ha) as Ha'.
  destruct (Store.rewrite_opt rss_stats keep_ids decisions a h8) as [a' h9].
  cbn [fst snd] in *.
  assert (Hb' : ∀ l, b = Some l → l ∉ dom h) by done.
  pose proof (rewrite_opt_new h rss_new keep_ids decisions b h9 H9 Hb') as Hb''.
  destruct (Store.rewrite_opt rss_new keep_ids decisions b h9) as [b' h10]. done.
Qed.

(** X12. What comes back is the caller's or new, never a mix: the three
    collections [filter_before_send] returns are either the very objects
    it was given, in a store it did not touch, or (after the rewriter ran)
    three objects that were not in the caller's store, in a store where
    no new object holds a location of a caller's object; so a filtered
    result shares no dictionary and no list with the input. *)
Theorem returned_objects_new (self : AIQualityGate) (report_data : nat) (mode : pystr)
    (rss_items rss_new_items : option nat) (h : gmap nat Store.obj)
    (log : list (list candidate)) :
  ∃ r a b stats h',
    (Store.filter_before_send self report_data mode rss_items rss_new_items h log).2
      = Ok (r, a, b, stats, h')
    ∧ ((r = report_data ∧ a = rss_items ∧ b = rss_new_items ∧ h' = h)
       ∨ ((r ∉ dom h) ∧ (∀ l, a = Some l → l ∉ dom h) ∧ (∀ l, b = Some l → l ∉ dom h)
          ∧ Store.extends h h' ∧ error stats = [])).
Proof.
  unfold Store.filter_before_send. destruct (enabled self); cbn [negb].
  2:{ eexists _, _, _, _, _. split; [reflexivity|]. by left. }
  destruct (bool_decide _ && bool_decide _).
  { eexists _, _, _, _, _. split; [reflexivity|]. by left. }
  destruct (_collect_candidates _ _ _) as [items pointers].
  destruct items as [|it items].
  { eexists _, _, _, _, _. split; [reflexivity|]. by left. }
  unfold mbind, M_bind, bind, try_.
  destruct (_judge_in_batches self _ mode log) as [log' [decisions|e]]; cbn [fst snd].
  2:{ eexists _, _, _, _, _. split; [reflexivity|]. by left. }
  pose proof (apply_kept_ids_extends h report_data rss_items rss_new_items
                (merge_decisions self (it :: items) decisions) pointers decisions)
    as Hext.
  pose proof (apply_kept_ids_new h report_data rss_items rss_new_items
                (merge_decisions self (it :: items) decisions) pointers decisions)
    as (Hr & Ha & Hb).
  destruct (Store._apply_kept_ids _ _ _ _ _ _ _) as [[[r a] b] h1]. cbn [fst snd] in *.
  eexists _, _, _, _, _. split; [reflexivity|]. right. done.
Qed.
End store_outputs.

(** ** More on strings: trimming and cutting *)

Lemma lstrip_with_snoc p s c :
  p c = false → lstrip_with p (s ++ [c]) = lstrip_with p s ++ [c].
Proof.
  intros Hc. induction s as [|x s IH]; simpl; [by rewrite Hc|].
  destruct (p x); done.
Qed.

Lemma rstrip_with_cons p c s :
  p c = false → rstrip_with p (c :: s) = c :: rstrip_with p s.
Proof.
  intros Hc. unfold rstrip_with. rewrite reverse_cons, lstrip_with_snoc by done.
  by rewrite reverse_snoc.
Qed.

Lemma lstrip_with_idem p s : lstrip_with p (lstrip_with p s) = lstrip_with p s.
Proof.
  induction s as [|x s IH]; simpl; [done|].
  destruct (p x) eqn:Hx; [done|]. simpl. by rewrite Hx.
Qed.

Lemma rstrip_with_idem p s : rstrip_with p (rstrip_with p s) = rstrip_with p s.
Proof.
  unfold rstrip_with. by rewrite reverse_involutive, lstrip_with_idem.
Qed.

(** A text is trimmed when neither end can be stripped. *)
Lemma lstrip_rstrip p s :
  lstrip_with p s = s → lstrip_with p (rstrip_with p s) = rstrip_with p s.
Proof.
  destruct s as [|c s]; [done|]. intros Hs.
  assert (Hc : p c = false) by (by eapply lstrip_with_head).
  rewrite rstrip_with_cons by done. simpl. by rewrite Hc.
Qed.

Lemma strip_with_idem p s : strip_with p (strip_with p s) = strip_with p s.
Proof.
  unfold strip_with.
  rewrite (lstrip_rstrip p (lstrip_with p s)) by apply lstrip_with_idem.
  apply rstrip_with_idem.
Qed.

Lemma strip_with_fixed p s :
  lstrip_with p s = s → rstrip_with p s = s → strip_with p s = s.
Proof. intros Hl Hr. unfold strip_with. by rewrite Hl. Qed.

Lemma strip_with_lstrip p s : lstrip_with p (strip_with p s) = strip_with p s.
Proof. unfold strip_with. apply lstrip_rstrip, lstrip_with_idem. Qed.

Lemma strip_with_rstrip p s : rstrip_with p (strip_with p s) = strip_with p s.
Proof. unfold strip_with. apply rstrip_with_idem. Qed.

Lemma lstrip_take p s n : lstrip_with p s = s → lstrip_with p (take n s) = take n s.
Proof.
  destruct s as [|c s]; [by rewrite take_nil|]. intros Hs.
  assert (Hc : p c = false) by (by eapply lstrip_with_head).
  destruct n; simpl; [done|]. by rewrite Hc.
Qed.

Lemma replace1_absent (a b : N) (s : pystr) : a ∉ s → py_replace1 a b s = s.
Proof.
  intros Ha. unfold py_replace1. induction s as [|x s IH]; [done|].
  rewrite fmap_cons. rewrite IH by (intros ?; apply Ha; by right).
  destruct (N.eqb_spec x a) as [->|?]; [|done]. exfalso. apply Ha. left.
Qed.

(** The brief of a row is stored trimmed. *)
Lemma normalize_brief_trimmed (raw : pystr) :
  lstrip_with py_isspace (normalize_brief raw) = normalize_brief raw
  ∧ rstrip_with py_isspace (normalize_brief raw) = normalize_brief raw.
Proof.
  unfold normalize_brief.
  destruct (py_strip raw) as [|c brief] eqn:Hs; [done|].
  set (b := py_strip (py_replace1 13 32 (py_replace1 10 32 (c :: brief)))).
  assert (Hl : lstrip_with py_isspace b = b) by apply strip_with_lstrip.
  assert (Hr : rstrip_with py_isspace b = b) by apply strip_with_rstrip.
  destruct (80 <? length b)%nat; [|done]. unfold py_rstrip. split.
  - apply lstrip_rstrip. by apply lstrip_take.
  - apply rstrip_with_idem.
Qed.

(** Normalising a stored brief again changes nothing. *)
Lemma normalize_brief_idempotent (raw : pystr) :
  normalize_brief (normalize_brief raw) = normalize_brief raw.
Proof.
  pose proof (normalize_brief_ok raw) as (Hlf & Hcr & Hlen).
  pose proof (normalize_brief_trimmed raw) as [Hl Hr].
  set (b := normalize_brief raw) in *. unfold normalize_brief at 1.
  assert (Hb : py_strip b = b) by (by apply strip_with_fixed).
  rewrite Hb. destruct b as [|c b'] eqn:Eb; [done|]. rewrite <- Eb in *.
  rewrite (replace1_absent 10 32 b Hlf), (replace1_absent 13 32 b Hcr), Hb.
  destruct (Nat.ltb_spec 80 (length b)); [lia | done].
Qed.

(** *** Cutting: what is cut out is a run of the text *)

Lemma rstrip_with_prefix p s : rstrip_with p s `prefix_of` s.
Proof.
  unfold rstrip_with. destruct (lstrip_with_suffix p (reverse s)) as [k Hk].
  exists (reverse k). rewrite <- reverse_app, <- Hk. by rewrite reverse_involutive.
Qed.

Lemma strip_with_run p s : ∃ a b, s = a ++ strip_with p s ++ b.
Proof.
  unfold strip_with. destruct (lstrip_with_suffix p s) as [a Ha].
  destruct (rstrip_with_prefix p (lstrip_with p s)) as [b Hb].
  exists a, b. by rewrite <- Hb.
Qed.

Lemma py_slice_run s l r : ∃ a b, s = a ++ py_slice s l r ++ b.
Proof.
  unfold py_slice. exists (take (Z.to_nat l) s), (drop (Z.to_nat (r - l)) (drop (Z.to_nat l) s)).
  by rewrite !take_drop.
Qed.

Lemma cut_found_run opening closing (a e b : pystr) :
  cut_found opening closing e = true → cut_found opening closing (a ++ e ++ b) = true.
Proof.
  rewrite !cut_found_iff. intros (i & j & Hlt & Hi & Hj).
  exists (length a + i)%nat, (length a + j)%nat. split; [lia|].
  rewrite (lookup_app_r a _ (length a + i)), (lookup_app_r a _ (length a + j)) by lia.
  replace (length a + i - length a)%nat with i by lia.
  replace (length a + j - length a)%nat with j by lia.
  split; by apply lookup_app_l_Some.
Qed.

(** A text that runs from a bracket to its closing one is cut out whole. *)
Lemma cut_whole (opening closing : N) (body : pystr) :
  py_isspace opening = false → py_isspace closing = false →
  let e := opening :: body ++ [closing] in
  cut_found opening closing e = true
  ∧ py_strip (py_slice e (py_find opening e) (py_rfind closing e + 1)) = e.
Proof.
  intros Ho Hc e.
  assert (Hl : py_find opening e = 0).
  { unfold py_find, e. simpl. by rewrite N.eqb_refl. }
  assert (Hr : py_rfind closing e = Z.of_nat (S (length body))).
  { unfold py_rfind, e. change (opening :: body ++ [closing])
      with ((opening :: body) ++ [closing]). rewrite rfind_from_snoc. simpl. lia. }
  split.
  - unfold cut_found. rewrite Hl, Hr.
    replace (Z.of_nat (S (length body)) =? -1) with false
      by (symmetry; apply Z.eqb_neq; lia).
    replace (Z.of_nat (S (length body)) >? 0) with true
      by (symmetry; apply Z.gtb_lt; lia).
    done.
  - rewrite Hl, Hr. unfold py_slice.
    rewrite drop_0, take_ge.
    + by apply strip_with_between.
    + unfold e. simpl. rewrite length_app. simpl. lia.
Qed.

Lemma startswith_fence (c : N) (s : pystr) :
  c ≠ 96%N → py_startswith (py "```") (c :: s) = false.
Proof.
  intros Hc. change (py "```") with [96; 96; 96]%N. cbn [py_startswith].
  replace (96 =? c)%N with false by (symmetry; apply N.eqb_neq; congruence). done.
Qed.

(** One step of [splitlines]: the line ends at a line boundary, and a
    carriage return takes a following line feed with it. *)
Lemma splitlines_go_cons cur c s :
  splitlines_go cur (c :: s) =
    if is_linebreak c then
      reverse cur ::
        splitlines_go []
          (match s with
           | d :: s' => if (c =? 13)%N && (d =? 10)%N then s' else s
           | [] => s
           end)
    else splitlines_go (c :: cur) s.
Proof.
  cbn [splitlines_go]. destruct (is_linebreak c); [|done].
  destruct c as [|p]; [by destruct s|].
  do 4 (try (destruct p as [p|p|]; try (by destruct s))).
  destruct s as [|d s]; [done|]. destruct d as [|q]; [done|].
  do 4 (try (destruct q as [q|q|]; try done)).
Qed.

Lemma splitlines_go_Forall (P : N → Prop) cur s :
  Forall P cur → Forall P s → Forall (Forall P) (splitlines_go cur s).
Proof.
  assert (Hgen : ∀ (n : nat) s cur, (length s ≤ n)%nat → Forall P cur → Forall P s →
                   Forall (Forall P) (splitlines_go cur s)).
  { clear cur s. induction n as [|n IH]; intros s cur Hn Hcur Hs.
    - destruct s; [|simpl in Hn; lia]. simpl.
      destruct cur; [constructor|]. constructor; [by apply Forall_reverse | constructor].
    - destruct s as [|c s].
      { simpl. destruct cur; [constructor|].
        constructor; [by apply Forall_reverse | constructor]. }
      rewrite splitlines_go_cons. apply Forall_cons in Hs as [Hc Hs]. simpl in Hn.
      destruct (is_linebreak c).
      + constructor; [by apply Forall_reverse|].
        destruct s as [|d s]; [apply IH; [simpl; lia|constructor|constructor]|].
        destruct ((c =? 13)%N && (d =? 10)%N).
        * apply Forall_cons in Hs as [_ Hs]. simpl in Hn. apply IH; [lia|constructor|done].
        * apply IH; [lia|constructor|done].
      + apply IH; [lia | by constructor | done]. }
  intros Hcur Hs. by apply (Hgen (length s)).
Qed.

Lemma py_join_Forall (P : N → Prop) sep parts :
  Forall P sep → Forall (Forall P) parts → Forall P (py_join sep parts).
Proof.
  intros Hsep. induction 1 as [|p parts Hp Hparts IH]; simpl; [constructor|].
  destruct parts as [|q parts]; [done|].
  apply Forall_app. split; [done|]. apply Forall_app. split; [done|]. apply IH.
Qed.

Section extract.
Context `{Runtime}.

Lemma safe_json_extract_cut text :
  text ≠ [] →
  ∃ s, _safe_json_extract text =
         (if cut_found 91 93 s then Some (py_strip (py_slice s (py_find 91 s) (py_rfind 93 s + 1)))
          else if cut_found 123 125 s
               then Some (py_strip (py_slice s (py_find 123 s) (py_rfind 125 s + 1)))
               else None)
       ∧ ∀ P : N → Prop, P 10%N → Forall P text → Forall P s.
Proof.
  intros Hne. unfold _safe_json_extract. destruct text as [|c text]; [done|].
  eexists. split; [reflexivity|]. intros P Hnl Htext.
  assert (Hs : Forall P (py_strip (c :: text))) by (by apply strip_with_Forall).
  destruct (py_startswith _ _); [|done].
  assert (Hs' : Forall P (py_strip (py_strip_chars (py "`") (py_strip (c :: text)))))
    by (by apply strip_with_Forall, strip_with_Forall).
  pose proof (splitlines_go_Forall P [] _ (Forall_nil_2 _) Hs') as Hlines.
  fold (py_splitlines (py_strip (py_strip_chars (py "`") (py_strip (c :: text))))) in Hlines.
  destruct (py_splitlines _) as [|l0 rest]; [done|].
  destruct (is_lang_tag _); [|done].
  apply strip_with_Forall, py_join_Forall; [by constructor|].
  by apply Forall_cons in Hlines as [_ ?].
Qed.

Lemma slice_strip_Forall (P : N → Prop) s l r :
  Forall P s → Forall P (py_strip (py_slice s l r)).
Proof. intros Hs. apply strip_with_Forall. unfold py_slice. by apply Forall_take, Forall_drop. Qed.

Lemma slice_strip_run s l r : ∃ a b, s = a ++ py_strip (py_slice s l r) ++ b.
Proof.
  destruct (py_slice_run s l r) as (a & b & Hs).
  destruct (strip_with_run py_isspace (py_slice s l r)) as (a' & b' & Hs').
  exists (a ++ a'), (b' ++ b). rewrite Hs at 1. rewrite Hs' at 1.
  by rewrite <- !app_assoc.
Qed.

Lemma safe_json_extract_whole (opening closing : N) (body : pystr) :
  (opening = 91%N ∧ closing = 93%N
   ∨ opening = 123%N ∧ closing = 125%N
     ∧ cut_found 91 93 (opening :: body ++ [closing]) = false) →
  _safe_json_extract (opening :: body ++ [closing]) = Some (opening :: body ++ [closing]).
Proof.
  intros Hcase.
  assert (Ho : py_isspace opening = false ∧ py_isspace closing = false ∧ opening ≠ 96%N).
  { destruct Hcase as [[-> ->] | (-> & -> & _)]; done. }
  destruct Ho as (Ho & Hc & Hfence).
  unfold _safe_json_extract.
  change (py_strip (opening :: body ++ [closing]))
    with (strip_with py_isspace (opening :: body ++ [closing])).
  rewrite (strip_with_between py_isspace opening closing body Ho Hc).
  rewrite (startswith_fence opening _ Hfence).
  cbv zeta.
  change (negb (py_find 91 (opening :: body ++ [closing]) =? -1)
          && negb (py_rfind 93 (opening :: body ++ [closing]) =? -1)
          && (py_rfind 93 (opening :: body ++ [closing])
              >? py_find 91 (opening :: body ++ [closing])))
    with (cut_found 91 93 (opening :: body ++ [closing])).
  change (negb (py_find 123 (opening :: body ++ [closing]) =? -1)
          && negb (py_rfind 125 (opening :: body ++ [closing]) =? -1)
          && (py_rfind 125 (opening :: body ++ [closing])
              >? py_find 123 (opening :: body ++ [closing])))
    with (cut_found 123 125 (opening :: body ++ [closing])).
  destruct Hcase as [[-> ->] | (-> & -> & Hno)].
  - destruct (cut_whole 91 93 body Ho Hc) as [-> ->]. done.
  - rewrite Hno. destruct (cut_whole 123 125 body Ho Hc) as [-> ->]. done.
Qed.

(** X13. Extraction is idempotent: what [_safe_json_extract] cuts out of
    a text is cut out of itself unchanged, for an array and for an object
    (an object that is cut out holds no opening square bracket before a
    closing one, or the array inside it would have been cut out
    instead). *)
Theorem safe_json_extract_idempotent (text e : pystr) :
  _safe_json_extract text = Some e → _safe_json_extract e = Some e.
Proof.
  intros Hex. destruct (decide (text = [])) as [->|Hne]; [done|].
  destruct (safe_json_extract_cut text Hne) as (s & Hcut & _). rewrite Hcut in Hex.
  destruct (cut_found 91 93 s) eqn:Harr.
  - injection Hex as <-.
    destruct (extract_between s 91 93) as [body ->]; [done..|].
    apply safe_json_extract_whole. by left.
  - destruct (cut_found 123 125 s) eqn:Hobj; [|done]. injection Hex as <-.
    destruct (slice_strip_run s (py_find 123 s) (py_rfind 125 s + 1)) as (a & b & Hrun).
    destruct (extract_between s 123 125) as [body Hbody]; [done..|].
    rewrite Hbody in *. apply safe_json_extract_whole. right.
    split; [done|]. split; [done|].
    destruct (cut_found 91 93 (123%N :: body ++ [125%N])) eqn:Hin; [|done].
    apply (cut_found_run 91 93 a _ b) in Hin. rewrite <- Hrun in Hin. congruence.
Qed.

(** X14. Extraction invents nothing: every character of what
    [_safe_json_extract] returns is a character of the text (or the line
    feed that joins the lines after a language tag), and the text holds
    both square brackets or both braces; a text without them yields
    [None]. *)
Theorem extraction_invents_nothing (text e : pystr) :
  _safe_json_extract text = Some e →
  (∀ c, c ∈ e → c ∈ text ∨ c = 10%N)
  ∧ ((91%N ∈ text ∧ 93%N ∈ text) ∨ (123%N ∈ text ∧ 125%N ∈ text)).
Proof.
  intros Hex. destruct (decide (text = [])) as [->|Hne]; [done|].
  pose proof (safe_json_extract_bracketed text e Hex) as Hbr.
  destruct (safe_json_extract_cut text Hne) as (s & Hcut & Hs). rewrite Hcut in Hex.
  assert (Hsrc : Forall (λ c, c ∈ text ∨ c = 10%N) e).
  { specialize (Hs (λ c, c ∈ text ∨ c = 10%N)). cbv beta in Hs.
    assert (Hs' : Forall (λ c, c ∈ text ∨ c = 10%N) s).
    { apply Hs; [by right|]. apply Forall_forall. by left. }
    destruct (cut_found 91 93 s); [|destruct (cut_found 123 125 s); [|done]];
      injection Hex as <-; apply slice_strip_Forall, Hs'. }
  rewrite Forall_forall in Hsrc. split; [done|].
  destruct Hbr as [[body ->] | [body ->]]; [left | right]; split.
  all: match goal with
       | |- ?c ∈ _ =>
           destruct (Hsrc c) as [?|?]; [|done|done];
           rewrite elem_of_cons, elem_of_app, list_elem_of_singleton; auto
       end.
Qed.
End extract.

Section stored.
Context `{Runtime}.

Lemma row_entry_trimmed row rid d :
  row_entry row = Some (rid, Ok d) →
  rid ≠ [] ∧ py_strip rid = rid ∧ py_strip (d_reason d) = d_reason d
  ∧ py_strip (d_brief d) = d_brief d ∧ normalize_brief (d_brief d) = d_brief d.
Proof.
  unfold row_entry. destruct row; try done.
  destruct (py_strip (py_str (py_get fields (py "id") (JStr [])))) as [|c rid'] eqn:Hid;
    [done|].
  destruct (py_int _); [|done]. intros [= <- <-]. cbn [d_reason d_brief].
  split; [done|]. split; [rewrite <- Hid; apply strip_with_idem|].
  split; [apply strip_with_idem|].
  split; [|apply normalize_brief_idempotent].
  apply strip_with_fixed; apply normalize_brief_trimmed.
Qed.

(** X15. Decisions are stored trimmed: in the map [_judge_batch]
    returns, no id is empty and every id, reason and brief is free of
    white space at both ends; a stored brief is a fixed point of the
    normalisation (trim, line breaks to spaces, trim, cut at 80
    characters and trim on the right). *)
Theorem decisions_stored_trimmed (chunk : list candidate) (mode : pystr)
    (log : list (list candidate)) (m : gmap pystr decision) (rid : pystr) (d : decision) :
  (_judge_batch chunk mode log).2 = Ok m → m !! rid = Some d →
  rid ≠ [] ∧ py_strip rid = rid ∧ py_strip (d_reason d) = d_reason d
  ∧ py_strip (d_brief d) = d_brief d ∧ normalize_brief (d_brief d) = d_brief d.
Proof.
  unfold _judge_batch, call_chat, mbind, M_bind, bind, lift. simpl.
  destruct (chat chunk mode) as [raw|e]; [|done]. unfold parse_response.
  destruct (_safe_json_extract raw) as [[|c extracted]|]; [done| |done].
  destruct (json_loads (c :: extracted)) as [v|e]; [|done].
  destruct v; try done. cbn [snd]. intros Hm Hd.
  pose proof (judge_rows elems) as Hrows. rewrite Hm in Hrows.
  destruct Hrows as [_ Hrows]. apply Hrows in Hd as (i & row & _ & Hrow & _).
  by eapply row_entry_trimmed.
Qed.
End stored.

(** ** The settings the gate runs with *)

Section settings.
Context `{Runtime}.

Lemma result_bind_Ok {A B} (r : result A) (k : A → result B) (b : B) :
  (r ≫= k) = Ok b → ∃ a, r = Ok a ∧ k a = Ok b.
Proof. destruct r as [a|e]; [|done]. intros Hk. by exists a. Qed.

Lemma int_setting_plain gate_config key dflt z :
  plain_setting (gate_config !! py key) → dflt ≠ 0 →
  int_setting gate_config key dflt = Ok z → z ≠ 0.
Proof.
  unfold int_setting, py_get, py_or. intros Hplain Hd.
  assert (Hint : ∀ v, v ≠ 0 → py_int (JInt v) = Ok z → z ≠ 0).
  { intros v Hv Heq. cbn [py_int] in Heq. injection Heq as Heq. lia. }
  destruct (gate_config !! py key) as [v|]; cbn [default from_option id].
  2:{ cbn [py_truthy]. destruct (negb (dflt =? 0)); by apply Hint. }
  destruct v as [|b|v| | | |]; cbn [plain_setting] in Hplain; try done;
    cbn [py_truthy].
  - by apply Hint.
  - destruct b; [|by apply Hint]. cbn [py_int]. intros Heq. injection Heq as Heq. lia.
  - destruct (Z.eqb_spec v 0) as [->|Hv]; cbn [negb]; by apply Hint.
Qed.

Lemma int_setting_value gate_config key dflt z :
  gate_config !! py key = Some (JInt z) → z ≠ 0 →
  int_setting gate_config key dflt = Ok z.
Proof.
  unfold int_setting, py_get, py_or. intros -> Hz. simpl.
  apply Z.eqb_neq in Hz. by rewrite Hz.
Qed.

Lemma init_fields ai_config_API_KEY gate_config self :
  __init__ ai_config_API_KEY gate_config = Ok self →
  enabled self = py_truthy (py_get (default ∅ gate_config) (py "ENABLED") (JBool false))
  ∧ API_KEY self = ai_config_API_KEY
  ∧ int_setting (default ∅ gate_config) "MIN_SCORE" 60 = Ok (min_score self)
  ∧ int_setting (default ∅ gate_config) "MAX_ITEMS" 30 = Ok (max_items self)
  ∧ int_setting (default ∅ gate_config) "BATCH_SIZE" 40 = Ok (batch_size self).
Proof.
  unfold __init__. cbv zeta. intros Hinit.
  apply result_bind_Ok in Hinit as (model & _ & Hinit).
  apply result_bind_Ok in Hinit as (min_score & Hmin & Hinit).
  apply result_bind_Ok in Hinit as (max_items & Hmax & Hinit).
  apply result_bind_Ok in Hinit as (batch_size & Hbatch & Hinit).
  repeat (apply result_bind_Ok in Hinit as (? & _ & Hinit)).
  injection Hinit as <-. done.
Qed.

(** X16. A setting of zero is the default: when [MIN_SCORE], [MAX_ITEMS]
    and [BATCH_SIZE] are written as integers (or truth values, or left
    out), the gate [__init__] builds has none of them at 0; so the
    documented [MAX_ITEMS = 0] (evaluate everything) never reaches
    [filter_before_send], which then sends at most [max_items] candidates
    when [max_items] is positive and all of them when it is negative. *)
Theorem zero_setting_is_default (ai_config_API_KEY : option pystr)
    (gate_config : gmap pystr json) (self : AIQualityGate) :
  __init__ ai_config_API_KEY (Some gate_config) = Ok self →
  plain_setting (gate_config !! py "MIN_SCORE") →
  plain_setting (gate_config !! py "MAX_ITEMS") →
  plain_setting (gate_config !! py "BATCH_SIZE") →
  min_score self ≠ 0 ∧ max_items self ≠ 0 ∧ batch_size self ≠ 0
  ∧ (gate_config !! py "MAX_ITEMS" = Some (JInt 0) → max_items self = 30).
Proof.
  intros Hinit Hmin Hmax Hbatch.
  apply init_fields in Hinit as (_ & _ & Hmin' & Hmax' & Hbatch').
  cbn [default from_option id] in *.
  split; [apply (int_setting_plain gate_config "MIN_SCORE" 60 _ Hmin); [lia | exact Hmin']|].
  split; [apply (int_setting_plain gate_config "MAX_ITEMS" 30 _ Hmax); [lia | exact Hmax']|].
  split; [apply (int_setting_plain gate_config "BATCH_SIZE" 40 _ Hbatch);
          [lia | exact Hbatch']|].
  intros Hzero. unfold int_setting, py_get in Hmax'. rewrite Hzero in Hmax'.
  injection Hmax' as Hmax'. lia.
Qed.

Lemma bool_entry_env environ name gate_config key dflt v b :
  bool_entry environ name gate_config key dflt = Ok v →
  _get_env_bool environ (py name) = Some b → v = JBool b.
Proof. unfold bool_entry. intros Hv Hb. rewrite Hb in Hv. by injection Hv as <-. Qed.

Lemma int_entry_env environ name gate_config key dflt v z :
  int_entry environ name gate_config key dflt = Ok v →
  _get_env_int environ (py name) 0 = Ok z → z ≠ 0 → v = JInt z.
Proof.
  unfold int_entry. intros Hv Hz Hne. rewrite Hz in Hv.
  cbn [mbind result_bind] in Hv. apply Z.eqb_neq in Hne. rewrite Hne in Hv.
  by injection Hv as <-.
Qed.

(** The entries of the loaded dictionary the gate runs with. *)
Lemma loaded_entries environ config_data cfg :
  _load_quality_gate_config environ config_data = Ok cfg →
  let gate_config := py_get config_data (py "quality_gate") (JObj ∅) in
  ∃ ENABLED MIN_SCORE MAX_ITEMS BATCH_SIZE,
    bool_entry environ "QUALITY_GATE_ENABLED" gate_config "enabled" false = Ok ENABLED
    ∧ int_entry environ "QUALITY_GATE_MIN_SCORE" gate_config "min_score" 60 = Ok MIN_SCORE
    ∧ int_entry environ "QUALITY_GATE_MAX_ITEMS" gate_config "max_items" 30 = Ok MAX_ITEMS
    ∧ int_entry environ "QUALITY_GATE_BATCH_SIZE" gate_config "batch_size" 40
      = Ok BATCH_SIZE
    ∧ cfg !! py "ENABLED" = Some ENABLED ∧ cfg !! py "MIN_SCORE" = Some MIN_SCORE
    ∧ cfg !! py "MAX_ITEMS" = Some MAX_ITEMS ∧ cfg !! py "BATCH_SIZE" = Some BATCH_SIZE.
Proof.
  unfold _load_quality_gate_config. cbv zeta. intros Hload.
  apply result_bind_Ok in Hload as (ENABLED & HENABLED & Hload).
  apply result_bind_Ok in Hload as (MODEL & _ & Hload).
  apply result_bind_Ok in Hload as (MIN_SCORE & HMIN_SCORE & Hload).
  apply result_bind_Ok in Hload as (MAX_ITEMS & HMAX_ITEMS & Hload).
  apply result_bind_Ok in Hload as (BATCH_SIZE & HBATCH_SIZE & Hload).
  repeat (apply result_bind_Ok in Hload as (? & _ & Hload)).
  injection Hload as <-.
  exists ENABLED, MIN_SCORE, MAX_ITEMS, BATCH_SIZE.
  split; [exact HENABLED|]. split; [exact HMIN_SCORE|].
  split; [exact HMAX_ITEMS|]. split; [exact HBATCH_SIZE|].
  rewrite ?list_to_map_cons. cbn [fst snd].
  repeat split;
    repeat (rewrite lookup_insert_ne
              by (let Heq := fresh in intros Heq; apply py_inj in Heq; discriminate Heq));
    apply lookup_insert_eq.
Qed.

(** X17. The environment wins over the configuration file: for a gate
    built by [__init__] from the dictionary [_load_quality_gate_config]
    returns, [QUALITY_GATE_ENABLED], when it is set to a text that is not
    blank, decides [enabled] whatever the file says, and an integer other
    than 0 in [QUALITY_GATE_MIN_SCORE], [QUALITY_GATE_MAX_ITEMS] or
    [QUALITY_GATE_BATCH_SIZE] is the gate's [min_score], [max_items] or
    [batch_size]. *)
Theorem environment_wins (environ : gmap pystr pystr) (config_data : gmap pystr json)
    (ai_config_API_KEY : option pystr) (cfg : gmap pystr json) (self : AIQualityGate) :
  _load_quality_gate_config environ config_data = Ok cfg →
  __init__ ai_config_API_KEY (Some cfg) = Ok self →
  (∀ b, _get_env_bool environ (py "QUALITY_GATE_ENABLED") = Some b → enabled self = b)
  ∧ (∀ z, _get_env_int environ (py "QUALITY_GATE_MIN_SCORE") 0 = Ok z → z ≠ 0 →
       min_score self = z)
  ∧ (∀ z, _get_env_int environ (py "QUALITY_GATE_MAX_ITEMS") 0 = Ok z → z ≠ 0 →
       max_items self = z)
  ∧ (∀ z, _get_env_int environ (py "QUALITY_GATE_BATCH_SIZE") 0 = Ok z → z ≠ 0 →
       batch_size self = z).
Proof.
  intros Hload Hinit.
  destruct (loaded_entries environ config_data cfg Hload)
    as (ENABLED & MIN_SCORE & MAX_ITEMS & BATCH_SIZE & HE & HS & HI & HB
        & HcE & HcS & HcI & HcB).
  apply init_fields in Hinit as (Hen & _ & Hmin & Hmax & Hbatch).
  cbn [default from_option id] in *.
  assert (Hint : ∀ name key dflt v z attr,
    int_entry environ name (py_get config_data (py "quality_gate") (JObj ∅)) key dflt
      = Ok v →
    cfg !! py attr = Some v →
    ∀ d (got : Z), int_setting cfg attr d = Ok got →
    _get_env_int environ (py name) 0 = Ok z → z ≠ 0 → got = z).
  { intros name key dflt v z attr Hv Hc d got Hgot Hz Hne.
    rewrite (int_entry_env _ _ _ _ _ _ _ Hv Hz Hne) in Hc.
    rewrite (int_setting_value cfg attr d z Hc Hne) in Hgot.
    injection Hgot as Hgot. lia. }
  split.
  - intros b Hb. rewrite Hen. unfold py_get. rewrite HcE. cbn [default from_option id].
    by rewrite (bool_entry_env _ _ _ _ _ _ _ HE Hb).
  - repeat split; intros z Hz Hne.
    + by eapply (Hint _ _ _ _ z "MIN_SCORE"%string HS HcS).
    + by eapply (Hint _ _ _ _ z "MAX_ITEMS"%string HI HcI).
    + by eapply (Hint _ _ _ _ z "BATCH_SIZE"%string HB HcB).
Qed.
End settings.

(** ** The text of a page *)

(** X18. A fetched text is long enough and within the cap: when
    [fetch_url_text] returns a text, the text is not empty; with a
    positive [max_chars] it has at most [max_chars] characters, and at
    least 200 unless [max_chars] is smaller; with [max_chars] at 0 or
    below it has at least 200. *)
Theorem fetched_text_bounds `{Web} (url : pystr) (timeout max_chars : Z) (t : pystr) :
  fetch_url_text url timeout max_chars = Some t →
  t ≠ []
  ∧ (0 < max_chars →
     Z.min 200 max_chars ≤ Z.of_nat (length t) ∧ Z.of_nat (length t) ≤ max_chars)
  ∧ (max_chars ≤ 0 → 200 ≤ Z.of_nat (length t)).
Proof.
  unfold fetch_url_text. destruct url as [|u url]; [done|].
  destruct (requests_get (u :: url) timeout) as [[status_code text]|e]; [|done].
  destruct (status_code >=? 400); [done|]. cbv zeta.
  destruct (_strip_html text) as [|c cleaned] eqn:Hcleaned; [done|].
  destruct (Nat.ltb_spec (length (c :: cleaned)) 200) as [|Hlen]; [done|].
  intros [= <-].
  destruct (Z.eqb_spec max_chars 0) as [->|Hne]; cbn [negb andb].
  { split; [done|]. split; lia. }
  destruct (Z.gtb_spec max_chars 0) as [Hpos|Hneg].
  - assert (Htake : length (take (Z.to_nat max_chars) (c :: cleaned))
                    = Nat.min (Z.to_nat max_chars) (length (c :: cleaned))) by apply length_take.
    split; [|split; lia].
    intros Hnil. rewrite Hnil in Htake. simpl in Htake. lia.
  - split; [done|]. split; lia.
Qed.

(** ** Worked examples of the further properties *)

(** [candidate_iff_titled] at the first title of [with_blank]. *)
Lemma candidate_iff_titled_witness :
  stripped_title (titled "A") ≠ [] ↔
  ∃ c, c ∈ (_collect_candidates with_blank None None).1
       ∧ c_id c = mk_id hot_stats 0 0 ∧ c_title c = stripped_title (titled "A")
       ∧ c_section c = hot_stats.
Proof.
  apply (candidate_iff_titled with_blank None None
           (hot_stats, true, default [] (r_stats with_blank)) 0 0
           (Group (Some (py "AI"))
              (Some [titled "A"; Entry (Some (py "  ")) None None None None None ∅;
                     titled "B"]) (Some 3) ∅)
           (titled "A")).
  - apply list_elem_of_here.
  - reflexivity.
  - reflexivity.
Defined.

(** [stricter_threshold_keeps_less] from 60 to 90 on the end-to-end
    scenario. *)
Lemma stricter_threshold_keeps_less_witness :
  merge_decisions gate_strict (_collect_candidates two_titles None None).1 decisions_AB
  ⊆ merge_decisions gate_on (_collect_candidates two_titles None None).1 decisions_AB.
Proof.
  apply (stricter_threshold_keeps_less gate_on gate_strict). simpl. lia.
Defined.

(** [early_exit_calls_nothing] with the gate disabled. *)
Lemma early_exit_calls_nothing_witness :
  ∃ stats,
    @filter_before_send service_AB gate_off two_titles daily None None []
    = ([], Ok (two_titles, None, None, stats))
    ∧ evaluated_items stats = 0%nat ∧ kept_items stats = 0%nat
    ∧ dropped_items stats = 0%nat.
Proof.
  apply (@early_exit_calls_nothing service_AB gate_off two_titles daily None None []).
  left. reflexivity.
Defined.

(** [stats_add_up] on the end-to-end scenario: two candidates, both
    evaluated, one kept and one dropped. *)
Lemma stats_add_up_witness :
  ∃ out stats,
    (@filter_before_send service_AB gate_on two_titles daily None None []).2
      = Ok (out, stats)
    ∧ total_items stats = length (_collect_candidates two_titles None None).1
    ∧ evaluated_items stats
      = length (eval_items_of gate_on (_collect_candidates two_titles None None).1)
    ∧ (evaluated_items stats ≤ total_items stats)%nat
    ∧ (0 < max_items gate_on → (evaluated_items stats ≤ Z.to_nat (max_items gate_on))%nat)
    ∧ kept_items stats
      = size (merge_decisions gate_on (_collect_candidates two_titles None None).1
                decisions_AB)
    ∧ (kept_items stats + dropped_items stats = total_items stats)%nat
    ∧ error stats = [].
Proof.
  apply (@stats_add_up service_AB gate_on two_titles daily None None [] decisions_AB).
  - reflexivity.
  - vm_compute. discriminate.
  - vm_compute. discriminate.
  - vm_compute. reflexivity.
Defined.

(** [silent_answer_drops_nothing] when the service answers with the empty
    array. *)
Lemma silent_answer_drops_nothing_witness :
  ∃ out stats,
    (@filter_before_send service_empty gate_on two_titles daily None None []).2
      = Ok (out, stats)
    ∧ kept_items stats = total_items stats ∧ dropped_items stats = 0%nat.
Proof.
  destruct (@silent_answer_drops_nothing service_empty gate_on two_titles daily None None
              [] ∅) as (out & stats & Hrun & _ & Hkept & Hdropped).
  - reflexivity.
  - vm_compute. discriminate.
  - vm_compute. discriminate.
  - vm_compute. reflexivity.
  - intros c _. apply lookup_empty.
  - exists out, stats. split; [exact Hrun|]. split; [exact Hkept | exact Hdropped].
Defined.

(** [judge_stops_at_first_failure] where the second of two chunks times
    out. *)
Lemma judge_stops_at_first_failure_witness :
  let items := (_collect_candidates two_titles None None).1 in
  let chunks := batches (effective_batch_size gate_one_by_one items) items in
  ∃ k c,
    chunks !! k = Some c
    ∧ @batch_outcome service_timeout c daily
      = Raise (Exn (py "TimeoutError") (py "timed out"))
    ∧ Forall (λ c, is_raise (@batch_outcome service_timeout c daily) = false)
        (take k chunks)
    ∧ (@_judge_in_batches service_timeout gate_one_by_one items daily []).1
      = [] ++ take (S k) chunks.
Proof.
  intros items.
  apply (@judge_stops_at_first_failure service_timeout gate_one_by_one items daily []).
  - vm_compute. discriminate.
  - vm_compute. reflexivity.
Defined.

(** [single_batch]: two candidates and a batch size of 40. *)
Lemma single_batch_witness :
  let items := (_collect_candidates two_titles None None).1 in
  @_judge_in_batches service_AB gate_on items daily []
  = ([] ++ [items], @batch_outcome service_AB items daily).
Proof.
  intros items. apply (@single_batch service_AB gate_on items daily []).
  - vm_compute. discriminate.
  - right. vm_compute. discriminate.
Defined.

(** [surviving_entries_annotated] on the end-to-end scenario. *)
Lemma surviving_entries_annotated_witness :
  ∃ report' rss' rss_new' stats,
    (@filter_before_send service_AB gate_on two_titles daily None None []).2
      = Ok (report', rss', rss_new', stats)
    ∧ ∀ groups g' t',
        groups ∈ [default [] (r_stats report'); default [] (r_new_titles report');
                  default [] rss'; default [] rss_new'] →
        g' ∈ groups → t' ∈ titles_of g' →
        ∃ s gi g ti t,
          s ∈ sections two_titles None None
          ∧ s.2 !! gi = Some g ∧ titles_of g !! ti = Some t
          ∧ (t' = t ∨ ∃ b, b ≠ [] ∧ brief_ok b ∧ t' = set_brief t b).
Proof.
  eapply (@surviving_entries_annotated service_AB gate_on two_titles daily None None []).
  - reflexivity.
  - vm_compute. discriminate.
  - vm_compute. discriminate.
  - vm_compute. reflexivity.
Defined.

(** [safe_json_extract_idempotent] on an answer in a code fence. *)
Lemma safe_json_extract_idempotent_witness :
  @_safe_json_extract service_numbers answer_fenced = Some answer_numbers
  ∧ @_safe_json_extract service_numbers answer_numbers = Some answer_numbers.
Proof.
  assert (Hcut : @_safe_json_extract service_numbers answer_fenced = Some answer_numbers)
    by (vm_compute; reflexivity).
  split; [exact Hcut|].
  exact (@safe_json_extract_idempotent service_numbers answer_fenced answer_numbers Hcut).
Defined.

(** [extraction_invents_nothing] on the same answer. *)
Lemma extraction_invents_nothing_witness :
  (∀ c, c ∈ answer_numbers → c ∈ answer_fenced ∨ c = 10%N)
  ∧ ((91%N ∈ answer_fenced ∧ 93%N ∈ answer_fenced)
     ∨ (123%N ∈ answer_fenced ∧ 125%N ∈ answer_fenced)).
Proof.
  apply (@extraction_invents_nothing service_numbers answer_fenced answer_numbers).
  vm_compute. reflexivity.
Defined.

(** [decisions_stored_trimmed] on the brief of 95 characters. *)
Lemma decisions_stored_trimmed_witness :
  ∃ m d, (@_judge_batch service_long [] daily []).2 = Ok m
    ∧ m !! py "hot_stats:0:0" = Some d
    ∧ py_strip (d_brief d) = d_brief d ∧ normalize_brief (d_brief d) = d_brief d.
Proof.
  eexists _, _. split; [vm_compute; reflexivity|]. split; [vm_compute; reflexivity|].
  eapply (@decisions_stored_trimmed service_long [] daily [] _ (py "hot_stats:0:0")).
  - vm_compute. reflexivity.
  - vm_compute. reflexivity.
Defined.

(** [zero_setting_is_default]: [MAX_ITEMS] at 0 gives a gate that caps
    at 30. *)
Lemma zero_setting_is_default_witness :
  ∃ self, @__init__ service_AB (Some (py "sk-test")) (Some settings_zero) = Ok self
    ∧ max_items self ≠ 0 ∧ max_items self = 30.
Proof.
  exists (Gate true (Some (py "sk-test")) 60 30 40).
  assert (Hinit : @__init__ service_AB (Some (py "sk-test")) (Some settings_zero)
                  = Ok (Gate true (Some (py "sk-test")) 60 30 40))
    by (vm_compute; reflexivity).
  split; [exact Hinit|].
  destruct (@zero_setting_is_default service_AB _ _ _ Hinit) as (_ & Hmax & _ & Hzero).
  - vm_compute. exact I.
  - vm_compute. exact I.
  - vm_compute. exact I.
  - split; [exact Hmax|]. apply Hzero. vm_compute. reflexivity.
Defined.

(** [environment_wins]: the environment enables the gate and caps it at
    5 items over a file that disables it. *)
Lemma environment_wins_witness :
  @_load_quality_gate_config runtime_five environ_five config_five = Ok loaded_five
  ∧ @__init__ runtime_five (Some (py "sk-test")) (Some loaded_five) = Ok gate_five
  ∧ enabled gate_five = true ∧ max_items gate_five = 5.
Proof.
  assert (Hload : @_load_quality_gate_config runtime_five environ_five config_five
                  = Ok loaded_five) by (vm_compute; reflexivity).
  assert (Hinit : @__init__ runtime_five (Some (py "sk-test")) (Some loaded_five)
                  = Ok gate_five) by (vm_compute; reflexivity).
  destruct (@environment_wins runtime_five environ_five config_five
              (Some (py "sk-test")) loaded_five gate_five Hload Hinit)
    as (Henabled & _ & Hmax & _).
  split; [exact Hload|]. split; [exact Hinit|]. split.
  - apply Henabled. vm_compute. reflexivity.
  - apply Hmax; [vm_compute; reflexivity | lia].
Defined.

(** [fetched_text_bounds] on a page of 300 characters cut at 250. *)
Lemma fetched_text_bounds_witness :
  ∃ t, @fetch_url_text web_page (py "https://example.org/a") 10 250 = Some t
    ∧ t ≠ [] ∧ Z.of_nat (length t) ≤ 250.
Proof.
  exists (replicate 250 97%N).
  assert (Hfetch : @fetch_url_text web_page (py "https://example.org/a") 10 250
                   = Some (replicate 250 97%N)) by (vm_compute; reflexivity).
  split; [exact Hfetch|].
  destruct (@fetched_text_bounds web_page _ _ _ _ Hfetch) as (Hne & Hpos & _).
  split; [exact Hne|]. apply Hpos. lia.
Defined.
